(** * Graph-transformer layers of [dgl.nn.pytorch.graph_transformer]

    A shallow embedding of the two torch modules of
    [python/dgl/nn/pytorch/graph_transformer.py], [DegreeEncoder] and
    [BiasedMultiheadAttention], together with the part of the tensor
    runtime they call, and the properties of their documented behaviour.

    Conventions of the embedding:
    - Python integers are [Z]; tensor sizes, which torch keeps
      non-negative, are [nat]; Python strings are [string].
    - A Python call either returns or raises: [result A].
    - Floating-point numbers are idealised as the reals extended with the
      two infinities and NaN ([fnum]): finite values are computed exactly,
      the special values follow the IEEE conventions torch relies on
      (exp(-inf) = 0, inf - inf = NaN, NaN is absorbing).  Rounding and
      signed zeros are not modelled.
    - Tensors are row-major arrays.  Where the source mutates a tensor in
      place, tensors are handles into a store of buffers and views share
      the buffer of their base. *)

From Stdlib Require Import Reals Lra ZArith Lia.
From stdpp Require Import base list strings.

Local Open Scope nat_scope.

(** ** Python exceptions and fallible computations *)

Inductive exn : Set :=
| ValueError | AssertionError | ZeroDivisionError | RuntimeError
| IndexError | AttributeError.

Inductive result (A : Type) : Type :=
| Ok (a : A)
| Raise (e : exn).
Arguments Ok {A} a.
Arguments Raise {A} e.

#[global] Instance result_ret : MRet result := λ A a, Ok a.
#[global] Instance result_bind : MBind result := λ A B f r,
  match r with Ok a => f a | Raise e => Raise e end.
#[global] Instance result_fmap : FMap result := λ A B f r,
  match r with Ok a => Ok (f a) | Raise e => Raise e end.

(** Reading an attribute that an [nn.Module] instance may not have. *)
Definition getattr {A} (o : option A) : result A :=
  match o with Some a => Ok a | None => Raise AttributeError end.

(** ** Idealised floating-point numbers *)

Inductive fnum : Type :=
| Fin (r : R)
| PInf
| NInf
| NaN.

#[global] Instance fnum_inhabited : Inhabited fnum := populate (Fin 0%R).

Definition inf_of_sign (positive : bool) : fnum :=
  if positive then PInf else NInf.

Definition fadd (x y : fnum) : fnum :=
  match x, y with
  | Fin a, Fin b => Fin (a + b)
  | NaN, _ | _, NaN => NaN
  | PInf, NInf | NInf, PInf => NaN
  | PInf, _ | _, PInf => PInf
  | NInf, _ | _, NInf => NInf
  end.

Definition fneg (x : fnum) : fnum :=
  match x with
  | Fin a => Fin (- a)
  | PInf => NInf
  | NInf => PInf
  | NaN => NaN
  end.

Definition fsub (x y : fnum) : fnum := fadd x (fneg y).

(** Sign of a number as torch sees it; zero counts as positive. *)
Definition fnonneg (x : fnum) : bool :=
  match x with
  | Fin a => if Rlt_dec a 0 then false else true
  | PInf => true
  | NInf => false
  | NaN => true
  end.

Definition is_zero (x : fnum) : bool :=
  match x with
  | Fin a => if Req_dec_T a 0 then true else false
  | _ => false
  end.

Definition fmul (x y : fnum) : fnum :=
  match x, y with
  | Fin a, Fin b => Fin (a * b)
  | NaN, _ | _, NaN => NaN
  | _, _ =>
      if is_zero x || is_zero y then NaN
      else inf_of_sign (Bool.eqb (fnonneg x) (fnonneg y))
  end.

Definition fdiv (x y : fnum) : fnum :=
  match x, y with
  | NaN, _ | _, NaN => NaN
  | Fin a, Fin b =>
      if Req_dec_T b 0
      then (if Req_dec_T a 0 then NaN else inf_of_sign (fnonneg x))
      else Fin (a / b)
  | Fin _, _ => Fin 0
  | _, Fin _ => inf_of_sign (Bool.eqb (fnonneg x) (fnonneg y))
  | _, _ => NaN
  end.

Definition fexp (x : fnum) : fnum :=
  match x with
  | Fin a => Fin (exp a)
  | PInf => PInf
  | NInf => Fin 0
  | NaN => NaN
  end.

(** [max] as torch reduces with it: NaN wins. *)
Definition fmax (x y : fnum) : fnum :=
  match x, y with
  | NaN, _ | _, NaN => NaN
  | PInf, _ | _, PInf => PInf
  | NInf, z | z, NInf => z
  | Fin a, Fin b => Fin (Rmax a b)
  end.

Definition fsum (l : list fnum) : fnum := foldr fadd (Fin 0) l.

Definition is_fin (x : fnum) : Prop :=
  match x with Fin _ => True | _ => False end.

(** ** Row-major tensors *)

Record tensor (A : Type) : Type := Tensor {
  shape : list nat;
  data : list A
}.
Arguments Tensor {A} shape data.
Arguments shape {A} t.
Arguments data {A} t.

Definition numel (sh : list nat) : nat := foldr Nat.mul 1 sh.

(** A tensor is well formed when it holds one element per position. *)
Definition wf_tensor {A} (t : tensor A) : Prop :=
  length (data t) = numel (shape t).

(** Contiguous strides of a shape. *)
Fixpoint strides (sh : list nat) : list nat :=
  match sh with
  | [] => []
  | _ :: sh' => numel sh' :: strides sh'
  end.

(** Offset of a multi-index under given strides. *)
Definition dot (idx st : list nat) : nat := sum_list (zip_with Nat.mul idx st).

(** The multi-index of the [k]-th element in row-major order. *)
Fixpoint unravel (sh : list nat) (k : nat) : list nat :=
  match sh with
  | [] => []
  | _ :: sh' => k / numel sh' :: unravel sh' (k mod numel sh')
  end.

Definition ravel (sh idx : list nat) : nat := dot idx (strides sh).

(** The elements a strided view of [d] shows, in row-major order. *)
Definition gather_strided {A} `{Inhabited A}
    (sizes st : list nat) (d : list A) : list A :=
  (λ k, d !!! dot (unravel sizes k) st) <$> seq 0 (numel sizes).

(** *** Views: [permute], [transpose], [reshape], [expand] *)

Definition permute_list {A} `{Inhabited A} (perm : list nat) (l : list A) : list A :=
  (λ p, l !!! p) <$> perm.

(** The tensor seen through permuted sizes and strides. *)
Definition permuted {A} `{Inhabited A} (perm : list nat) (t : tensor A) : tensor A :=
  let sh' := permute_list perm (shape t) in
  Tensor sh' (gather_strided sh' (permute_list perm (strides (shape t))) (data t)).

Definition is_perm (perm : list nat) (rank : nat) : bool :=
  bool_decide (length perm = rank ∧ NoDup perm ∧ Forall (λ p, p < rank) perm).

(** [t.permute(perm)] *)
Definition permute {A} `{Inhabited A} (t : tensor A) (perm : list nat)
    : result (tensor A) :=
  if is_perm perm (length (shape t)) then Ok (permuted perm t)
  else Raise RuntimeError.

Definition swap_dims (rank d0 d1 : nat) : list nat :=
  <[d0 := d1]> (<[d1 := d0]> (seq 0 rank)).

(** [t.transpose(d0, d1)] *)
Definition transpose {A} `{Inhabited A} (t : tensor A) (d0 d1 : nat)
    : result (tensor A) :=
  let rank := length (shape t) in
  if (d0 <? rank) && (d1 <? rank) then Ok (permuted (swap_dims rank d0 d1) t)
  else Raise IndexError.

(** The shape [t.reshape(dims)] asks for, with at most one dimension
    given as [-1] and inferred from the number of elements [n]. *)
Definition infer_size (dims : list Z) (n : nat) : result (list nat) :=
  if bool_decide (Exists (λ d, d < -1)%Z dims) then Raise RuntimeError
  else
    let known := numel (Z.to_nat <$> filter (λ d, d ≠ (-1)%Z) dims) in
    match length (filter (λ d, d = (-1)%Z) dims) with
    | 0 => if known =? n then Ok (Z.to_nat <$> dims) else Raise RuntimeError
    | 1 =>
        if (0 <? known) && (n mod known =? 0)
        then Ok ((λ d, if bool_decide (d = (-1)%Z) then n / known else Z.to_nat d) <$> dims)
        else Raise RuntimeError
    | _ => Raise RuntimeError
    end.

(** [t.reshape(dims)]: the same elements in the same row-major order. *)
Definition reshape {A} (t : tensor A) (dims : list Z) : result (tensor A) :=
  sh ← infer_size dims (numel (shape t));
  Ok (Tensor sh (data t)).

(** Strides under which a tensor of shape [src] shows as shape [tgt]
    (broadcasting): sizes are aligned from the last one, a size 1 or a
    missing size is repeated with stride 0.  The three arguments are the
    reversed source sizes, source strides and target sizes; the result is
    reversed as well. *)
Fixpoint expand_rev (rs rst rt : list nat) : option (list nat) :=
  match rt with
  | [] => match rs with [] => Some [] | _ :: _ => None end
  | t :: rt' =>
      match rs, rst with
      | [], _ => (0 ::.) <$> expand_rev [] [] rt'
      | s :: rs', st :: rst' =>
          if s =? t then (st ::.) <$> expand_rev rs' rst' rt'
          else if s =? 1 then (0 ::.) <$> expand_rev rs' rst' rt'
          else None
      | _ :: _, [] => None
      end
  end.

Definition expand_strides (src tgt : list nat) : option (list nat) :=
  reverse <$> expand_rev (reverse src) (reverse (strides src)) (reverse tgt).

(** [t.expand(tgt)] *)
Definition expand {A} `{Inhabited A} (t : tensor A) (tgt : list nat)
    : option (tensor A) :=
  st ← expand_strides (shape t) tgt;
  Some (Tensor tgt (gather_strided tgt st (data t))).

(** The common shape two operands broadcast to (on reversed shapes). *)
Fixpoint broadcast_rev (r1 r2 : list nat) : option (list nat) :=
  match r1, r2 with
  | [], _ => Some r2
  | _ :: _, [] => Some r1
  | a :: r1', b :: r2' =>
      if a =? b then (a ::.) <$> broadcast_rev r1' r2'
      else if a =? 1 then (b ::.) <$> broadcast_rev r1' r2'
      else if b =? 1 then (a ::.) <$> broadcast_rev r1' r2'
      else None
  end.

Definition broadcast_shapes (sh1 sh2 : list nat) : option (list nat) :=
  reverse <$> broadcast_rev (reverse sh1) (reverse sh2).

(** *** Arithmetic *)

(** [x op y], a new tensor of the broadcast shape. *)
Definition binop {A} `{Inhabited A} (f : A → A → A) (x y : tensor A)
    : result (tensor A) :=
  match broadcast_shapes (shape x) (shape y) with
  | Some sh =>
      match expand x sh, expand y sh with
      | Some x', Some y' => Ok (Tensor sh (zip_with f (data x') (data y')))
      | _, _ => Raise RuntimeError
      end
  | None => Raise RuntimeError
  end.

(** The elements [x] holds after [x op= y]: [y] is broadcast to the shape
    of [x], which does not change. *)
Definition inplace_binop {A} `{Inhabited A} (f : A → A → A) (x y : tensor A)
    : result (list A) :=
  match expand y (shape x) with
  | Some y' => Ok (zip_with f (data x) (data y'))
  | None => Raise RuntimeError
  end.

(** [x / s] for a Python float [s]. *)
Definition div_scalar (x : tensor fnum) (s : fnum) : tensor fnum :=
  Tensor (shape x) ((λ a, fdiv a s) <$> data x).

(** [th.bmm(x, y)]: batched matrix product of 3-D tensors. *)
Definition bmm (x y : tensor fnum) : result (tensor fnum) :=
  match shape x, shape y with
  | [b; n; m], [b'; m'; p] =>
      if (b =? b') && (m =? m') then
        Ok (Tensor [b; n; p]
              ((λ o, let bi := o / (n * p) in
                     let i := o / p mod n in
                     let j := o mod p in
                     fsum ((λ k, fmul (data x !!! ((bi * n + i) * m + k))
                                      (data y !!! ((bi * m + k) * p + j)))
                             <$> seq 0 m))
                 <$> seq 0 (b * n * p)))
      else Raise RuntimeError
  | _, _ => Raise RuntimeError
  end.

(** Softmax of one row, as torch computes it: the maximum is subtracted
    before exponentiation. *)
Definition softmax_row (xs : list fnum) : list fnum :=
  let mx := foldr fmax NInf xs in
  let es := (λ x, fexp (fsub x mx)) <$> xs in
  let s := fsum es in
  (λ e, fdiv e s) <$> es.

(** [F.softmax(t, dim)]: every element is normalised within the row that
    runs through it along dimension [dim]. *)
Definition softmax (t : tensor fnum) (dim : nat) : result (tensor fnum) :=
  if dim <? length (shape t) then
    let n := shape t !!! dim in
    let st := strides (shape t) !!! dim in
    Ok (Tensor (shape t)
          ((λ k, let i := k / st mod n in
                 let base := k - i * st in
                 softmax_row ((λ l, data t !!! (base + l * st)) <$> seq 0 n) !!! i)
             <$> seq 0 (numel (shape t))))
  else Raise IndexError.

(** [t.to(th.bool)]: non-zero is true (1), zero is false (0). *)
Definition to_bool (t : tensor fnum) : tensor fnum :=
  Tensor (shape t) ((λ x, if is_zero x then Fin 0 else Fin 1) <$> data t).

(** The elements [x] holds after [x[mask] = v] for a boolean [mask] whose
    shape is a prefix of the shape of [x]: a true entry selects the whole
    block of [x] below it. *)
Definition masked_fill (x mask : tensor fnum) (v : fnum) : result (list fnum) :=
  let r := length (shape mask) in
  if bool_decide (take r (shape x) = shape mask) then
    let block := numel (drop r (shape x)) in
    Ok (imap (λ k a, if is_zero (data mask !!! (k / block)) then a else v) (data x))
  else Raise IndexError.

(** *** Tensor creation and initialisation

    Random initialisers draw from a sample source: [u k] is the [k]-th
    draw, standard normal for [normal_] and uniform on [-1, 1] for the
    uniform initialisers. *)

(** [torch.empty(dims)]: only the shape matters, the elements are
    overwritten by the initialiser that follows. *)
Definition torch_empty (dims : list Z) : result (list nat) :=
  if bool_decide (Exists (λ d, d < 0)%Z dims) then Raise RuntimeError
  else Ok (Z.to_nat <$> dims).

Definition normal_ (sh : list nat) (u : nat → R) : tensor fnum :=
  Tensor sh ((λ k, Fin (u k)) <$> seq 0 (numel sh)).

Definition uniform_ (sh : list nat) (bound : R) (u : nat → R) : tensor fnum :=
  Tensor sh ((λ k, Fin (bound * u k)) <$> seq 0 (numel sh)).

Definition constant_ (sh : list nat) (c : R) : tensor fnum :=
  Tensor sh (replicate (numel sh) (Fin c)).

(** [nn.init.xavier_uniform_(w, gain)] for a 2-D weight of shape
    [fan_out; fan_in]; raises for an empty weight, where the bound
    divides by zero. *)
Definition xavier_uniform_ (w : tensor fnum) (gain : R) (u : nat → R)
    : result (tensor fnum) :=
  match shape w with
  | [fan_out; fan_in] =>
      if fan_in + fan_out =? 0 then Raise ZeroDivisionError
      else Ok (uniform_ (shape w) (gain * sqrt (6 / INR (fan_in + fan_out))) u)
  | _ => Raise ValueError
  end.

(** [w[i].fill_(c)] on a 2-D tensor, with Python's negative indices. *)
Definition fill_row (w : tensor fnum) (i : Z) (c : R) : result (tensor fnum) :=
  match shape w with
  | n :: rest =>
      let i' := if (i <? 0)%Z then (i + Z.of_nat n)%Z else i in
      if (0 <=? i')%Z && (i' <? Z.of_nat n)%Z then
        let d := numel rest in
        Ok (Tensor (shape w)
              (imap (λ k a, if k / d =? Z.to_nat i' then Fin c else a) (data w)))
      else Raise IndexError
  | [] => Raise IndexError
  end.

(** ** The torch layers the two modules are built from *)

Module Embedding.

Record t : Type := Build {
    num_embeddings : Z;
    embedding_dim : Z;
    padding_idx : Z;
    weight : tensor fnum
  }.

  (** [nn.Embedding(num_embeddings, embedding_dim, padding_idx=...)]:
      the table is drawn from the standard normal distribution and the
      padding row is then zeroed. *)
Definition init (num_embeddings embedding_dim padding_idx : Z)
      (u : nat → R) : result t :=
    pad ← (if (0 <? padding_idx)%Z then
             if (padding_idx <? num_embeddings)%Z then Ok padding_idx
             else Raise AssertionError
           else if (padding_idx <? 0)%Z then
             if (- num_embeddings <=? padding_idx)%Z
             then Ok (num_embeddings + padding_idx)%Z
             else Raise AssertionError
           else Ok padding_idx);
    sh ← torch_empty [num_embeddings; embedding_dim];
    w ← fill_row (normal_ sh u) pad 0;
    Ok (Build num_embeddings embedding_dim pad w).

  (** [self(input)]: row [input[i]] of the table for every position of
      the index tensor; an index outside the table raises. *)
Definition forward (self : t) (input : tensor Z) : result (tensor fnum) :=
    match shape (weight self) with
    | [n; d] =>
        rows ← mapM (λ i : Z,
                  if (0 <=? i)%Z && (i <? Z.of_nat n)%Z
                  then Ok (take d (drop (Z.to_nat i * d) (data (weight self))))
                  else Raise IndexError) (data input);
        Ok (Tensor (shape input ++ [d]) (mjoin rows))
    | _ => Raise RuntimeError
    end.

End Embedding.

Module Linear.

Record t : Type := Build {
    weight : tensor fnum;
    bias : option (tensor fnum)
  }.

  (** [nn.Linear(in_features, out_features, bias=...)] with torch's
      default initialisation, uniform within [1 / sqrt in_features]. *)
Definition init (in_features out_features : Z) (with_bias : bool)
      (u_weight u_bias : nat → R) : result t :=
    sh ← torch_empty [out_features; in_features];
    let bound := if (in_features =? 0)%Z then 0%R else (/ sqrt (IZR in_features))%R in
    Ok (Build (uniform_ sh bound u_weight)
              (if with_bias then Some (uniform_ [Z.to_nat out_features] bound u_bias)
               else None)).

  (** [self(x)]: [x @ weight.T + bias] over the last dimension of [x]. *)
Definition forward (self : t) (x : tensor fnum) : result (tensor fnum) :=
    match shape (weight self), reverse (shape x) with
    | [o; i], i' :: lead =>
        if (i =? i')
           && match bias self with
              | Some b => bool_decide (shape b = [o])
              | None => true
              end
        then
          Ok (Tensor (reverse (o :: lead))
                ((λ k, let r := k / o in
                       let c := k mod o in
                       let acc := fsum ((λ j, fmul (data x !!! (r * i + j))
                                                   (data (weight self) !!! (c * i + j)))
                                          <$> seq 0 i) in
                       match bias self with
                       | Some b => fadd acc (data b !!! c)
                       | None => acc
                       end)
                   <$> seq 0 (numel (reverse lead) * o)))
        else Raise RuntimeError
    | _, _ => Raise RuntimeError
    end.

End Linear.

Module Dropout.

Record t : Type := Build {
    p : R;
    training : bool
  }.

  (** [nn.Dropout(p=...)]; a module is created in training mode. *)
Definition init (p : R) : result t :=
    if Rlt_dec p 0 then Raise ValueError
    else if Rlt_dec 1 p then Raise ValueError
    else Ok (Build p true).

  (** Whether [self(x)] hands [x] back unchanged. *)
Definition is_identity (self : t) (x : tensor fnum) : bool :=
    negb (training self) || (if Req_dec_T (p self) 0 then true else false)
    || (numel (shape x) =? 0).

  (** [self(x)] when it is not the identity. [keep k] tells whether the
      random mask drawn for this call keeps position [k]. *)
Definition noise (self : t) (keep : nat → bool) (x : tensor fnum) : tensor fnum :=
    if Req_dec_T (p self) 1 then
      Tensor (shape x) ((λ a, fmul a (Fin 0)) <$> data x)
    else
      Tensor (shape x)
        (imap (λ k a, fmul a (if keep k then Fin (1 / (1 - p self)) else Fin 0))
              (data x)).

Definition forward (self : t) (keep : nat → bool) (x : tensor fnum) : tensor fnum :=
    if is_identity self x then x else noise self keep x.

End Dropout.

(** ** The graphs of DGL

    A graph has typed nodes and typed edges.  Node ids are local to their
    type; an edge type links a source node type to a destination node
    type. *)

Record edge_type : Type := EdgeType {
  src_type : nat;
  etype_name : string;
  dst_type : nat;
  edges : list (nat * nat)
}.

Record DGLGraph : Type := Graph {
  ntypes : list (string * nat);
  etypes : list edge_type
}.

Definition num_nodes (g : DGLGraph) : nat := sum_list (snd <$> ntypes g).

(** First id, in the homogeneous graph, of the nodes of type [ty]. *)
Definition node_offset (g : DGLGraph) (ty : nat) : nat :=
  sum_list (snd <$> take ty (ntypes g)).

Definition all_edges (g : DGLGraph) : list (nat * nat) :=
  e ← etypes g;
  (λ uv, (node_offset g (src_type e) + uv.1, node_offset g (dst_type e) + uv.2))
    <$> edges e.

(** [dgl.to_homogeneous(g)]: one node type and one edge type, the nodes
    renumbered type after type. *)
Definition to_homogeneous (g : DGLGraph) : DGLGraph :=
  Graph [("_N"%string, num_nodes g)] [EdgeType 0 "_E" 0 (all_edges g)].

(** [g.in_degrees()] and [g.out_degrees()] of a graph with one node type
    and one edge type: an int64 tensor with one entry per node. *)
Definition in_degrees (g : DGLGraph) : tensor Z :=
  Tensor [num_nodes g]
    ((λ v, Z.of_nat (length (filter (λ uv, uv.2 = v) (all_edges g))))
       <$> seq 0 (num_nodes g)).

Definition out_degrees (g : DGLGraph) : tensor Z :=
  Tensor [num_nodes g]
    ((λ v, Z.of_nat (length (filter (λ uv, uv.1 = v) (all_edges g))))
       <$> seq 0 (num_nodes g)).

(** [th.clamp(t, min=lo, max=hi)] *)
Definition clamp (t : tensor Z) (lo hi : Z) : tensor Z :=
  Tensor (shape t) ((λ x, Z.min (Z.max x lo) hi) <$> data t).

(** ** DegreeEncoder *)

Module DegreeEncoder.

  (** The attributes of an instance; a table attribute exists or not
      according to the direction given at construction. *)
Record t : Type := Build {
    direction : string;
    degree_encoder : option Embedding.t;
    degree_encoder_1 : option Embedding.t;
    degree_encoder_2 : option Embedding.t;
    max_degree : Z
  }.

  (** [DegreeEncoder(max_degree, embedding_dim, direction)]; [u1] and
      [u2] are the draws for the first and the second table created. *)
Definition init (max_degree embedding_dim : Z) (direction : string)
      (u1 u2 : nat → R) : result t :=
    if String.eqb direction "both" then
      e1 ← Embedding.init (max_degree + 1) embedding_dim 0 u1;
      e2 ← Embedding.init (max_degree + 1) embedding_dim 0 u2;
      Ok (Build direction None (Some e1) (Some e2) max_degree)
    else
      e ← Embedding.init (max_degree + 1) embedding_dim 0 u1;
      Ok (Build direction (Some e) None None max_degree).

  (** The graph whose degrees are counted. *)
Definition homogeneous (g : DGLGraph) : DGLGraph :=
    if (1 <? length (ntypes g)) || (1 <? length (etypes g))
    then to_homogeneous g else g.

  (** The index tensors handed to the tables. *)
Definition in_degree (self : t) (g : DGLGraph) : tensor Z :=
    clamp (in_degrees (homogeneous g)) 0 (max_degree self).

Definition out_degree (self : t) (g : DGLGraph) : tensor Z :=
    clamp (out_degrees (homogeneous g)) 0 (max_degree self).

Definition forward (self : t) (g : DGLGraph) : result (tensor fnum) :=
    let in_degree := in_degree self g in
    let out_degree := out_degree self g in
    if String.eqb (direction self) "in" then
      enc ← getattr (degree_encoder self);
      Embedding.forward enc in_degree
    else if String.eqb (direction self) "out" then
      enc ← getattr (degree_encoder self);
      Embedding.forward enc out_degree
    else if String.eqb (direction self) "both" then
      enc1 ← getattr (degree_encoder_1 self);
      a ← Embedding.forward enc1 in_degree;
      enc2 ← getattr (degree_encoder_2 self);
      b ← Embedding.forward enc2 out_degree;
      binop fadd a b
    else Raise ValueError.

End DegreeEncoder.

(** ** Tensors in memory

    The attention module updates a tensor in place, so its tensors live
    in a store of buffers.  A handle names a buffer and the positions of
    the buffer it shows, in row-major order of its shape: a view made by
    [transpose], [permute] or [reshape] shares the buffer of its base,
    and a write through one handle is seen through every other handle on
    the same buffer. *)

Abbreviation store := (list (list fnum)).

Record handle : Type := Handle {
  stor : nat;
  view : tensor nat
}.

(** The tensor a handle shows in a store. *)
Definition value (s : store) (h : handle) : tensor fnum :=
  Tensor (shape (view h)) ((λ o, (s !!! stor h) !!! o) <$> data (view h)).

(** Computations on the store that may raise; the store survives an
    exception. *)
Definition M (A : Type) : Type := store → result A * store.

#[global] Instance M_ret : MRet M := λ A a s, (Ok a, s).
#[global] Instance M_bind : MBind M := λ A B f c s,
  match c s with
  | (Ok a, s') => f a s'
  | (Raise e, s') => (Raise e, s')
  end.

Definition lift {A} (r : result A) : M A := λ s, (r, s).

(** A new buffer, shown contiguously. *)
Definition alloc (t : tensor fnum) : M handle := λ s,
  (Ok (Handle (length s) (Tensor (shape t) (seq 0 (length (data t))))),
   s ++ [data t]).

Definition read (h : handle) : M (tensor fnum) := λ s, (Ok (value s h), s).

Definition scatter (offs : list nat) (vals : list fnum) (buf : list fnum) : list fnum :=
  foldl (λ b ov, <[ov.1 := ov.2]> b) buf (zip offs vals).

(** Overwrite the positions a handle shows. *)
Definition write (h : handle) (vals : list fnum) : M unit := λ s,
  (Ok tt, <[stor h := scatter (data (view h)) vals (s !!! stor h)]> s).

(** Views *)

Definition transpose_h (h : handle) (d0 d1 : nat) : M handle :=
  v ← lift (transpose (view h) d0 d1);
  mret (Handle (stor h) v).

Definition permute_h (h : handle) (perm : list nat) : M handle :=
  v ← lift (permute (view h) perm);
  mret (Handle (stor h) v).

(** New tensors *)

Definition linear_h (l : Linear.t) (h : handle) : M handle :=
  x ← read h;
  y ← lift (Linear.forward l x);
  alloc y.

Definition bmm_h (x y : handle) : M handle :=
  vx ← read x;
  vy ← read y;
  r ← lift (bmm vx vy);
  alloc r.

Definition softmax_h (h : handle) (dim : nat) : M handle :=
  x ← read h;
  y ← lift (softmax x dim);
  alloc y.

(** A Python number: [int ** float] is a float, or a complex number when
    the base is negative. *)
Inductive pynum : Type :=
| PyFloat (x : fnum)
| PyComplex (re im : R).

(** [n ** -0.5] for a Python integer [n] *)
Definition pow_neg_half (n : Z) : result pynum :=
  if (n =? 0)%Z then Raise ZeroDivisionError
  else if (0 <? n)%Z then Ok (PyFloat (Fin (/ sqrt (IZR n))))
  else Ok (PyComplex 0 (- / sqrt (IZR (- n)))).

(** [x / s].  With a complex [s] the quotient is a complex tensor, which
    the matrix product with a real tensor that follows in the source
    rejects; the model raises that error here. *)
Definition div_pynum (x : tensor fnum) (s : pynum) : result (tensor fnum) :=
  match s with
  | PyFloat f => Ok (div_scalar x f)
  | PyComplex _ _ => Raise RuntimeError
  end.

Definition div_pynum_h (h : handle) (s : pynum) : M handle :=
  x ← read h;
  y ← lift (div_pynum x s);
  alloc y.

(** In-place updates *)

(** [x op= y] *)
Definition inplace_h (f : fnum → fnum → fnum) (x y : handle) : M unit :=
  vx ← read x;
  vy ← read y;
  vals ← lift (inplace_binop f vx vy);
  write x vals.

(** [x[mask] = v] *)
Definition setitem_mask_h (x mask : handle) (v : fnum) : M unit :=
  vx ← read x;
  vm ← read mask;
  vals ← lift (masked_fill vx vm v);
  write x vals.

Definition dropout_h (d : Dropout.t) (keep : nat → bool) (h : handle) : M handle :=
  x ← read h;
  if Dropout.is_identity d x then mret h else alloc (Dropout.noise d keep x).

(** [bsz, N, _ = t.shape] *)
Definition unpack3 (sh : list nat) : result (nat * nat) :=
  match sh with
  | [bsz; n; _] => Ok (bsz, n)
  | _ => Raise ValueError
  end.

Section runtime.

  (** Two choices torch makes from the memory layout and the dtype of a
      tensor, which handles do not record: whether [reshape] can return a
      view or has to copy, and whether [to(th.bool)] finds its argument
      boolean already and returns it.  The model is parametric in both. *)
Variable reshape_is_view : handle → list nat → bool.
Variable to_bool_is_noop : handle → bool.

Definition reshape_h (h : handle) (dims : list Z) : M handle :=
    v ← lift (reshape (view h) dims);
    if reshape_is_view h (shape v) then mret (Handle (stor h) v)
    else x ← read h; y ← lift (reshape x dims); alloc y.

Definition to_bool_h (h : handle) : M handle :=
    if to_bool_is_noop h then mret h
    else x ← read h; alloc (to_bool x).

End runtime.

(** ** BiasedMultiheadAttention *)

Module BiasedMultiheadAttention.

Record t : Type := Build {
    feat_size : Z;
    num_heads : Z;
    head_dim : Z;
    scaling : pynum;
    attn_bias_type : string;
    q_proj : Linear.t;
    k_proj : Linear.t;
    v_proj : Linear.t;
    out_proj : Linear.t;
    dropout : Dropout.t
  }.

  (** [self.reset_parameters()]; [u 0] to [u 3] are the draws for the
      four weights. *)
Definition reset_parameters (self : t) (u : nat → nat → R) : result t :=
    qw ← xavier_uniform_ (Linear.weight (q_proj self)) (/ sqrt 2) (u 0);
    kw ← xavier_uniform_ (Linear.weight (k_proj self)) (/ sqrt 2) (u 1);
    vw ← xavier_uniform_ (Linear.weight (v_proj self)) (/ sqrt 2) (u 2);
    ow ← xavier_uniform_ (Linear.weight (out_proj self)) 1 (u 3);
    let ob := match Linear.bias (out_proj self) with
              | Some b => Some (constant_ (shape b) 0)
              | None => None
              end in
    Ok (Build (feat_size self) (num_heads self) (head_dim self) (scaling self)
              (attn_bias_type self)
              (Linear.Build qw (Linear.bias (q_proj self)))
              (Linear.Build kw (Linear.bias (k_proj self)))
              (Linear.Build vw (Linear.bias (v_proj self)))
              (Linear.Build ow ob)
              (dropout self)).

  (** [BiasedMultiheadAttention(feat_size, num_heads, bias,
      attn_bias_type, attn_drop)]; [u] and [u'] are the draws for the
      default initialisation of the projections and for
      [reset_parameters]. *)
Definition init (feat_size num_heads : Z) (bias : bool)
      (attn_bias_type : string) (attn_drop : R) (u u' : nat → nat → R)
      : result t :=
    if (num_heads =? 0)%Z then Raise ZeroDivisionError
    else
      let head_dim := (feat_size / num_heads)%Z in
      if negb (head_dim * num_heads =? feat_size)%Z then Raise AssertionError
      else
        scaling ← pow_neg_half head_dim;
        q ← Linear.init feat_size feat_size bias (u 0) (u 1);
        k ← Linear.init feat_size feat_size bias (u 2) (u 3);
        v ← Linear.init feat_size feat_size bias (u 4) (u 5);
        o ← Linear.init feat_size feat_size bias (u 6) (u 7);
        d ← Dropout.init attn_drop;
        reset_parameters
          (Build feat_size num_heads head_dim scaling attn_bias_type q k v o d) u'.

Section forward.

Variable reshape_is_view : handle → list nat → bool.
Variable to_bool_is_noop : handle → bool.

Local Abbreviation reshape_h := (reshape_h reshape_is_view).
Local Abbreviation to_bool_h := (to_bool_h to_bool_is_noop).

    (** The first part of [forward], up to the softmax: the attention
        probabilities, of shape [bsz * num_heads; N; N], with the value
        heads [v_h] and the sizes [bsz] and [N] the second part uses. *)
Definition attention (self : t) (ndata : handle)
        (attn_bias attn_mask : option handle) : M (handle * handle * nat * nat) :=
      q ← linear_h (q_proj self) ndata;
      q_h ← transpose_h q 0 1;
      k ← linear_h (k_proj self) ndata;
      k_h ← transpose_h k 0 1;
      v ← linear_h (v_proj self) ndata;
      v_h ← transpose_h v 0 1;
      '(bsz, N) ← lift (unpack3 (shape (view ndata)));
      let heads := [Z.of_nat N; (Z.of_nat bsz * num_heads self)%Z; head_dim self] in
      q_h ← reshape_h q_h heads;
      q_h ← transpose_h q_h 0 1;
      q_h ← div_pynum_h q_h (scaling self);
      k_h ← reshape_h k_h heads;
      k_h ← permute_h k_h [1; 2; 0];
      v_h ← reshape_h v_h heads;
      v_h ← transpose_h v_h 0 1;
      w ← bmm_h q_h k_h;
      w ← transpose_h w 0 2;
      w ← reshape_h w [Z.of_nat N; Z.of_nat N; Z.of_nat bsz; num_heads self];
      attn_weights ← transpose_h w 0 2;
      match attn_bias with
      | Some b =>
          if String.eqb (attn_bias_type self) "add"
          then inplace_h fadd attn_weights b
          else inplace_h fmul attn_weights b
      | None => mret tt
      end;;
      match attn_mask with
      | Some mask =>
          mask ← to_bool_h mask;
          setitem_mask_h attn_weights mask NInf
      | None => mret tt
      end;;
      w ← transpose_h attn_weights 0 2;
      w ← reshape_h w [Z.of_nat N; Z.of_nat N; (Z.of_nat bsz * num_heads self)%Z];
      w ← transpose_h w 0 2;
      attn_weights ← softmax_h w 2;
      mret (attn_weights, v_h, bsz, N).

    (** [self(ndata, attn_bias, attn_mask)]; [keep] is the random mask
        the dropout layer draws in this call. *)
Definition forward (self : t) (keep : nat → bool) (ndata : handle)
        (attn_bias attn_mask : option handle) : M handle :=
      '(attn_weights, v_h, bsz, N) ← attention self ndata attn_bias attn_mask;
      attn_weights ← dropout_h (dropout self) keep attn_weights;
      attn ← bmm_h attn_weights v_h;
      attn ← transpose_h attn 0 1;
      attn ← reshape_h attn [Z.of_nat N; Z.of_nat bsz; feat_size self];
      attn ← transpose_h attn 0 1;
      linear_h (out_proj self) attn.

End forward.

End BiasedMultiheadAttention.

(** ** The values the attention module computes

    The same program on tensor values, without the store: what each
    tensor of [forward] holds.  The in-place updates rebind
    [attn_weights]. *)

Definition updated (x : tensor fnum) (vals : list fnum) : tensor fnum :=
  Tensor (shape x) vals.

Definition attention_val (self : BiasedMultiheadAttention.t) (ndata : tensor fnum)
    (attn_bias attn_mask : option (tensor fnum))
    : result (tensor fnum * tensor fnum * nat * nat) :=
  let num_heads := BiasedMultiheadAttention.num_heads self in
  q ← Linear.forward (BiasedMultiheadAttention.q_proj self) ndata;
  q_h ← transpose q 0 1;
  k ← Linear.forward (BiasedMultiheadAttention.k_proj self) ndata;
  k_h ← transpose k 0 1;
  v ← Linear.forward (BiasedMultiheadAttention.v_proj self) ndata;
  v_h ← transpose v 0 1;
  '(bsz, N) ← unpack3 (shape ndata);
  let heads := [Z.of_nat N; (Z.of_nat bsz * num_heads)%Z;
                BiasedMultiheadAttention.head_dim self] in
  q_h ← reshape q_h heads;
  q_h ← transpose q_h 0 1;
  q_h ← div_pynum q_h (BiasedMultiheadAttention.scaling self);
  k_h ← reshape k_h heads;
  k_h ← permute k_h [1; 2; 0];
  v_h ← reshape v_h heads;
  v_h ← transpose v_h 0 1;
  w ← bmm q_h k_h;
  w ← transpose w 0 2;
  w ← reshape w [Z.of_nat N; Z.of_nat N; Z.of_nat bsz; num_heads];
  attn_weights ← transpose w 0 2;
  attn_weights ←
    match attn_bias with
    | Some b =>
        updated attn_weights <$>
          (if String.eqb (BiasedMultiheadAttention.attn_bias_type self) "add"
           then inplace_binop fadd attn_weights b
           else inplace_binop fmul attn_weights b)
    | None => Ok attn_weights
    end;
  attn_weights ←
    match attn_mask with
    | Some mask => updated attn_weights <$> masked_fill attn_weights (to_bool mask) NInf
    | None => Ok attn_weights
    end;
  w ← transpose attn_weights 0 2;
  w ← reshape w [Z.of_nat N; Z.of_nat N; (Z.of_nat bsz * num_heads)%Z];
  w ← transpose w 0 2;
  attn_weights ← softmax w 2;
  Ok (attn_weights, v_h, bsz, N).

Definition forward_val (self : BiasedMultiheadAttention.t) (keep : nat → bool)
    (ndata : tensor fnum) (attn_bias attn_mask : option (tensor fnum))
    : result (tensor fnum) :=
  '(attn_weights, v_h, bsz, N) ← attention_val self ndata attn_bias attn_mask;
  let attn_weights :=
    Dropout.forward (BiasedMultiheadAttention.dropout self) keep attn_weights in
  attn ← bmm attn_weights v_h;
  attn ← transpose attn 0 1;
  attn ← reshape attn [Z.of_nat N; Z.of_nat bsz; BiasedMultiheadAttention.feat_size self];
  attn ← transpose attn 0 1;
  Linear.forward (BiasedMultiheadAttention.out_proj self) attn.

(** ** Standard multi-head attention

    Scaled dot-product multi-head attention as the documentation of the
    module states it, [softmax(Q K^T / sqrt d)], written from the
    description and not from the code: the query of every head is scaled
    by [1 / sqrt head_dim], the scores of a query are its dot products
    with the keys of the same batch element and head, the softmax runs
    over the keys, the heads are concatenated and projected.  It is the
    reference [forward] is compared with when no bias and no mask are
    given and dropout is off. *)
Definition standard_attention (self : BiasedMultiheadAttention.t)
    (x : tensor fnum) : result (tensor fnum) :=
  q ← Linear.forward (BiasedMultiheadAttention.q_proj self) x;
  k ← Linear.forward (BiasedMultiheadAttention.k_proj self) x;
  v ← Linear.forward (BiasedMultiheadAttention.v_proj self) x;
  '(bsz, n) ← unpack3 (shape x);
  let h := Z.to_nat (BiasedMultiheadAttention.num_heads self) in
  let hd := Z.to_nat (BiasedMultiheadAttention.head_dim self) in
  let f := h * hd in
  let el (t : tensor fnum) b i c := data t !!! ((b * n + i) * f + c) in
  let scale := Fin (/ sqrt (INR hd)) in
  let score b hh i j :=
    fsum ((λ c, fmul (fmul (el q b i (hh * hd + c)) scale) (el k b j (hh * hd + c)))
            <$> seq 0 hd) in
  let prob b hh i := softmax_row ((λ j, score b hh i j) <$> seq 0 n) in
  let head b hh i c :=
    fsum ((λ j, fmul (prob b hh i !!! j) (el v b j (hh * hd + c))) <$> seq 0 n) in
  let attn :=
    Tensor [bsz; n; f]
      ((λ o, let b := o / (n * f) in
             let i := o / f mod n in
             let c := o mod f in
             head b (c / hd) i (c mod hd))
         <$> seq 0 (bsz * n * f)) in
  Linear.forward (BiasedMultiheadAttention.out_proj self) attn.

(** * Properties *)

(** ** Row-major indexing *)

Lemma numel_app sh1 sh2 : numel (sh1 ++ sh2) = numel sh1 * numel sh2.
Proof. induction sh1 as [|a sh1 IH]; simpl; [lia|]. rewrite IH. lia. Qed.

Lemma unravel_length sh k : length (unravel sh k) = length sh.
Proof. revert k. induction sh as [|n sh IH]; intros k; simpl; auto. Qed.

Lemma strides_length sh : length (strides sh) = length sh.
Proof. induction sh; simpl; auto. Qed.

Lemma dot_cons i idx s st : dot (i :: idx) (s :: st) = i * s + dot idx st.
Proof. reflexivity. Qed.

(** Unravelling a position and taking the offset under the contiguous
    strides gives the position back. *)
Lemma ravel_unravel sh k : k < numel sh → ravel sh (unravel sh k) = k.
Proof.
  unfold ravel. revert k. induction sh as [|n sh IH]; intros k Hk; simpl in *.
  - unfold dot. simpl. lia.
  - rewrite dot_cons.
    assert (numel sh ≠ 0) by (intros E; rewrite E in Hk; lia).
    rewrite IH by (apply Nat.mod_upper_bound; done).
    pose proof (Nat.div_mod k (numel sh)). lia.
Qed.

Lemma ravel_lt sh idx : Forall2 lt idx sh → ravel sh idx < numel sh.
Proof.
  unfold ravel. induction 1 as [|i n idx sh Hi _ IH]; simpl.
  - unfold dot. simpl. lia.
  - rewrite dot_cons. nia.
Qed.

Lemma unravel_ravel sh idx : Forall2 lt idx sh → unravel sh (ravel sh idx) = idx.
Proof.
  unfold ravel. induction 1 as [|i n idx sh Hi Hrest IH]; simpl; [done|].
  rewrite dot_cons. pose proof (ravel_lt _ _ Hrest) as Hlt. unfold ravel in Hlt.
  f_equal.
  - rewrite Nat.div_add_l by lia. rewrite Nat.div_small by done. lia.
  - rewrite Nat.add_comm, Nat.Div0.mod_add, Nat.mod_small by done. done.
Qed.

Lemma gather_strided_length {A} `{Inhabited A} sizes st (d : list A) :
  length (gather_strided sizes st d) = numel sizes.
Proof. unfold gather_strided. by rewrite length_fmap, length_seq. Qed.

Lemma gather_strided_lookup {A} `{Inhabited A} sizes st (d : list A) k :
  k < numel sizes →
  gather_strided sizes st d !! k = Some (d !!! dot (unravel sizes k) st).
Proof.
  intros Hk. unfold gather_strided.
  by rewrite list_lookup_fmap, lookup_seq_lt.
Qed.

(** Element at a multi-index of a strided view. *)
Lemma gather_strided_at {A} `{Inhabited A} sizes st (d : list A) idx :
  Forall2 lt idx sizes →
  gather_strided sizes st d !!! ravel sizes idx = d !!! dot idx st.
Proof.
  intros Hidx. apply list_lookup_total_correct.
  rewrite gather_strided_lookup by by apply ravel_lt.
  by rewrite unravel_ravel.
Qed.

Lemma fmap_lookup_total_seq {A} `{Inhabited A} (d : list A) :
  (λ k, d !!! k) <$> seq 0 (length d) = d.
Proof.
  apply list_eq. intros i. rewrite list_lookup_fmap.
  destruct (decide (i < length d)) as [Hi|Hi].
  - rewrite lookup_seq_lt by done. simpl.
    destruct (lookup_lt_is_Some_2 d i Hi) as [x Hx].
    by rewrite (list_lookup_total_correct _ _ _ Hx).
  - rewrite lookup_seq_ge, lookup_ge_None_2 by lia. done.
Qed.

(** The contiguous view of a well-formed buffer is the buffer. *)
Lemma gather_strided_id {A} `{Inhabited A} sh (d : list A) :
  length d = numel sh → gather_strided sh (strides sh) d = d.
Proof.
  intros Hlen. unfold gather_strided. rewrite <- Hlen.
  etrans; [|apply (fmap_lookup_total_seq d)].
  apply list_fmap_ext. intros i k Hik.
  apply lookup_seq in Hik as [-> Hlt]. simpl.
  f_equal. apply ravel_unravel. lia.
Qed.

(** ** Broadcasting to the same shape *)

Lemma expand_rev_same rs rst :
  length rst = length rs → expand_rev rs rst rs = Some rst.
Proof.
  revert rst. induction rs as [|s rs IH]; intros [|st rst] Hlen; simplify_eq/=; [done|].
  rewrite Nat.eqb_refl. by rewrite IH.
Qed.

Lemma expand_strides_same sh : expand_strides sh sh = Some (strides sh).
Proof.
  unfold expand_strides. rewrite expand_rev_same.
  - simpl. by rewrite reverse_involutive.
  - by rewrite !length_reverse, strides_length.
Qed.

Lemma expand_same {A} `{Inhabited A} (t : tensor A) :
  wf_tensor t → expand t (shape t) = Some t.
Proof.
  intros Hwf. unfold expand. rewrite expand_strides_same. simpl.
  rewrite gather_strided_id by done. by destruct t.
Qed.

Lemma broadcast_rev_same r : broadcast_rev r r = Some r.
Proof. induction r as [|a r IH]; simpl; [done|]. by rewrite Nat.eqb_refl, IH. Qed.

Lemma broadcast_shapes_same sh : broadcast_shapes sh sh = Some sh.
Proof.
  unfold broadcast_shapes. rewrite broadcast_rev_same. simpl.
  by rewrite reverse_involutive.
Qed.

(** On operands of one shape a binary operation is elementwise. *)
Lemma binop_same_shape {A} `{Inhabited A} (f : A → A → A) (x y : tensor A) :
  wf_tensor x → wf_tensor y → shape x = shape y →
  binop f x y = Ok (Tensor (shape x) (zip_with f (data x) (data y))).
Proof.
  intros Hx Hy Hsh. unfold binop. rewrite <- Hsh, broadcast_shapes_same.
  rewrite (expand_same x) by done. rewrite Hsh, (expand_same y) by done.
  done.
Qed.

Lemma inplace_binop_same_shape {A} `{Inhabited A} (f : A → A → A) (x y : tensor A) :
  wf_tensor y → shape y = shape x →
  inplace_binop f x y = Ok (zip_with f (data x) (data y)).
Proof.
  intros Hy Hsh. unfold inplace_binop. rewrite <- Hsh.
  by rewrite (expand_same y).
Qed.

(** ** Embedding tables *)

Lemma mapM_result_fmap {A B} (f : A → result B) (g : A → B) (l : list A) :
  Forall (λ x, f x = Ok (g x)) l → mapM f l = Ok (g <$> l).
Proof.
  induction 1 as [|x l Hx _ IH]; simpl; [done|].
  rewrite Hx. simpl. rewrite IH. done.
Qed.

(** A failing lookup fails with the error of the first failing index. *)
Lemma mapM_result_raise {A B} (f : A → result B) (l : list A) e :
  mapM f l = Raise e → Exists (λ x, f x = Raise e) l.
Proof.
  induction l as [|x l IH]; simpl; [done|].
  destruct (f x) as [y|e'] eqn:Hx; simpl.
  - destruct (mapM f l) as [k|e'']; simpl; [done|].
    intros [= ->]. right. by apply IH.
  - intros [= ->]. by left.
Qed.

(** Row [i] of a table whose rows have [d] entries. *)
Definition table_row (w : tensor fnum) (d : nat) (i : Z) : list fnum :=
  take d (drop (Z.to_nat i * d) (data w)).

Lemma table_row_length w n d i :
  shape w = [n; d] → wf_tensor w → (0 ≤ i < Z.of_nat n)%Z →
  length (table_row w d i) = d.
Proof.
  unfold wf_tensor, table_row. intros -> Hwf Hi. simpl in Hwf.
  rewrite length_take, length_drop. nia.
Qed.

Lemma table_row_lookup w n d i j :
  shape w = [n; d] → j < d →
  table_row w d i !! j = data w !! (Z.to_nat i * d + j).
Proof.
  intros _ Hj. unfold table_row.
  rewrite lookup_take_lt by done. by rewrite lookup_drop.
Qed.

(** A lookup with every index inside the table returns the rows. *)
Lemma embedding_forward_ok (e : Embedding.t) (idx : tensor Z) n d :
  shape (Embedding.weight e) = [n; d] →
  Forall (λ i, 0 ≤ i < Z.of_nat n)%Z (data idx) →
  Embedding.forward e idx
  = Ok (Tensor (shape idx ++ [d])
          (mjoin (table_row (Embedding.weight e) d <$> data idx))).
Proof.
  intros Hsh Hidx. unfold Embedding.forward. rewrite Hsh.
  rewrite (mapM_result_fmap _ (table_row (Embedding.weight e) d)); [done|].
  eapply Forall_impl; [exact Hidx|]. intros i Hi. simpl in Hi.
  destruct (Z.leb_spec 0 i); [|lia].
  destruct (Z.ltb_spec i (Z.of_nat n)); [|lia]. done.
Qed.

(** A lookup raises nothing but [IndexError] or [RuntimeError]. *)
Lemma embedding_forward_raise (e : Embedding.t) (idx : tensor Z) err :
  Embedding.forward e idx = Raise err → err = IndexError ∨ err = RuntimeError.
Proof.
  unfold Embedding.forward.
  destruct (shape (Embedding.weight e)) as [|n [|d [|? ?]]]; try (intros [= <-]; by right).
  destruct (mapM _ _) as [rows|e'] eqn:Hm; simpl; [done|].
  intros [= ->]. apply mapM_result_raise in Hm.
  apply Exists_exists in Hm as (i & _ & Hi).
  destruct (_ && _); [done|]. injection Hi as <-. by left.
Qed.

(** The table [nn.Embedding(n, d, padding_idx=0)] starts with. *)
Definition fresh_table (n d : Z) (u : nat → R) : tensor fnum :=
  Tensor [Z.to_nat n; Z.to_nat d]
    (imap (λ k a, if k / numel [Z.to_nat d] =? 0 then Fin 0 else a)
          (data (normal_ [Z.to_nat n; Z.to_nat d] u))).

Lemma embedding_init_spec n d u :
  Embedding.init n d 0 u
  = if bool_decide (0 < n ∧ 0 ≤ d)%Z
    then Ok (Embedding.Build n d 0 (fresh_table n d u))
    else if bool_decide (n < 0 ∨ d < 0)%Z then Raise RuntimeError
    else Raise IndexError.
Proof.
  unfold Embedding.init, torch_empty. simpl.
  case_bool_decide as Hneg.
  - rewrite bool_decide_false, bool_decide_true; [done| |].
    + apply Exists_cons in Hneg as [?|Hneg]; [lia|].
      apply Exists_cons in Hneg as [?|Hneg]; [lia|]. by apply Exists_nil in Hneg.
    + apply Exists_cons in Hneg as [?|Hneg]; [lia|].
      apply Exists_cons in Hneg as [?|Hneg]; [lia|]. by apply Exists_nil in Hneg.
  - assert (0 ≤ n ∧ 0 ≤ d)%Z as [Hn Hd].
    { split; apply Z.nlt_ge; intros ?; apply Hneg.
      - by left.
      - right. by left. }
    simpl. unfold fill_row. simpl.
    destruct (Z.ltb_spec 0 (Z.of_nat (Z.to_nat n))).
    + rewrite bool_decide_true by lia. done.
    + rewrite bool_decide_false, bool_decide_false by lia. done.
Qed.

Lemma fresh_table_wf n d u : wf_tensor (fresh_table n d u).
Proof.
  unfold wf_tensor, fresh_table. simpl.
  rewrite length_imap, length_fmap, length_seq. done.
Qed.

(** Row 0 of a fresh table holds zeros only. *)
Lemma fresh_table_row0 n d u j :
  (0 < n)%Z → j < Z.to_nat d →
  table_row (fresh_table n d u) (Z.to_nat d) 0 !! j = Some (Fin 0).
Proof.
  intros Hn Hj. rewrite (table_row_lookup _ (Z.to_nat n)) by done.
  unfold fresh_table. simpl. rewrite list_lookup_imap.
  rewrite list_lookup_fmap, lookup_seq_lt by nia. simpl.
  rewrite Nat.mul_1_r, Nat.div_small by done. done.
Qed.

(** ** DegreeEncoder *)

(** What a successful construction leaves in the instance. *)
Lemma degree_encoder_init_inv md dim dir u1 u2 m :
  DegreeEncoder.init md dim dir u1 u2 = Ok m →
  (0 ≤ md)%Z ∧ (0 ≤ dim)%Z ∧
  m = if String.eqb dir "both"
      then DegreeEncoder.Build dir None
             (Some (Embedding.Build (md + 1) dim 0 (fresh_table (md + 1) dim u1)))
             (Some (Embedding.Build (md + 1) dim 0 (fresh_table (md + 1) dim u2))) md
      else DegreeEncoder.Build dir
             (Some (Embedding.Build (md + 1) dim 0 (fresh_table (md + 1) dim u1)))
             None None md.
Proof.
  unfold DegreeEncoder.init. rewrite !embedding_init_spec.
  case_bool_decide as Hok.
  - destruct (String.eqb dir "both"); simpl; intros [= <-]; repeat split; lia.
  - destruct (String.eqb dir "both"); simpl; repeat case_bool_decide; done.
Qed.


Lemma clamp_bounds (t : tensor Z) (hi : Z) :
  (0 ≤ hi)%Z → Forall (λ d, 0 ≤ d ≤ hi)%Z (data (clamp t 0 hi)).
Proof.
  intros Hhi. unfold clamp. simpl. apply Forall_fmap, Forall_true.
  intros x. simpl. lia.
Qed.

Lemma clamp_shape (t : tensor Z) lo hi : shape (clamp t lo hi) = shape t.
Proof. done. Qed.

Lemma in_degree_length m g :
  length (data (DegreeEncoder.in_degree m g)) = num_nodes (DegreeEncoder.homogeneous g).
Proof.
  unfold DegreeEncoder.in_degree, clamp, in_degrees. simpl.
  by rewrite !length_fmap, length_seq.
Qed.

Lemma out_degree_length m g :
  length (data (DegreeEncoder.out_degree m g)) = num_nodes (DegreeEncoder.homogeneous g).
Proof.
  unfold DegreeEncoder.out_degree, clamp, out_degrees. simpl.
  by rewrite !length_fmap, length_seq.
Qed.

(** Lookup of clamped degrees in a table with [md + 1] rows. *)
Lemma lookup_clamped (e : Embedding.t) (t : tensor Z) md d :
  (0 ≤ md)%Z →
  shape (Embedding.weight e) = [Z.to_nat (md + 1); d] →
  Embedding.forward e (clamp t 0 md)
  = Ok (Tensor (shape t ++ [d])
          (mjoin (table_row (Embedding.weight e) d <$> data (clamp t 0 md)))).
Proof.
  intros Hmd Hsh. erewrite embedding_forward_ok; [done|exact Hsh|].
  eapply Forall_impl; [by apply clamp_bounds|]. intros x Hx. simpl in Hx. lia.
Qed.

Lemma rows_same_length (w : tensor fnum) n d (idx : list Z) :
  shape w = [n; d] → wf_tensor w → Forall (λ i, 0 ≤ i < Z.of_nat n)%Z idx →
  Forall (λ l, length l = d) (table_row w d <$> idx).
Proof.
  intros Hsh Hwf Hidx. apply Forall_fmap. eapply Forall_impl; [exact Hidx|].
  intros i Hi. simpl. by eapply table_row_length.
Qed.

Lemma rows_wf (w : tensor fnum) n d (idx : tensor Z) :
  shape w = [n; d] → wf_tensor w → wf_tensor idx →
  Forall (λ i, 0 ≤ i < Z.of_nat n)%Z (data idx) →
  wf_tensor (Tensor (shape idx ++ [d]) (mjoin (table_row w d <$> data idx))).
Proof.
  intros Hsh Hwf Hidx Hin. unfold wf_tensor in *. simpl.
  rewrite length_join.
  rewrite (sum_list_fmap_same d).
  - rewrite length_fmap, Hidx, numel_app. simpl. lia.
  - by eapply rows_same_length.
Qed.

(** Entry [j] of output row [v] is entry [j] of the table row selected
    by the [v]-th index. *)
Lemma rows_lookup (w : tensor fnum) n d (idx : list Z) v i j :
  shape w = [n; d] → wf_tensor w → Forall (λ i, 0 ≤ i < Z.of_nat n)%Z idx →
  idx !! v = Some i → j < d →
  mjoin (table_row w d <$> idx) !! (v * d + j) = table_row w d i !! j.
Proof.
  intros Hsh Hwf Hidx Hv Hj.
  assert (Z.to_nat i * d + j < length (data w)) as Hlt.
  { eapply Forall_lookup_1 in Hidx; [|exact Hv]. simpl in Hidx.
    unfold wf_tensor in Hwf. rewrite Hwf, Hsh. simpl. nia. }
  destruct (lookup_lt_is_Some_2 _ _ Hlt) as [x Hx].
  rewrite (table_row_lookup _ n) by done. rewrite Hx.
  apply (join_lookup_Some_same_length' d); [by eapply rows_same_length|done|].
  exists (table_row w d i). split.
  - by rewrite list_lookup_fmap, Hv.
  - by rewrite (table_row_lookup _ n).
Qed.

Lemma mapM_result_ok_inv {A B} (f : A → result B) (l : list A) k :
  mapM f l = Ok k → Forall (λ x, ∃ y, f x = Ok y) l.
Proof.
  revert k. induction l as [|x l IH]; intros k; simpl; [by constructor|].
  destruct (f x) as [y|e] eqn:Hx; simpl; [|done].
  destruct (mapM f l) as [k'|e]; simpl; [|done].
  intros _. constructor; eauto.
Qed.

(** A lookup that returns had every index inside the table. *)
Lemma embedding_forward_inv (e : Embedding.t) (idx : tensor Z) out n d :
  shape (Embedding.weight e) = [n; d] →
  Embedding.forward e idx = Ok out →
  Forall (λ i, 0 ≤ i < Z.of_nat n)%Z (data idx).
Proof.
  intros Hsh. unfold Embedding.forward. rewrite Hsh.
  destruct (mapM _ _) as [rows|e'] eqn:Hm; simpl; [|done].
  intros _. apply mapM_result_ok_inv in Hm.
  eapply Forall_impl; [exact Hm|]. intros i [y Hy]. simpl in *.
  destruct (Z.leb_spec 0 i); [|done].
  destruct (Z.ltb_spec i (Z.of_nat n)); [|done]. lia.
Qed.

Lemma binop_raise {A} `{Inhabited A} (f : A → A → A) x y e :
  binop f x y = Raise e → e = RuntimeError.
Proof.
  unfold binop. destruct (broadcast_shapes _ _) as [sh|]; [|congruence].
  destruct (expand x sh), (expand y sh); congruence.
Qed.

Lemma in_degree_wf m g : wf_tensor (DegreeEncoder.in_degree m g).
Proof.
  unfold wf_tensor. rewrite in_degree_length.
  unfold DegreeEncoder.in_degree. simpl. lia.
Qed.

Lemma out_degree_wf m g : wf_tensor (DegreeEncoder.out_degree m g).
Proof.
  unfold wf_tensor. rewrite out_degree_length.
  unfold DegreeEncoder.out_degree. simpl. lia.
Qed.

(** The three instances that share the tables [e1] (in-degrees) and [e2]
    (out-degrees). *)
Definition encoder_both (md : Z) (e1 e2 : Embedding.t) : DegreeEncoder.t :=
  DegreeEncoder.Build "both" None (Some e1) (Some e2) md.
Definition encoder_in (md : Z) (e1 : Embedding.t) : DegreeEncoder.t :=
  DegreeEncoder.Build "in" (Some e1) None None md.
Definition encoder_out (md : Z) (e2 : Embedding.t) : DegreeEncoder.t :=
  DegreeEncoder.Build "out" (Some e2) None None md.

(** C4. With the same tables, the encoder for direction "both" returns
    the elementwise sum of what the encoders for "in" and for "out"
    return on the same graph; when one of the two raises, "both" raises
    the same exception. *)
Theorem degree_encoder_both_is_sum (md : Z) (e1 e2 : Embedding.t)
    (g : DGLGraph) (n d : nat) :
  shape (Embedding.weight e1) = [n; d] →
  shape (Embedding.weight e2) = [n; d] →
  wf_tensor (Embedding.weight e1) →
  wf_tensor (Embedding.weight e2) →
  match DegreeEncoder.forward (encoder_in md e1) g,
        DegreeEncoder.forward (encoder_out md e2) g with
  | Ok a, Ok b =>
      shape a = shape b ∧
      DegreeEncoder.forward (encoder_both md e1 e2) g
      = Ok (Tensor (shape a) (zip_with fadd (data a) (data b)))
  | Ok _, Raise e | Raise e, _ =>
      DegreeEncoder.forward (encoder_both md e1 e2) g = Raise e
  end.
Proof.
  intros Hsh1 Hsh2 Hwf1 Hwf2.
  unfold DegreeEncoder.forward, encoder_in, encoder_out, encoder_both. simpl.
  destruct (Embedding.forward e1 _) as [a|err] eqn:Ha; simpl; [|done].
  destruct (Embedding.forward e2 _) as [b|err] eqn:Hb; simpl; [|done].
  pose proof (embedding_forward_inv _ _ _ _ _ Hsh1 Ha) as Hin1.
  pose proof (embedding_forward_inv _ _ _ _ _ Hsh2 Hb) as Hin2.
  rewrite (embedding_forward_ok _ _ _ _ Hsh1 Hin1) in Ha.
  rewrite (embedding_forward_ok _ _ _ _ Hsh2 Hin2) in Hb.
  injection Ha as <-. injection Hb as <-.
  split; [done|].
  rewrite binop_same_shape; [done| | |done].
  - apply (rows_wf _ n d (DegreeEncoder.in_degree (encoder_in md e1) g));
      [done|done|apply in_degree_wf|done].
  - apply (rows_wf _ n d (DegreeEncoder.out_degree (encoder_out md e2) g));
      [done|done|apply out_degree_wf|done].
Qed.

(** The graph of the docstring example,
    [dgl.graph(([0,0,0,1,1,2,3,3], [1,2,3,0,3,0,0,1]))]. *)
Definition example_graph : DGLGraph :=
  Graph [("_N"%string, 4)]
    [EdgeType 0 "_E" 0 [(0,1); (0,2); (0,3); (1,0); (1,3); (2,0); (3,0); (3,1)]].

Definition example_table (u : nat → R) : Embedding.t :=
  Embedding.Build 3 2 0 (fresh_table 3 2 u).

Lemma degree_encoder_both_is_sum_witness :
  match DegreeEncoder.forward (encoder_in 2 (example_table INR)) example_graph,
        DegreeEncoder.forward (encoder_out 2 (example_table (λ _, 1%R))) example_graph with
  | Ok a, Ok b =>
      shape a = shape b ∧
      DegreeEncoder.forward
        (encoder_both 2 (example_table INR) (example_table (λ _, 1%R))) example_graph
      = Ok (Tensor (shape a) (zip_with fadd (data a) (data b)))
  | Ok _, Raise e | Raise e, _ =>
      DegreeEncoder.forward
        (encoder_both 2 (example_table INR) (example_table (λ _, 1%R))) example_graph
      = Raise e
  end.
Proof.
  apply (degree_encoder_both_is_sum 2 (example_table INR)
           (example_table (λ _, 1%R)) example_graph 3 2);
    reflexivity.
Defined.

(** The tables an instance holds. *)
Definition tables (m : DegreeEncoder.t) : list Embedding.t :=
  omap (λ o, o) [DegreeEncoder.degree_encoder m;
                 DegreeEncoder.degree_encoder_1 m;
                 DegreeEncoder.degree_encoder_2 m].

(** The rows a table returns for an index tensor. *)
Definition lookup_rows (e : Embedding.t) (d : nat) (idx : tensor Z) : tensor fnum :=
  Tensor (shape idx ++ [d]) (mjoin (table_row (Embedding.weight e) d <$> data idx)).

Section forward_by_direction.
Context (m : DegreeEncoder.t) (g : DGLGraph) (d : nat).
Hypothesis Hmd : (0 ≤ DegreeEncoder.max_degree m)%Z.

Let rows := Z.to_nat (DegreeEncoder.max_degree m + 1).

Lemma in_degree_in_table :
    Forall (λ i, 0 ≤ i < Z.of_nat rows)%Z (data (DegreeEncoder.in_degree m g)).
  Proof.
    eapply Forall_impl; [by apply clamp_bounds|].
    intros x Hx. simpl in Hx. unfold rows. lia.
  Qed.

Lemma out_degree_in_table :
    Forall (λ i, 0 ≤ i < Z.of_nat rows)%Z (data (DegreeEncoder.out_degree m g)).
  Proof.
    eapply Forall_impl; [by apply clamp_bounds|].
    intros x Hx. simpl in Hx. unfold rows. lia.
  Qed.

Lemma degree_encoder_forward_in e :
    DegreeEncoder.direction m = "in"%string →
    DegreeEncoder.degree_encoder m = Some e →
    shape (Embedding.weight e) = [rows; d] →
    DegreeEncoder.forward m g = Ok (lookup_rows e d (DegreeEncoder.in_degree m g)).
  Proof.
    intros Hdir He Hsh. unfold DegreeEncoder.forward. rewrite Hdir, He. simpl.
    by rewrite (embedding_forward_ok _ _ _ _ Hsh in_degree_in_table).
  Qed.

Lemma degree_encoder_forward_out e :
    DegreeEncoder.direction m = "out"%string →
    DegreeEncoder.degree_encoder m = Some e →
    shape (Embedding.weight e) = [rows; d] →
    DegreeEncoder.forward m g = Ok (lookup_rows e d (DegreeEncoder.out_degree m g)).
  Proof.
    intros Hdir He Hsh. unfold DegreeEncoder.forward. rewrite Hdir, He. simpl.
    by rewrite (embedding_forward_ok _ _ _ _ Hsh out_degree_in_table).
  Qed.

Lemma degree_encoder_forward_both e1 e2 :
    DegreeEncoder.direction m = "both"%string →
    DegreeEncoder.degree_encoder_1 m = Some e1 →
    DegreeEncoder.degree_encoder_2 m = Some e2 →
    shape (Embedding.weight e1) = [rows; d] →
    shape (Embedding.weight e2) = [rows; d] →
    wf_tensor (Embedding.weight e1) →
    wf_tensor (Embedding.weight e2) →
    DegreeEncoder.forward m g
    = Ok (Tensor [num_nodes (DegreeEncoder.homogeneous g); d]
            (zip_with fadd
               (data (lookup_rows e1 d (DegreeEncoder.in_degree m g)))
               (data (lookup_rows e2 d (DegreeEncoder.out_degree m g))))).
  Proof.
    intros Hdir He1 He2 Hsh1 Hsh2 Hwf1 Hwf2.
    unfold DegreeEncoder.forward. rewrite Hdir, He1, He2. simpl.
    rewrite (embedding_forward_ok _ _ _ _ Hsh1 in_degree_in_table). simpl.
    rewrite (embedding_forward_ok _ _ _ _ Hsh2 out_degree_in_table). simpl.
    rewrite binop_same_shape; [done| | |done].
    - apply (rows_wf _ rows d (DegreeEncoder.in_degree m g));
        [done|done|apply in_degree_wf|apply in_degree_in_table].
    - apply (rows_wf _ rows d (DegreeEncoder.out_degree m g));
        [done|done|apply out_degree_wf|apply out_degree_in_table].
  Qed.

End forward_by_direction.

(** In a fresh table, the row looked up for a node whose index is 0 holds
    zeros only. *)
Lemma fresh_rows_zero md dim u (idx : tensor Z) v j :
  (0 ≤ md)%Z →
  Forall (λ i, 0 ≤ i < Z.of_nat (Z.to_nat (md + 1)))%Z (data idx) →
  data idx !! v = Some 0%Z → j < Z.to_nat dim →
  data (lookup_rows (Embedding.Build (md + 1) dim 0 (fresh_table (md + 1) dim u))
          (Z.to_nat dim) idx) !! (v * Z.to_nat dim + j) = Some (Fin 0).
Proof.
  intros Hmd Hin Hv Hj. unfold lookup_rows. cbn [data Embedding.weight].
  rewrite (rows_lookup _ (Z.to_nat (md + 1)) _ _ v 0%Z);
    [|done|apply fresh_table_wf|done|done|done].
  apply fresh_table_row0; [lia|done].
Qed.

(** [forward] of a constructed instance returns, unless the direction is
    not recognised. *)
Lemma degree_encoder_forward_constructed md dim dir u1 u2 m g :
  DegreeEncoder.init md dim dir u1 u2 = Ok m →
  (∃ out, DegreeEncoder.forward m g = Ok out) ∨
  DegreeEncoder.forward m g = Raise ValueError.
Proof.
  intros Hinit. apply degree_encoder_init_inv in Hinit as (Hmd & Hdim & ->).
  destruct (String.eqb dir "both") eqn:Hboth.
  { apply String.eqb_eq in Hboth as ->. left. eexists.
    eapply (degree_encoder_forward_both _ _ (Z.to_nat dim)); try done;
      apply fresh_table_wf. }
  destruct (String.eqb dir "in") eqn:Hi.
  { apply String.eqb_eq in Hi as ->. left. eexists.
    by eapply (degree_encoder_forward_in _ _ (Z.to_nat dim)). }
  destruct (String.eqb dir "out") eqn:Ho.
  { apply String.eqb_eq in Ho as ->. left. eexists.
    by eapply (degree_encoder_forward_out _ _ (Z.to_nat dim)). }
  right. unfold DegreeEncoder.forward. simpl. by rewrite Hi, Ho, Hboth.
Qed.

(** C5. In an instance built by the constructor, every degree handed to
    an embedding lookup lies in [0, max_degree], every table has
    [max_degree + 1] rows, and [forward] never raises [IndexError]. *)
Theorem degree_encoder_lookup_in_range md dim dir u1 u2 m g :
  DegreeEncoder.init md dim dir u1 u2 = Ok m →
  Forall (λ d, 0 ≤ d ≤ md)%Z (data (DegreeEncoder.in_degree m g)) ∧
  Forall (λ d, 0 ≤ d ≤ md)%Z (data (DegreeEncoder.out_degree m g)) ∧
  Forall (λ e, ∃ d, shape (Embedding.weight e) = [Z.to_nat (md + 1); d]) (tables m) ∧
  DegreeEncoder.forward m g ≠ Raise IndexError.
Proof.
  intros Hinit.
  pose proof (degree_encoder_forward_constructed _ _ _ _ _ _ g Hinit) as Hfw.
  apply degree_encoder_init_inv in Hinit as (Hmd & Hdim & Hm).
  assert (DegreeEncoder.max_degree m = md) as Hmax
    by (rewrite Hm; by destruct (String.eqb dir "both")).
  split_and!.
  - unfold DegreeEncoder.in_degree. rewrite Hmax. by apply clamp_bounds.
  - unfold DegreeEncoder.out_degree. rewrite Hmax. by apply clamp_bounds.
  - rewrite Hm. destruct (String.eqb dir "both"); unfold tables; simpl;
      repeat constructor; eexists; reflexivity.
  - destruct Hfw as [[out ->]| ->]; done.
Qed.

Lemma degree_encoder_lookup_in_range_witness :
  Forall (λ d, 0 ≤ d ≤ 2)%Z
    (data (DegreeEncoder.in_degree (encoder_both 2 (example_table INR) (example_table INR))
             example_graph)) ∧
  Forall (λ d, 0 ≤ d ≤ 2)%Z
    (data (DegreeEncoder.out_degree (encoder_both 2 (example_table INR) (example_table INR))
             example_graph)) ∧
  Forall (λ e, ∃ d, shape (Embedding.weight e) = [Z.to_nat (2 + 1); d])
    (tables (encoder_both 2 (example_table INR) (example_table INR))) ∧
  DegreeEncoder.forward (encoder_both 2 (example_table INR) (example_table INR))
    example_graph ≠ Raise IndexError.
Proof.
  apply (degree_encoder_lookup_in_range 2 2 "both" INR INR). reflexivity.
Defined.

(** C6. In a freshly constructed encoder with a recognised direction,
    [forward] returns a tensor with one row of [embedding_dim] entries
    per node, and the row of a node whose clamped degree is 0 (in-degree
    for "in", out-degree for "out", both for "both") holds zeros only. *)
Theorem degree_encoder_zero_degree_row md dim dir u1 u2 m g v j :
  DegreeEncoder.init md dim dir u1 u2 = Ok m →
  dir ∈ ["in"; "out"; "both"]%string →
  (dir ≠ "out"%string → data (DegreeEncoder.in_degree m g) !! v = Some 0%Z) →
  (dir ≠ "in"%string → data (DegreeEncoder.out_degree m g) !! v = Some 0%Z) →
  j < Z.to_nat dim →
  ∃ out, DegreeEncoder.forward m g = Ok out ∧
         shape out = [num_nodes (DegreeEncoder.homogeneous g); Z.to_nat dim] ∧
         data out !! (v * Z.to_nat dim + j) = Some (Fin 0).
Proof.
  intros Hinit Hdir Hin Hout Hj.
  apply degree_encoder_init_inv in Hinit as (Hmd & Hdim & ->).
  apply elem_of_cons in Hdir as [->|Hdir].
  { change (String.eqb "in" "both") with false in *. cbv iota in *.
    eexists. split; [by eapply (degree_encoder_forward_in _ _ (Z.to_nat dim))|].
    split; [done|].
    apply fresh_rows_zero; [done|exact (in_degree_in_table (DegreeEncoder.Build _ _ _ _ md) g Hmd)|by apply Hin|done]. }
  apply elem_of_cons in Hdir as [->|Hdir].
  { change (String.eqb "out" "both") with false in *. cbv iota in *.
    eexists. split; [by eapply (degree_encoder_forward_out _ _ (Z.to_nat dim))|].
    split; [done|].
    apply fresh_rows_zero; [done|exact (out_degree_in_table (DegreeEncoder.Build _ _ _ _ md) g Hmd)|by apply Hout|done]. }
  apply list_elem_of_singleton in Hdir as ->.
  change (String.eqb "both" "both") with true in *. cbv iota in *.
  eexists. split.
  { eapply (degree_encoder_forward_both _ _ (Z.to_nat dim)); try done;
      apply fresh_table_wf. }
  split; [done|]. cbn [data].
  apply lookup_zip_with_Some. exists (Fin 0), (Fin 0). split_and!.
  - simpl. by rewrite Rplus_0_l.
  - apply fresh_rows_zero;
      [done|exact (in_degree_in_table (DegreeEncoder.Build _ _ _ _ md) g Hmd)|by apply Hin|done].
  - apply fresh_rows_zero;
      [done|exact (out_degree_in_table (DegreeEncoder.Build _ _ _ _ md) g Hmd)|by apply Hout|done].
Qed.

Lemma degree_encoder_zero_degree_row_witness :
  ∃ out,
    DegreeEncoder.forward
      (encoder_in 2 (example_table INR))
      (Graph [("_N"%string, 3)] [EdgeType 0 "_E" 0 [(0, 1); (2, 1)]]) = Ok out ∧
    shape out = [3; 2] ∧
    data out !! (2 * 2 + 1) = Some (Fin 0).
Proof.
  apply (degree_encoder_zero_degree_row 2 2 "in" INR INR
           (encoder_in 2 (example_table INR))
           (Graph [("_N"%string, 3)] [EdgeType 0 "_E" 0 [(0, 1); (2, 1)]]) 2 1).
  - reflexivity.
  - apply list_elem_of_here.
  - intros _. reflexivity.
  - intros Hne. exfalso. apply Hne. reflexivity.
  - simpl. lia.
Defined.


(** C7. [forward] raises [ValueError] exactly when the direction of the
    instance is none of "in", "out" and "both". *)
Theorem degree_encoder_invalid_direction (m : DegreeEncoder.t) (g : DGLGraph) :
  DegreeEncoder.forward m g = Raise ValueError
  ↔ DegreeEncoder.direction m ∉ ["in"; "out"; "both"]%string.
Proof.
  unfold DegreeEncoder.forward.
  destruct (String.eqb_spec (DegreeEncoder.direction m) "in") as [Hi|Hi].
  { split; [|intros Hn; exfalso; apply Hn; rewrite Hi, !elem_of_cons; tauto].
    destruct (DegreeEncoder.degree_encoder m); simpl; [|done].
    intros Hr. apply embedding_forward_raise in Hr as [|]; done. }
  destruct (String.eqb_spec (DegreeEncoder.direction m) "out") as [Ho|Ho].
  { split; [|intros Hn; exfalso; apply Hn; rewrite Ho, !elem_of_cons; tauto].
    destruct (DegreeEncoder.degree_encoder m); simpl; [|done].
    intros Hr. apply embedding_forward_raise in Hr as [|]; done. }
  destruct (String.eqb_spec (DegreeEncoder.direction m) "both") as [Hb|Hb].
  { split; [|intros Hn; exfalso; apply Hn; rewrite Hb, !elem_of_cons; tauto].
    destruct (DegreeEncoder.degree_encoder_1 m); simpl; [|done].
    destruct (Embedding.forward _ _) as [a|e] eqn:Ha; simpl.
    2:{ intros [= ->]. apply embedding_forward_raise in Ha as [|]; done. }
    destruct (DegreeEncoder.degree_encoder_2 m); simpl; [|done].
    destruct (Embedding.forward _ (DegreeEncoder.out_degree _ _)) as [b|e] eqn:Hbb; simpl.
    2:{ intros [= ->]. apply embedding_forward_raise in Hbb as [|]; done. }
    intros Hr. by apply binop_raise in Hr. }
  split; [intros _|done]. rewrite !elem_of_cons, elem_of_nil. tauto.
Qed.



(** ** Permuted views

    The positions a permuted view shows are the positions of its base,
    each exactly once. *)

Lemma sum_list_Permutation (l k : list nat) : l ≡ₚ k → sum_list l = sum_list k.
Proof. induction 1; simpl; lia. Qed.

Lemma is_perm_spec perm n :
  is_perm perm n = true ↔ length perm = n ∧ NoDup perm ∧ Forall (λ p, p < n) perm.
Proof. unfold is_perm. apply bool_decide_eq_true. Qed.

Lemma is_perm_Permutation perm n : is_perm perm n = true → perm ≡ₚ seq 0 n.
Proof.
  intros (Hlen & Hnd & Hlt)%is_perm_spec.
  apply submseteq_length_Permutation.
  - apply NoDup_submseteq; [done|]. intros p Hp.
    apply elem_of_seq. rewrite Forall_forall in Hlt. specialize (Hlt p Hp). lia.
  - rewrite length_seq. lia.
Qed.

Lemma permute_list_length {A} `{Inhabited A} perm (l : list A) :
  length (permute_list perm l) = length perm.
Proof. unfold permute_list. by rewrite length_fmap. Qed.

Lemma permute_list_lookup {A} `{Inhabited A} perm (l : list A) k p :
  perm !! k = Some p → permute_list perm l !! k = Some (l !!! p).
Proof. intros Hk. unfold permute_list. by rewrite list_lookup_fmap, Hk. Qed.

Lemma zip_with_lookup_total_seq (a b : list nat) n :
  length a = n → length b = n →
  zip_with Nat.mul a b = (λ p, a !!! p * b !!! p) <$> seq 0 n.
Proof.
  intros Ha Hb. apply list_eq. intros i.
  rewrite lookup_zip_with, list_lookup_fmap.
  destruct (decide (i < n)) as [Hi|Hi].
  - rewrite lookup_seq_lt by done. simpl.
    destruct (lookup_lt_is_Some_2 a i) as [x Hx]; [lia|].
    destruct (lookup_lt_is_Some_2 b i) as [y Hy]; [lia|].
    rewrite Hx, Hy. simpl.
    by rewrite (list_lookup_total_correct _ _ _ Hx), (list_lookup_total_correct _ _ _ Hy).
  - rewrite lookup_seq_ge by lia. rewrite (lookup_ge_None_2 a) by lia. done.
Qed.

(** The offset of a multi-index does not depend on the order in which
    the dimensions are listed. *)
Lemma dot_permute perm (a b : list nat) n :
  is_perm perm n = true → length a = n → length b = n →
  dot (permute_list perm a) (permute_list perm b) = dot a b.
Proof.
  intros Hperm Ha Hb. unfold dot, permute_list.
  rewrite zip_with_fmap_l, zip_with_fmap_r, zip_with_diag.
  rewrite (zip_with_lookup_total_seq a b n) by done.
  apply sum_list_Permutation, fmap_Permutation. by apply is_perm_Permutation.
Qed.

(** The inverse of a permutation. *)
Definition inv_perm (perm : list nat) : list nat :=
  (λ j, from_option fst 0 (list_find (λ p, p = j) perm)) <$> seq 0 (length perm).

Lemma inv_perm_length perm : length (inv_perm perm) = length perm.
Proof. unfold inv_perm. by rewrite length_fmap, length_seq. Qed.

Lemma inv_perm_lookup perm n j :
  is_perm perm n = true → j < n →
  ∃ k, inv_perm perm !! j = Some k ∧ perm !! k = Some j.
Proof.
  intros Hperm Hj.
  pose proof (is_perm_Permutation _ _ Hperm) as HP.
  apply is_perm_spec in Hperm as (Hlen & Hnd & Hlt).
  assert (j ∈ perm) as Hin by (rewrite HP; apply elem_of_seq; lia).
  destruct (list_find (λ p, p = j) perm) as [[k p]|] eqn:Hf.
  - apply list_find_Some in Hf as Hf'. destruct Hf' as (Hk & -> & _).
    exists k. split; [|done]. unfold inv_perm.
    rewrite list_lookup_fmap, lookup_seq_lt by lia. simpl. by rewrite Hf.
  - apply list_find_None in Hf. rewrite Forall_forall in Hf.
    by destruct (Hf j Hin).
Qed.

Lemma inv_perm_cancel perm n k p :
  is_perm perm n = true → perm !! k = Some p → inv_perm perm !! p = Some k.
Proof.
  intros Hperm Hk.
  pose proof Hperm as (Hlen & Hnd & Hlt)%is_perm_spec.
  assert (p < n) as Hp by (rewrite Forall_forall in Hlt; apply Hlt; by eapply list_elem_of_lookup_2).
  destruct (inv_perm_lookup perm n p Hperm Hp) as (k' & Hk' & Hpk').
  by rewrite (NoDup_lookup _ _ _ _ Hnd Hk Hpk').
Qed.

Section permuted_offsets.
Context (perm sh : list nat).
Hypothesis Hperm : is_perm perm (length sh) = true.

Let sh' := permute_list perm sh.
Let st' := permute_list perm (strides sh).

  (** The multi-index in the base of a multi-index of the view. *)
Definition base_index (idx' : list nat) : list nat :=
    permute_list (inv_perm perm) idx'.

Lemma perm_length : length perm = length sh.
  Proof. by apply is_perm_spec in Hperm as (? & _). Qed.

Lemma base_index_permute idx' :
    length idx' = length sh → permute_list perm (base_index idx') = idx'.
  Proof.
    intros Hlen. apply list_eq. intros k. unfold base_index.
    destruct (decide (k < length sh)) as [Hk|Hk].
    - destruct (lookup_lt_is_Some_2 perm k) as [p Hp]; [rewrite perm_length; lia|].
      rewrite (permute_list_lookup _ _ _ _ Hp).
      pose proof (inv_perm_cancel _ _ _ _ Hperm Hp) as Hinv.
      destruct (lookup_lt_is_Some_2 idx' k) as [x Hx]; [lia|].
      rewrite Hx. f_equal. apply list_lookup_total_correct.
      rewrite (permute_list_lookup _ _ _ _ Hinv).
      by rewrite (list_lookup_total_correct _ _ _ Hx).
    - rewrite !lookup_ge_None_2; [done|lia|].
      rewrite permute_list_length, perm_length. lia.
  Qed.

Lemma base_index_lt idx' :
    Forall2 lt idx' sh' → Forall2 lt (base_index idx') sh.
  Proof.
    intros Hidx. pose proof (Forall2_length _ _ _ Hidx) as Hlen.
    unfold sh' in Hlen. rewrite permute_list_length, perm_length in Hlen.
    apply Forall2_same_length_lookup_2.
    { unfold base_index. rewrite permute_list_length, inv_perm_length, perm_length. done. }
    intros j x n Hx Hn.
    assert (j < length sh) as Hj by by eapply lookup_lt_Some.
    destruct (inv_perm_lookup _ _ _ Hperm Hj) as (k & Hk & Hpk).
    unfold base_index in Hx. rewrite (permute_list_lookup _ _ _ _ Hk) in Hx.
    injection Hx as <-.
    assert (sh' !! k = Some n) as Hn'.
    { unfold sh'. rewrite (permute_list_lookup _ _ _ _ Hpk).
      by rewrite (list_lookup_total_correct _ _ _ Hn). }
    assert (k < length idx') as Hklt.
    { rewrite Hlen, <- perm_length. by eapply lookup_lt_Some. }
    destruct (lookup_lt_is_Some_2 idx' k Hklt) as [y Hy].
    rewrite (list_lookup_total_correct _ _ _ Hy).
    eapply Forall2_lookup_lr; eauto.
  Qed.

  (** Under the permuted strides a multi-index of the view has the offset
      its base multi-index has under the contiguous strides. *)
Lemma dot_permuted_strides idx' :
    length idx' = length sh → dot idx' st' = ravel sh (base_index idx').
  Proof.
    intros Hlen. unfold ravel, st'.
    rewrite <- (base_index_permute idx') at 1 by done.
    apply (dot_permute _ _ _ (length sh)); [done| |apply strides_length].
    unfold base_index. by rewrite permute_list_length, inv_perm_length, perm_length.
  Qed.

End permuted_offsets.

Lemma unravel_lt sh k : k < numel sh → Forall2 lt (unravel sh k) sh.
Proof.
  revert k. induction sh as [|n sh IH]; intros k Hk; simpl in *; [constructor|].
  assert (numel sh ≠ 0) by (intros E; rewrite E in Hk; lia).
  constructor.
  - apply Nat.Div0.div_lt_upper_bound. lia.
  - apply IH. by apply Nat.mod_upper_bound.
Qed.

Lemma numel_Permutation sh1 sh2 : sh1 ≡ₚ sh2 → numel sh1 = numel sh2.
Proof. induction 1; simpl; lia. Qed.

Lemma permute_list_Permutation {A} `{Inhabited A} perm (l : list A) :
  is_perm perm (length l) = true → permute_list perm l ≡ₚ l.
Proof.
  intros Hperm. unfold permute_list.
  rewrite (is_perm_Permutation _ _ Hperm). by rewrite fmap_lookup_total_seq.
Qed.

Lemma numel_permute perm sh :
  is_perm perm (length sh) = true → numel (permute_list perm sh) = numel sh.
Proof. intros Hperm. by apply numel_Permutation, permute_list_Permutation. Qed.

Section permuted_positions.
Context (perm sh : list nat).
Hypothesis Hperm : is_perm perm (length sh) = true.

  (** The position in the base of the [k]-th element of the view. *)
Definition base_position (k : nat) : nat :=
    dot (unravel (permute_list perm sh) k) (permute_list perm (strides sh)).

Lemma base_position_ravel k :
    k < numel (permute_list perm sh) →
    base_position k
    = ravel sh (base_index perm (unravel (permute_list perm sh) k)).
  Proof.
    intros Hk. unfold base_position. apply dot_permuted_strides; [done|].
    by rewrite unravel_length, permute_list_length, (perm_length perm sh Hperm).
  Qed.

Lemma base_position_lt k :
    k < numel (permute_list perm sh) → base_position k < numel sh.
  Proof.
    intros Hk. rewrite base_position_ravel by done.
    apply ravel_lt, base_index_lt; [done|]. by apply unravel_lt.
  Qed.

Lemma base_position_inj k1 k2 :
    k1 < numel (permute_list perm sh) → k2 < numel (permute_list perm sh) →
    base_position k1 = base_position k2 → k1 = k2.
  Proof.
    intros Hk1 Hk2. rewrite !base_position_ravel by done. intros Heq.
    assert (∀ k, k < numel (permute_list perm sh) →
      length (unravel (permute_list perm sh) k) = length sh) as Hlen.
    { intros k _. by rewrite unravel_length, permute_list_length, (perm_length perm sh Hperm). }
    apply (f_equal (unravel sh)) in Heq.
    rewrite !unravel_ravel in Heq
      by (apply base_index_lt; [done|]; by apply unravel_lt).
    apply (f_equal (permute_list perm)) in Heq.
    rewrite !(base_index_permute perm sh Hperm) in Heq by auto.
    apply (f_equal (ravel (permute_list perm sh))) in Heq.
    by rewrite !ravel_unravel in Heq.
  Qed.

End permuted_positions.

Lemma gather_strided_fmap {A B} `{Inhabited A} `{Inhabited B}
    (g : A → B) sizes st (d : list A) :
  (∀ k, k < numel sizes → dot (unravel sizes k) st < length d) →
  g <$> gather_strided sizes st d = gather_strided sizes st (g <$> d).
Proof.
  intros Hin. unfold gather_strided. rewrite <- list_fmap_compose.
  apply list_fmap_ext. intros i k Hk. apply lookup_seq in Hk as [-> Hk].
  simpl. symmetry. apply (list_lookup_total_fmap g). auto.
Qed.

(** A permuted view of a tensor of values shows the permuted tensor. *)
Lemma permuted_fmap {A B} `{Inhabited A} `{Inhabited B}
    (g : A → B) perm (t : tensor A) :
  is_perm perm (length (shape t)) = true → wf_tensor t →
  Tensor (shape (permuted perm t)) (g <$> data (permuted perm t))
  = permuted perm (Tensor (shape t) (g <$> data t)).
Proof.
  intros Hperm Hwf. unfold permuted. simpl. f_equal.
  apply gather_strided_fmap. intros k Hk. rewrite Hwf.
  by apply (base_position_lt perm (shape t)).
Qed.

Lemma permuted_wf {A} `{Inhabited A} perm (t : tensor A) : wf_tensor (permuted perm t).
Proof. unfold wf_tensor, permuted. simpl. by rewrite gather_strided_length. Qed.

(** A permuted view shows elements of its base, each at most once. *)
Lemma permuted_elements {A} `{Inhabited A} perm (t : tensor A) (P : A → Prop) :
  is_perm perm (length (shape t)) = true → wf_tensor t →
  Forall P (data t) → Forall P (data (permuted perm t)).
Proof.
  intros Hperm Hwf HP. unfold permuted, gather_strided. simpl.
  apply Forall_fmap, Forall_forall. intros k Hk%elem_of_seq. simpl.
  eapply Forall_lookup_1; [exact HP|]. apply list_lookup_lookup_total_lt.
  rewrite Hwf. apply (base_position_lt perm (shape t)); [done|lia].
Qed.

Lemma permuted_NoDup {A} `{Inhabited A} perm (t : tensor A) :
  is_perm perm (length (shape t)) = true → wf_tensor t →
  NoDup (data t) → NoDup (data (permuted perm t)).
Proof.
  intros Hperm Hwf Hnd. unfold permuted, gather_strided. simpl.
  apply NoDup_fmap_2_strong; [|apply NoDup_seq].
  intros k1 k2 Hk1%elem_of_seq Hk2%elem_of_seq Heq.
  apply (base_position_inj perm (shape t)); [done|lia|lia|].
  pose proof (base_position_lt perm (shape t) Hperm k1 ltac:(lia)) as H1.
  pose proof (base_position_lt perm (shape t) Hperm k2 ltac:(lia)) as H2.
  rewrite <- Hwf in H1, H2. simpl in Heq.
  apply list_lookup_lookup_total_lt in H1, H2.
  unfold base_position in H1 at 2. rewrite Heq in H1.
  exact (NoDup_lookup _ _ _ _ Hnd H1 H2).
Qed.

(** ** Handles and the values they show *)

(** A handle can be read in a store when its buffer exists and holds
    every position the handle shows. *)
Definition valid (s : store) (h : handle) : Prop :=
  ∃ buf, s !! stor h = Some buf ∧ wf_tensor (view h) ∧
         Forall (λ o, o < length buf) (data (view h)).

(** [h] shows the tensor [t] in the store [s]. *)
Definition repr (s : store) (h : handle) (t : tensor fnum) : Prop :=
  valid s h ∧ value s h = t.

Definition repr_opt (s : store) (h : option handle) (t : option (tensor fnum)) : Prop :=
  match h, t with
  | Some h, Some t => repr s h t
  | None, None => True
  | _, _ => False
  end.

(** No position is shown twice: what is written through the handle can
    be read back. *)
Definition injective (h : handle) : Prop := NoDup (data (view h)).

(** [s'] has every buffer of [s], unchanged. *)
Definition extends (s s' : store) : Prop :=
  ∀ l buf, s !! l = Some buf → s' !! l = Some buf.

Lemma extends_refl s : extends s s.
Proof. by intros l buf. Qed.

Lemma extends_trans s1 s2 s3 : extends s1 s2 → extends s2 s3 → extends s1 s3.
Proof. intros H12 H23 l buf Hl. eauto. Qed.

Lemma extends_app s suffix : extends s (s ++ suffix).
Proof. intros l buf Hl. by apply lookup_app_l_Some. Qed.

Lemma extends_length s s' : extends s s' → length s ≤ length s'.
Proof.
  intros Hext. destruct (decide (length s ≤ length s')) as [|Hn]; [done|].
  destruct (lookup_lt_is_Some_2 s (length s')) as [buf Hbuf]; [lia|].
  apply Hext in Hbuf. apply lookup_lt_Some in Hbuf. lia.
Qed.

Lemma repr_shape s h t : repr s h t → shape (view h) = shape t.
Proof. intros [_ <-]. done. Qed.

Lemma repr_wf s h t : repr s h t → wf_tensor t.
Proof.
  intros [(buf & _ & Hwf & _) <-]. unfold wf_tensor, value in *. simpl.
  by rewrite length_fmap.
Qed.

Lemma repr_stor_lt s h t : repr s h t → stor h < length s.
Proof. intros [(buf & Hbuf & _) _]. by eapply lookup_lt_Some. Qed.

(** What a handle shows depends on its buffer only. *)
Lemma repr_same_buffer s s' h t :
  repr s h t → (∀ buf, s !! stor h = Some buf → s' !! stor h = Some buf) →
  repr s' h t.
Proof.
  intros [(buf & Hbuf & Hwf & Hin) Hval] Hsame. split.
  - exists buf. eauto.
  - rewrite <- Hval. unfold value.
    by rewrite (list_lookup_total_correct _ _ _ Hbuf),
               (list_lookup_total_correct _ _ _ (Hsame _ Hbuf)).
Qed.

Lemma repr_extends s s' h t : repr s h t → extends s s' → repr s' h t.
Proof. intros Hr Hext. eapply repr_same_buffer; [done|]. intros buf. apply Hext. Qed.

Lemma repr_opt_extends s s' h t : repr_opt s h t → extends s s' → repr_opt s' h t.
Proof. destruct h, t; simpl; eauto using repr_extends. Qed.

(** The handle [alloc] returns. *)
Definition fresh (s : store) (t : tensor fnum) : handle :=
  Handle (length s) (Tensor (shape t) (seq 0 (length (data t)))).

Lemma repr_fresh s t : wf_tensor t → repr (s ++ [data t]) (fresh s t) t.
Proof.
  intros Hwf. split.
  - exists (data t). split_and!.
    + by apply list_lookup_middle.
    + unfold wf_tensor. simpl. by rewrite length_seq.
    + simpl. apply Forall_forall. intros o Ho%elem_of_seq. lia.
  - unfold value, fresh. simpl.
    rewrite (list_lookup_total_correct _ _ (data t)) by by apply list_lookup_middle.
    rewrite fmap_lookup_total_seq. by destruct t.
Qed.

Lemma fresh_injective s t : injective (fresh s t).
Proof. apply NoDup_seq. Qed.

(** Views *)

Lemma repr_permuted s h t perm :
  repr s h t → is_perm perm (length (shape t)) = true →
  repr s (Handle (stor h) (permuted perm (view h))) (permuted perm t).
Proof.
  intros [(buf & Hbuf & Hwf & Hin) Hval] Hperm.
  assert (shape (view h) = shape t) as Hsh by by rewrite <- Hval.
  rewrite <- Hsh in Hperm. split.
  - exists buf. split_and!; [done|apply permuted_wf|by apply permuted_elements].
  - rewrite <- Hval. unfold value at 1. simpl stor.
    apply (permuted_fmap (λ o, (s !!! stor h) !!! o)); done.
Qed.

Lemma permuted_injective h perm :
  wf_tensor (view h) → is_perm perm (length (shape (view h))) = true →
  injective h → injective (Handle (stor h) (permuted perm (view h))).
Proof. intros Hwf Hperm Hinj. by apply permuted_NoDup. Qed.

Lemma swap_dims_lookup rank d0 d1 i :
  d0 < rank → d1 < rank → i < rank →
  swap_dims rank d0 d1 !! i
  = Some (if decide (i = d0) then d1 else if decide (i = d1) then d0 else i).
Proof.
  intros H0 H1 Hi. unfold swap_dims.
  destruct (decide (i = d0)) as [->|Hne0].
  - apply list_lookup_insert_eq. rewrite length_insert, length_seq. done.
  - rewrite list_lookup_insert_ne by done.
    destruct (decide (i = d1)) as [->|Hne1].
    + apply list_lookup_insert_eq. by rewrite length_seq.
    + rewrite list_lookup_insert_ne by done. by rewrite lookup_seq_lt.
Qed.

Lemma swap_dims_is_perm rank d0 d1 :
  d0 < rank → d1 < rank → is_perm (swap_dims rank d0 d1) rank = true.
Proof.
  intros H0 H1. apply is_perm_spec.
  assert (length (swap_dims rank d0 d1) = rank) as Hlen
    by (unfold swap_dims; by rewrite !length_insert, length_seq).
  split_and!; [done| |].
  - apply NoDup_alt. intros i j x Hi Hj.
    assert (i < rank) by (rewrite <- Hlen; by eapply lookup_lt_Some).
    assert (j < rank) by (rewrite <- Hlen; by eapply lookup_lt_Some).
    rewrite swap_dims_lookup in Hi, Hj by done.
    repeat case_decide; simplify_eq; lia.
  - apply Forall_lookup. intros i x Hi.
    assert (i < rank) by (rewrite <- Hlen; by eapply lookup_lt_Some).
    rewrite swap_dims_lookup in Hi by done.
    repeat case_decide; simplify_eq; lia.
Qed.

(** A successful [reshape] keeps the number of elements. *)
Lemma infer_size_numel dims n sh : infer_size dims n = Ok sh → numel sh = n.
Proof.
  unfold infer_size. case_bool_decide as Hneg; [done|].
  set (q := n / numel (Z.to_nat <$> filter (λ d, d ≠ (-1)%Z) dims)).
  assert (∀ ds : list Z,
    numel ((λ d, if bool_decide (d = (-1)%Z) then q else Z.to_nat d) <$> ds)
    = numel (Z.to_nat <$> filter (λ d, d ≠ (-1)%Z) ds)
      * q ^ length (filter (λ d, d = (-1)%Z) ds)) as Hgen.
  { induction ds as [|d ds IH]; [simpl; lia|].
    rewrite fmap_cons, !filter_cons.
    change (numel (?a :: ?l)) with (a * numel l). rewrite IH.
    case_bool_decide as Hd.
    - rewrite decide_False, decide_True by (done || lia).
      change (length (?a :: ?l)) with (S (length l)). rewrite Nat.pow_succ_r'. ring.
    - rewrite decide_True, decide_False by done. rewrite fmap_cons.
      change (numel (?a :: ?l)) with (a * numel l). ring. }
  assert (∀ ds : list Z, length (filter (λ d, d = (-1)%Z) ds) = 0 →
    filter (λ d, d ≠ (-1)%Z) ds = ds) as Hnone.
  { induction ds as [|d ds IH]; [done|]. rewrite !filter_cons.
    destruct (decide (d = (-1)%Z)); simpl; [done|].
    rewrite decide_True by done. intros ?. f_equal. auto. }
  destruct (length (filter _ dims)) as [|[|?]] eqn:Hcount; [| |done].
  - destruct (Nat.eqb_spec (numel (Z.to_nat <$> filter (λ d, d ≠ (-1)%Z) dims)) n);
      [|done].
    intros [= <-]. by rewrite Hnone in e.
  - destruct (Nat.ltb_spec 0 (numel (Z.to_nat <$> filter (λ d, d ≠ (-1)%Z) dims)));
      [|done].
    destruct (Nat.eqb_spec (n mod numel (Z.to_nat <$> filter (λ d, d ≠ (-1)%Z) dims)) 0);
      [|done].
    simpl. intros [= <-]. rewrite Hgen, Hcount. simpl. unfold q.
    pose proof (Nat.div_mod n (numel (Z.to_nat <$> filter (λ d, d ≠ (-1)%Z) dims))).
    lia.
Qed.

Lemma reshape_inv {A} (t : tensor A) dims t' :
  reshape t dims = Ok t' →
  ∃ sh, infer_size dims (numel (shape t)) = Ok sh ∧ t' = Tensor sh (data t).
Proof.
  unfold reshape. destruct (infer_size _ _) as [sh|e]; simpl; [|done].
  intros [= <-]. eauto.
Qed.

Lemma reshape_wf {A} (t : tensor A) dims t' :
  wf_tensor t → reshape t dims = Ok t' → wf_tensor t'.
Proof.
  intros Hwf (sh & Hsh & ->)%reshape_inv. unfold wf_tensor in *. simpl.
  by rewrite (infer_size_numel _ _ _ Hsh).
Qed.

Lemma repr_reshaped s h t sh :
  repr s h t → numel sh = numel (shape t) →
  repr s (Handle (stor h) (Tensor sh (data (view h)))) (Tensor sh (data t)).
Proof.
  intros [(buf & Hbuf & Hwf & Hin) Hval] Hsh.
  assert (shape (view h) = shape t) as Hsh' by by rewrite <- Hval.
  split.
  - exists buf. split_and!; [done| |done]. unfold wf_tensor in *. simpl.
    by rewrite Hwf, Hsh', Hsh.
  - rewrite <- Hval. done.
Qed.

(** Writing through a handle *)

Lemma scatter_cons o v offs vals buf :
  scatter (o :: offs) (v :: vals) buf = scatter offs vals (<[o := v]> buf).
Proof. done. Qed.

Lemma scatter_length offs vals buf : length (scatter offs vals buf) = length buf.
Proof.
  revert vals buf. induction offs as [|o offs IH]; intros [|v vals] buf; try done.
  rewrite scatter_cons, IH. apply length_insert.
Qed.

Lemma scatter_lookup_other offs vals buf o :
  o ∉ offs → scatter offs vals buf !! o = buf !! o.
Proof.
  revert vals buf. induction offs as [|o' offs IH]; intros [|v vals] buf Hnot; try done.
  rewrite scatter_cons, IH by (intros ?; apply Hnot; by right).
  apply list_lookup_insert_ne. intros ->. apply Hnot. by left.
Qed.

Lemma scatter_lookup offs vals buf i o v :
  NoDup offs → Forall (λ o, o < length buf) offs →
  offs !! i = Some o → vals !! i = Some v →
  scatter offs vals buf !! o = Some v.
Proof.
  revert vals buf i. induction offs as [|o' offs IH]; intros [|v' vals] buf i Hnd Hin Ho Hv;
    try done.
  apply NoDup_cons in Hnd as [Hnot Hnd]. apply Forall_cons in Hin as [Hlt Hin].
  rewrite scatter_cons. destruct i as [|i]; simplify_eq/=.
  - rewrite scatter_lookup_other by done. by apply list_lookup_insert_eq.
  - eapply IH; eauto. eapply Forall_impl; [exact Hin|].
    intros ?. simpl. by rewrite length_insert.
Qed.

(** After a write through an injective handle, the handle shows what was
    written. *)
Lemma repr_write s h t vals :
  repr s h t → injective h → length vals = length (data t) →
  repr (<[stor h := scatter (data (view h)) vals (s !!! stor h)]> s) h
       (Tensor (shape t) vals).
Proof.
  intros [(buf & Hbuf & Hwf & Hin) Hval] Hinj Hlen.
  assert (length (data (view h)) = length vals) as Hlen'.
  { rewrite Hlen, <- Hval. unfold value. simpl. by rewrite length_fmap. }
  assert (stor h < length s) as Hlt by by eapply lookup_lt_Some.
  rewrite (list_lookup_total_correct _ _ _ Hbuf).
  split.
  - exists (scatter (data (view h)) vals buf). split_and!; [|done|].
    + by apply list_lookup_insert_eq.
    + eapply Forall_impl; [exact Hin|]. intros o. simpl. by rewrite scatter_length.
  - unfold value. rewrite <- Hval. simpl. f_equal.
    rewrite (list_lookup_total_correct _ _ (scatter (data (view h)) vals buf))
      by by apply list_lookup_insert_eq.
    apply list_eq. intros i. rewrite list_lookup_fmap.
    destruct (data (view h) !! i) as [o|] eqn:Ho; simpl.
    + destruct (lookup_lt_is_Some_2 vals i) as [v Hv].
      { rewrite <- Hlen'. by eapply lookup_lt_Some. }
      rewrite Hv. f_equal. apply list_lookup_total_correct.
      by eapply scatter_lookup.
    + symmetry. apply lookup_ge_None. rewrite <- Hlen'. by apply lookup_ge_None.
Qed.

(** ** Well-formedness of computed tensors *)

Lemma linear_forward_wf l x y : Linear.forward l x = Ok y → wf_tensor y.
Proof.
  unfold Linear.forward.
  destruct (shape (Linear.weight l)) as [|o [|i [|? ?]]]; try done.
  destruct (reverse (shape x)) as [|i' lead]; [done|].
  destruct (_ && _); [|done]. intros [= <-].
  unfold wf_tensor. simpl. rewrite length_fmap, length_seq.
  by rewrite reverse_cons, numel_app, Nat.mul_comm; simpl; lia.
Qed.

Lemma bmm_inv x y r :
  bmm x y = Ok r →
  ∃ b n m p, shape x = [b; n; m] ∧ shape y = [b; m; p] ∧ shape r = [b; n; p].
Proof.
  unfold bmm.
  destruct (shape x) as [|b [|n [|m [|? ?]]]]; try done.
  destruct (shape y) as [|b' [|m' [|p [|? ?]]]]; try done.
  destruct (Nat.eqb_spec b b') as [<-|]; [|done].
  destruct (Nat.eqb_spec m m') as [<-|]; [|done].
  simpl. intros [= <-]. by exists b, n, m, p.
Qed.

Lemma bmm_wf x y r : bmm x y = Ok r → wf_tensor r.
Proof.
  unfold bmm.
  destruct (shape x) as [|b [|n [|m [|? ?]]]]; try done.
  destruct (shape y) as [|b' [|m' [|p [|? ?]]]]; try done.
  destruct (_ && _); [|done]. intros [= <-].
  unfold wf_tensor. simpl. rewrite length_fmap, length_seq. lia.
Qed.

Lemma softmax_inv x dim y :
  softmax x dim = Ok y → dim < length (shape x) ∧ shape y = shape x.
Proof.
  unfold softmax. destruct (Nat.ltb_spec dim (length (shape x))); [|done].
  by intros [= <-].
Qed.

Lemma softmax_wf x dim y : softmax x dim = Ok y → wf_tensor y.
Proof.
  unfold softmax. destruct (dim <? _); [|done]. intros [= <-].
  unfold wf_tensor. simpl. by rewrite length_fmap, length_seq.
Qed.

Lemma div_pynum_wf x s y : wf_tensor x → div_pynum x s = Ok y → wf_tensor y.
Proof.
  intros Hwf. destruct s; simpl; [|done]. intros [= <-].
  unfold wf_tensor, div_scalar in *. simpl. by rewrite length_fmap.
Qed.

Lemma expand_wf {A} `{Inhabited A} (t : tensor A) tgt t' :
  expand t tgt = Some t' → wf_tensor t' ∧ shape t' = tgt.
Proof.
  unfold expand. destruct (expand_strides _ _) as [st|]; simpl; [|done].
  intros [= <-]. split; [|done]. unfold wf_tensor. simpl.
  apply gather_strided_length.
Qed.

Lemma inplace_binop_length {A} `{Inhabited A} (f : A → A → A) x y vals :
  wf_tensor x → inplace_binop f x y = Ok vals → length vals = length (data x).
Proof.
  intros Hwf. unfold inplace_binop.
  destruct (expand y (shape x)) as [y'|] eqn:Hy; [|done].
  apply expand_wf in Hy as [Hwf' Hsh]. intros [= <-].
  rewrite length_zip_with. unfold wf_tensor in *. rewrite Hwf', Hsh, Hwf. lia.
Qed.

Lemma masked_fill_length x mask v vals :
  masked_fill x mask v = Ok vals → length vals = length (data x).
Proof.
  unfold masked_fill. case_bool_decide; [|done]. intros [= <-].
  by rewrite length_imap.
Qed.

Lemma to_bool_wf t : wf_tensor t → wf_tensor (to_bool t).
Proof. unfold wf_tensor, to_bool. simpl. by rewrite length_fmap. Qed.

Lemma dropout_noise_wf d keep t : wf_tensor t → wf_tensor (Dropout.noise d keep t).
Proof.
  unfold wf_tensor, Dropout.noise. destruct (Req_dec_T _ _); simpl.
  - by rewrite length_fmap.
  - by rewrite length_imap.
Qed.

(** The mask is only tested for zero, so converting it to booleans first
    changes nothing. *)
Lemma is_zero_to_bool (x : fnum) :
  is_zero (if is_zero x then Fin 0 else Fin 1) = is_zero x.
Proof.
  destruct x as [r| | |]; simpl.
  - destruct (Req_dec_T r 0) as [->|Hr]; simpl.
    + by destruct (Req_dec_T 0 0).
    + destruct (Req_dec_T 1 0) as [E|_]; [lra|done].
  - destruct (Req_dec_T 1 0) as [E|_]; [lra|done].
  - destruct (Req_dec_T 1 0) as [E|_]; [lra|done].
  - destruct (Req_dec_T 1 0) as [E|_]; [lra|done].
Qed.

Lemma masked_fill_to_bool x mask v :
  masked_fill x (to_bool mask) v = masked_fill x mask v.
Proof.
  unfold masked_fill. simpl. case_bool_decide; [|done]. f_equal.
  apply imap_ext. intros k a _. simpl.
  set (j := k `div` _).
  rewrite !list_lookup_total_alt, list_lookup_fmap.
  destruct (data mask !! j) as [m|]; simpl.
  - by rewrite is_zero_to_bool.
  - done.
Qed.

(** ** Running the store operations *)

(** [wp c s Q]: running [c] in the store [s] ends in an outcome and a
    store that satisfy [Q]. *)
Definition wp {A} (c : M A) (s : store) (Q : result A → store → Prop) : Prop :=
  Q (c s).1 (c s).2.

Lemma wp_bind {A B} (c : M A) (f : A → M B) s Q :
  wp c s (λ r s', match r with
                  | Ok a => wp (f a) s' Q
                  | Raise e => Q (Raise e) s'
                  end) →
  wp (c ≫= f) s Q.
Proof. unfold wp, mbind, M_bind. by destruct (c s) as [[a|e] s']. Qed.

Lemma wp_ret {A} (a : A) s Q : Q (Ok a) s → wp (mret a) s Q.
Proof. done. Qed.

Lemma wp_lift {A} (r : result A) s Q : Q r s → wp (lift r) s Q.
Proof. done. Qed.

Lemma wp_read h t s Q : repr s h t → Q (Ok t) s → wp (read h) s Q.
Proof. intros [_ <-]. done. Qed.

Lemma wp_alloc t s Q :
  wf_tensor t →
  (∀ s' h, extends s s' → length s' = S (length s) → stor h = length s →
           repr s' h t → injective h → Q (Ok h) s') →
  wp (alloc t) s Q.
Proof.
  intros Hwf HQ. unfold wp, alloc. simpl. apply HQ.
  - apply extends_app.
  - rewrite length_app. simpl. lia.
  - done.
  - by apply (repr_fresh s t).
  - apply fresh_injective.
Qed.

(** Read, compute, allocate: the shape of every operation that returns a
    new tensor. *)
Lemma wp_compute (f : tensor fnum → result (tensor fnum)) h t s Q :
  repr s h t →
  (∀ y, f t = Ok y → wf_tensor y) →
  match f t with
  | Ok y => ∀ s' h', extends s s' → length s' = S (length s) → stor h' = length s →
                     repr s' h' y → injective h' → Q (Ok h') s'
  | Raise e => Q (Raise e) s
  end →
  wp (x ← read h; y ← lift (f x); alloc y) s Q.
Proof.
  intros Hr Hwf HQ. apply wp_bind. eapply wp_read; [done|].
  apply wp_bind, wp_lift. destruct (f t) as [y|e] eqn:Hf; [|done].
  apply wp_alloc; auto.
Qed.

Lemma wp_linear l h t s Q :
  repr s h t →
  match Linear.forward l t with
  | Ok y => ∀ s' h', extends s s' → length s' = S (length s) → stor h' = length s →
                     repr s' h' y → injective h' → Q (Ok h') s'
  | Raise e => Q (Raise e) s
  end →
  wp (linear_h l h) s Q.
Proof. intros Hr. apply (wp_compute (Linear.forward l)); eauto using linear_forward_wf. Qed.

Lemma wp_softmax h dim t s Q :
  repr s h t →
  match softmax t dim with
  | Ok y => ∀ s' h', extends s s' → length s' = S (length s) → stor h' = length s →
                     repr s' h' y → injective h' → Q (Ok h') s'
  | Raise e => Q (Raise e) s
  end →
  wp (softmax_h h dim) s Q.
Proof.
  intros Hr. apply (wp_compute (λ x, softmax x dim)); eauto using softmax_wf.
Qed.

Lemma wp_div_pynum h sc t s Q :
  repr s h t →
  match div_pynum t sc with
  | Ok y => ∀ s' h', extends s s' → length s' = S (length s) → stor h' = length s →
                     repr s' h' y → injective h' → Q (Ok h') s'
  | Raise e => Q (Raise e) s
  end →
  wp (div_pynum_h h sc) s Q.
Proof.
  intros Hr. apply (wp_compute (λ x, div_pynum x sc)); [done|].
  intros y. apply div_pynum_wf. by eapply repr_wf.
Qed.

Lemma wp_bmm x y tx ty s Q :
  repr s x tx → repr s y ty →
  match bmm tx ty with
  | Ok r => ∀ s' h', extends s s' → length s' = S (length s) → stor h' = length s →
                     repr s' h' r → injective h' → Q (Ok h') s'
  | Raise e => Q (Raise e) s
  end →
  wp (bmm_h x y) s Q.
Proof.
  intros Hx Hy HQ. unfold bmm_h. apply wp_bind. eapply wp_read; [done|].
  apply wp_bind. eapply wp_read; [done|].
  apply wp_bind, wp_lift. destruct (bmm tx ty) as [r|e] eqn:Hr; [|done].
  apply wp_alloc; [by eapply bmm_wf|done].
Qed.

Lemma wp_transpose h d0 d1 t s Q :
  repr s h t →
  match transpose t d0 d1 with
  | Ok t' => ∀ h', stor h' = stor h → repr s h' t' →
                   (injective h → injective h') → Q (Ok h') s
  | Raise e => Q (Raise e) s
  end →
  wp (transpose_h h d0 d1) s Q.
Proof.
  intros Hr HQ. unfold transpose_h. apply wp_bind, wp_lift.
  pose proof (repr_shape _ _ _ Hr) as Hsh.
  unfold transpose in *. rewrite Hsh.
  destruct (Nat.ltb_spec d0 (length (shape t))); [|done].
  destruct (Nat.ltb_spec d1 (length (shape t))); [|done].
  simpl in *. apply wp_ret. apply HQ; [done| |].
  - apply repr_permuted; [done|]. by apply swap_dims_is_perm.
  - intros Hinj. apply permuted_injective; [|rewrite Hsh; by apply swap_dims_is_perm|done].
    by destruct Hr as [(? & ? & ? & ?) ?].
Qed.

Lemma wp_permute h perm t s Q :
  repr s h t →
  match permute t perm with
  | Ok t' => ∀ h', stor h' = stor h → repr s h' t' →
                   (injective h → injective h') → Q (Ok h') s
  | Raise e => Q (Raise e) s
  end →
  wp (permute_h h perm) s Q.
Proof.
  intros Hr HQ. unfold permute_h. apply wp_bind, wp_lift.
  pose proof (repr_shape _ _ _ Hr) as Hsh.
  unfold permute in *. rewrite Hsh.
  destruct (is_perm perm (length (shape t))) eqn:Hperm; [|done].
  simpl in *. apply wp_ret. apply HQ; [done| |].
  - by apply repr_permuted.
  - intros Hinj. apply permuted_injective; [|by rewrite Hsh|done].
    by destruct Hr as [(? & ? & ? & ?) ?].
Qed.

Section runtime_choices.
Context (reshape_is_view : handle → list nat → bool).
Context (to_bool_is_noop : handle → bool).

Lemma wp_reshape h dims t s Q :
    repr s h t →
    match reshape t dims with
    | Ok t' => ∀ s' h', extends s s' → (stor h' = stor h ∨ stor h' = length s) →
                        repr s' h' t' → (injective h → injective h') → Q (Ok h') s'
    | Raise e => Q (Raise e) s
    end →
    wp (reshape_h reshape_is_view h dims) s Q.
  Proof.
    intros Hr HQ. unfold reshape_h. apply wp_bind, wp_lift.
    pose proof (repr_shape _ _ _ Hr) as Hsh.
    unfold reshape in *. rewrite Hsh.
    destruct (infer_size dims (numel (shape t))) as [sh|e] eqn:Hinf; simpl in *; [|done].
    destruct (reshape_is_view h sh).
    - apply wp_ret. apply HQ; [apply extends_refl|by left| |done].
      apply repr_reshaped; [done|]. by eapply infer_size_numel.
    - apply wp_bind. eapply wp_read; [done|]. apply wp_bind, wp_lift.
      rewrite Hinf. simpl. apply wp_alloc.
      { unfold wf_tensor. simpl. rewrite (infer_size_numel _ _ _ Hinf).
        by apply repr_wf in Hr. }
      intros s' h' Hext Hlen Hstor Hr' Hinj. apply HQ; auto.
  Qed.

Lemma wp_to_bool h t s Q :
    repr s h t →
    (∀ s' h' t', extends s s' → (stor h' = stor h ∨ stor h' = length s) →
                 repr s' h' t' → (t' = t ∨ t' = to_bool t) → Q (Ok h') s') →
    wp (to_bool_h to_bool_is_noop h) s Q.
  Proof.
    intros Hr HQ. unfold to_bool_h. destruct (to_bool_is_noop h).
    - apply wp_ret. apply (HQ s h t); auto using extends_refl.
    - apply wp_bind. eapply wp_read; [done|].
      apply wp_alloc; [apply to_bool_wf; by eapply repr_wf|].
      intros s' h' Hext Hlen Hstor Hr' _. apply (HQ s' h' (to_bool t)); auto.
  Qed.

End runtime_choices.

Lemma wp_dropout d keep h t s Q :
  repr s h t →
  (∀ s' h', extends s s' → repr s' h' (Dropout.forward d keep t) → Q (Ok h') s') →
  wp (dropout_h d keep h) s Q.
Proof.
  intros Hr HQ. unfold dropout_h. apply wp_bind. eapply wp_read; [done|].
  unfold Dropout.forward in HQ. destruct (Dropout.is_identity d t).
  - apply wp_ret. apply HQ; auto using extends_refl.
  - apply wp_alloc; [apply dropout_noise_wf; by eapply repr_wf|].
    intros s' h' Hext _ _ Hr' _. by apply HQ.
Qed.

(** An in-place update changes the buffer of its target and nothing
    else. *)
Lemma wp_write h t vals s Q :
  repr s h t → injective h → length vals = length (data t) →
  (∀ s', length s' = length s →
         (∀ l buf, l ≠ stor h → s !! l = Some buf → s' !! l = Some buf) →
         repr s' h (updated t vals) → Q (Ok tt) s') →
  wp (write h vals) s Q.
Proof.
  intros Hr Hinj Hlen HQ. unfold wp, write. cbv beta. cbn [fst snd]. apply HQ.
  - apply length_insert.
  - intros l buf Hne Hl. by rewrite list_lookup_insert_ne.
  - by apply repr_write.
Qed.

Lemma wp_inplace f x y tx ty s Q :
  repr s x tx → injective x → repr s y ty →
  match inplace_binop f tx ty with
  | Ok vals => ∀ s', length s' = length s →
                     (∀ l buf, l ≠ stor x → s !! l = Some buf → s' !! l = Some buf) →
                     repr s' x (updated tx vals) → Q (Ok tt) s'
  | Raise e => Q (Raise e) s
  end →
  wp (inplace_h f x y) s Q.
Proof.
  intros Hx Hinj Hy HQ. unfold inplace_h.
  apply wp_bind. eapply wp_read; [done|].
  apply wp_bind. eapply wp_read; [done|].
  apply wp_bind, wp_lift.
  destruct (inplace_binop f tx ty) as [vals|e] eqn:Hv; [|done].
  eapply wp_write; eauto.
  eapply inplace_binop_length; [|done]. by eapply repr_wf.
Qed.

Lemma wp_setitem_mask x mask tx tm v s Q :
  repr s x tx → injective x → repr s mask tm →
  match masked_fill tx tm v with
  | Ok vals => ∀ s', length s' = length s →
                     (∀ l buf, l ≠ stor x → s !! l = Some buf → s' !! l = Some buf) →
                     repr s' x (updated tx vals) → Q (Ok tt) s'
  | Raise e => Q (Raise e) s
  end →
  wp (setitem_mask_h x mask v) s Q.
Proof.
  intros Hx Hinj Hm HQ. unfold setitem_mask_h.
  apply wp_bind. eapply wp_read; [done|].
  apply wp_bind. eapply wp_read; [done|].
  apply wp_bind, wp_lift.
  destruct (masked_fill tx tm v) as [vals|e] eqn:Hv; [|done].
  eapply wp_write; eauto. by eapply masked_fill_length.
Qed.

(** ** The store program computes the values of the value program *)

(** Outcome of the first part of [forward]: the buffers of the initial
    store are untouched, and the handles returned show the tensors the
    value program computes; an exception is the same on both sides. *)
Definition attention_post (s0 : store)
    (rv : result (tensor fnum * tensor fnum * nat * nat))
    (r : result (handle * handle * nat * nat)) (s1 : store) : Prop :=
  extends s0 s1 ∧
  match r, rv with
  | Ok (aw, vh, bsz, n), Ok (taw, tvh, bsz', n') =>
      repr s1 aw taw ∧ repr s1 vh tvh ∧ bsz = bsz' ∧ n = n'
  | Raise e, Raise e' => e = e'
  | _, _ => False
  end.

Definition forward_post (s0 : store) (rv : result (tensor fnum))
    (r : result handle) (s1 : store) : Prop :=
  extends s0 s1 ∧
  match r, rv with
  | Ok h, Ok t => repr s1 h t
  | Raise e, Raise e' => e = e'
  | _, _ => False
  end.

(** Carry what is known about the store over an extension. *)
Ltac carry Hext :=
  lazymatch type of Hext with
  | extends ?s ?s' =>
      repeat match goal with
      | H : repr s ?h ?t |- _ => apply (λ H0, repr_extends s s' h t H0 Hext) in H
      | H : repr_opt s ?h ?t |- _ => apply (λ H0, repr_opt_extends s s' h t H0 Hext) in H
      | H : extends ?s0 s |- _ => apply (λ H0, extends_trans s0 s s' H0 Hext) in H
      end
  end.

Lemma result_bind_ok {A B} (a : A) (f : A → result B) : (Ok a ≫= f) = f a.
Proof. done. Qed.

Lemma result_bind_raise {A B} (e : exn) (f : A → result B) : (Raise e ≫= f) = Raise e.
Proof. done. Qed.

Lemma attention_post_raise s0 s e :
  extends s0 s → attention_post s0 (Raise e) (Raise e) s.
Proof. by split. Qed.

Lemma forward_post_raise s0 s e :
  extends s0 s → forward_post s0 (Raise e) (Raise e) s.
Proof. by split. Qed.

Lemma result_fmap_ok {A B} (a : A) (f : A → B) : (f <$> Ok a) = Ok (f a).
Proof. done. Qed.

Lemma result_fmap_raise {A B} (e : exn) (f : A → B) :
  (f <$> (Raise e : result A)) = Raise e.
Proof. done. Qed.

Lemma repr_after_write s s' h t l :
  repr s h t →
  (∀ l' buf, l' ≠ l → s !! l' = Some buf → s' !! l' = Some buf) →
  stor h ≠ l → repr s' h t.
Proof. intros Hr Hpres Hne. eapply repr_same_buffer; [done|]. intros buf. by apply Hpres. Qed.

Lemma extends_after_write s0 s s' l :
  extends s0 s →
  (∀ l' buf, l' ≠ l → s !! l' = Some buf → s' !! l' = Some buf) →
  length s0 ≤ l → extends s0 s'.
Proof.
  intros Hext Hpres Hl l' buf Hbuf. apply Hpres; [|by apply Hext].
  apply lookup_lt_Some in Hbuf. lia.
Qed.

Lemma repr_opt_after_write s s' h t l :
  repr_opt s h t →
  (∀ l' buf, l' ≠ l → s !! l' = Some buf → s' !! l' = Some buf) →
  from_option (λ h, stor h ≠ l) True h → repr_opt s' h t.
Proof. destruct h, t; simpl; eauto using repr_after_write. Qed.

(** One step of the store program against the same step of the value
    program: the operation either raises on both sides, or returns and
    the facts about the store are carried over. *)
Ltac sync :=
  match goal with
  | |- match ?f with Ok _ => _ | Raise _ => _ end =>
      let E := fresh "E" in
      destruct f eqn:E;
      [ rewrite ?result_fmap_ok, ?result_bind_ok; cbv beta iota
      | rewrite ?result_fmap_raise, ?result_bind_raise;
        first [ by apply attention_post_raise | by apply forward_post_raise ] ]
  end.

Ltac step_view lem :=
  apply wp_bind; eapply lem; [eassumption|]; sync;
  [ let h := fresh "h" in
    let Hstor := fresh "Hstor" in
    let Hr := fresh "Hr" in
    let Hinj := fresh "Hinj" in
    intros h Hstor Hr Hinj ].

Ltac step_alloc lem :=
  apply wp_bind; eapply lem; [eassumption..|]; sync;
  [ let s' := fresh "s" in
    let h := fresh "h" in
    let Hext := fresh "Hext" in
    let Hlen := fresh "Hlen" in
    let Hstor := fresh "Hstor" in
    let Hr := fresh "Hr" in
    let Hinj := fresh "Hinj" in
    intros s' h Hext Hlen Hstor Hr Hinj; carry Hext ].

(** Every handle known to be readable points below the end of the
    store. *)
Ltac note_bounds :=
  repeat match goal with
  | H : repr ?s ?h ?t |- _ =>
      lazymatch goal with
      | _ : stor h < length s |- _ => fail
      | _ => pose proof (repr_stor_lt _ _ _ H)
      end
  end.

(** Carry what is known over an in-place update of the buffer [l]. *)
Ltac carry_write Hpres :=
  lazymatch type of Hpres with
  | (∀ l' buf, l' ≠ ?l → ?s !! l' = Some buf → ?s' !! l' = Some buf) =>
      repeat match goal with
      | H : repr s ?h ?t |- _ =>
          apply (λ H0, repr_after_write s s' h t l H0 Hpres) in H; [|lia]
      | H : repr_opt s ?h ?t |- _ =>
          apply (λ H0, repr_opt_after_write s s' h t l H0 Hpres) in H;
          [|destruct h; simpl in *; lia]
      | H : extends ?s0 s |- _ =>
          apply (λ H0, extends_after_write s0 s s' l H0 Hpres) in H; [|lia]
      end
  end.

Section refinement.
Context (reshape_is_view : handle → list nat → bool).
Context (to_bool_is_noop : handle → bool).

Ltac step_reshape :=
    apply wp_bind; eapply (wp_reshape reshape_is_view); [eassumption|]; sync;
    [ let s' := fresh "s" in
      let h := fresh "h" in
      let Hext := fresh "Hext" in
      let Hstor := fresh "Hstor" in
      let Hr := fresh "Hr" in
      let Hinj := fresh "Hinj" in
      intros s' h Hext Hstor Hr Hinj;
      pose proof (extends_length _ _ Hext); carry Hext ].

  (** The update of the scores by the bias, as one step. *)
Lemma wp_bias_step ty haw attn_bias taw tb s Q :
    repr s haw taw → injective haw → repr_opt s attn_bias tb →
    match (match tb with
           | Some b =>
               updated taw <$>
                 (if String.eqb ty "add" then inplace_binop fadd taw b
                  else inplace_binop fmul taw b)
           | None => Ok taw
           end) with
    | Ok taw' =>
        ∀ s', length s' = length s →
              (∀ l buf, l ≠ stor haw → s !! l = Some buf → s' !! l = Some buf) →
              repr s' haw taw' → Q (Ok tt) s'
    | Raise e => Q (Raise e) s
    end →
    wp (match attn_bias with
        | Some b =>
            if String.eqb ty "add" then inplace_h fadd haw b
            else inplace_h fmul haw b
        | None => mret tt
        end) s Q.
  Proof.
    intros Haw Hinj Hb HQ.
    destruct attn_bias as [b|], tb as [tbv|]; simpl in Hb; try done.
    - destruct (String.eqb ty "add").
      + eapply wp_inplace; [done..|].
        destruct (inplace_binop fadd taw tbv); [|done]. exact HQ.
      + eapply wp_inplace; [done..|].
        destruct (inplace_binop fmul taw tbv); [|done]. exact HQ.
    - apply wp_ret. apply HQ; auto.
  Qed.

  (** The masking of the scores, as one step. *)
Lemma wp_mask_step haw attn_mask taw tm s Q :
    repr s haw taw → injective haw → repr_opt s attn_mask tm →
    from_option (λ h, stor h ≠ stor haw) True attn_mask →
    match (match tm with
           | Some mask => updated taw <$> masked_fill taw (to_bool mask) NInf
           | None => Ok taw
           end) with
    | Ok taw' =>
        ∀ s', length s ≤ length s' →
              (∀ l buf, l ≠ stor haw → s !! l = Some buf → s' !! l = Some buf) →
              repr s' haw taw' → Q (Ok tt) s'
    | Raise e => ∀ s', extends s s' → Q (Raise e) s'
    end →
    wp (match attn_mask with
        | Some mask =>
            mask ← to_bool_h to_bool_is_noop mask;
            setitem_mask_h haw mask NInf
        | None => mret tt
        end) s Q.
  Proof.
    intros Haw Hinj Hm Hne HQ.
    destruct attn_mask as [mk|], tm as [tmv|]; simpl in Hm, Hne; try done.
    - apply wp_bind. eapply (wp_to_bool to_bool_is_noop); [done|].
      intros s1 mb tmb Hext Hstor Hmb Htmb.
      pose proof (repr_stor_lt _ _ _ Haw) as Hlt.
      pose proof (extends_length _ _ Hext) as Hlen.
      apply (repr_extends _ _ _ _ Haw) in Hext as Haw1.
      eapply wp_setitem_mask; [done..|].
      replace (masked_fill taw tmb NInf) with (masked_fill taw (to_bool tmv) NInf)
        by (destruct Htmb as [-> | ->]; [apply masked_fill_to_bool|done]).
      destruct (masked_fill taw (to_bool tmv) NInf) as [vals|e]; simpl in *.
      + intros s' Hlen' Hpres Hr'. apply HQ; [lia| |done].
        intros l buf Hl Hbuf. apply Hpres; [done|]. by apply Hext.
      + by apply HQ.
    - apply wp_ret. apply HQ; auto.
  Qed.

Lemma attention_refines self ndata attn_bias attn_mask s0 tn tb tm :
    repr s0 ndata tn → repr_opt s0 attn_bias tb → repr_opt s0 attn_mask tm →
    wp (BiasedMultiheadAttention.attention reshape_is_view to_bool_is_noop
          self ndata attn_bias attn_mask) s0
       (attention_post s0 (attention_val self tn tb tm)).
  Proof.
    intros Hn Hb Hm.
    pose proof (extends_refl s0) as Hfr.
    assert (from_option (λ h, stor h < length s0) True attn_bias) as Hbs.
    { destruct attn_bias, tb; simpl in *; try done. by eapply repr_stor_lt. }
    assert (from_option (λ h, stor h < length s0) True attn_mask) as Hms.
    { destruct attn_mask, tm; simpl in *; try done. by eapply repr_stor_lt. }
    unfold BiasedMultiheadAttention.attention, attention_val.
    rewrite (repr_shape _ _ _ Hn).
    step_alloc wp_linear. step_view wp_transpose.
    step_alloc wp_linear. step_view wp_transpose.
    step_alloc wp_linear. step_view wp_transpose.
    apply wp_bind, wp_lift. sync.
    match goal with p : (nat * nat)%type |- _ => destruct p as [bsz N] end.
    step_reshape. step_view wp_transpose. step_alloc wp_div_pynum.
    step_reshape. step_view wp_permute.
    step_reshape. step_view wp_transpose.
    note_bounds.
    step_alloc wp_bmm. step_view wp_transpose. step_reshape. step_view wp_transpose.
    match goal with
    | Hr : repr _ ?h _ |- context [transpose_h ?h 0 2] =>
        assert (injective h) as Hinj_aw by auto;
        assert (length s0 ≤ stor h) as Hlow by lia;
        rename h into haw; rename Hr into Hr_aw
    end.
    assert (from_option (λ h, stor h ≠ stor haw) True attn_mask) as Hmne
      by (destruct attn_mask; simpl in *; lia).
    note_bounds.
    apply wp_bind. eapply wp_bias_step; [eassumption..|]. sync.
    intros s' Hlen' Hpres Hr_aw'. carry_write Hpres.
    apply wp_bind. eapply wp_mask_step; [eassumption..|].
    match goal with
    | |- match ?f with Ok _ => _ | Raise _ => _ end =>
        destruct f eqn:Emask;
        [ rewrite ?result_bind_ok; cbv beta iota
        | intros s'' Hext''; rewrite result_bind_raise;
          apply attention_post_raise; by eapply extends_trans ]
    end.
    intros s'' Hlen'' Hpres' Hr_aw''. carry_write Hpres'.
    step_view wp_transpose. step_reshape. step_view wp_transpose.
    step_alloc wp_softmax.
    apply wp_ret. split; [done|]. by split_and!.
  Qed.

  (** The store program and the value program of [forward] agree, and
      the store program leaves every buffer of the initial store as it
      was. *)
Lemma forward_refines self keep ndata attn_bias attn_mask s0 tn tb tm :
    repr s0 ndata tn → repr_opt s0 attn_bias tb → repr_opt s0 attn_mask tm →
    wp (BiasedMultiheadAttention.forward reshape_is_view to_bool_is_noop
          self keep ndata attn_bias attn_mask) s0
       (forward_post s0 (forward_val self keep tn tb tm)).
  Proof.
    intros Hn Hb Hm.
    unfold BiasedMultiheadAttention.forward, forward_val.
    apply wp_bind.
    pose proof (attention_refines self ndata attn_bias attn_mask s0 tn tb tm Hn Hb Hm)
      as Hatt.
    unfold wp in Hatt |- *.
    destruct (BiasedMultiheadAttention.attention _ _ _ _ _ _ s0) as [r s1].
    destruct Hatt as [Hfr Hatt]. simpl in Hatt |- *.
    destruct r as [[[[aw vh] bsz] N]|e],
             (attention_val self tn tb tm) as [[[[taw tvh] bsz'] N']|e']; try done.
    destruct Hatt as (Haw & Hvh & <- & <-).
    rewrite result_bind_ok. cbv beta iota.
    simpl in Hfr.
    match goal with
    | |- forward_post ?s0 ?v (?c ?s).1 (?c ?s).2 => change (wp c s (forward_post s0 v))
    end.
    apply wp_bind. eapply wp_dropout; [eassumption|].
    intros s2 hd Hext Hd. carry Hext.
    step_alloc wp_bmm. step_view wp_transpose. step_reshape. step_view wp_transpose.
    eapply wp_linear; [eassumption|].
    match goal with
    | |- match ?f with Ok _ => _ | Raise _ => _ end => destruct f
    end.
    - intros s' hout Hext' _ _ Hout _. split; [by eapply extends_trans|done].
    - by apply forward_post_raise.
  Qed.

End refinement.

(** ** Shapes through the attention module *)

(** Every element is a finite number. *)
Definition all_fin (t : tensor fnum) : Prop := Forall is_fin (data t).

(** A projection of width [f] whose parameters have the shapes
    [nn.Linear(f, f)] gives them. *)
Definition wf_linear (l : Linear.t) (f : nat) : Prop :=
  shape (Linear.weight l) = [f; f] ∧ wf_tensor (Linear.weight l) ∧
  match Linear.bias l with
  | Some b => shape b = [f] ∧ wf_tensor b
  | None => True
  end.

Definition fin_linear (l : Linear.t) : Prop :=
  all_fin (Linear.weight l) ∧
  match Linear.bias l with Some b => all_fin b | None => True end.

(** An attention module with [h] heads of width [hd], as the
    constructor builds it and training keeps it. *)
Record wf_module (m : BiasedMultiheadAttention.t) (h hd : nat) : Prop := {
  wf_num_heads : BiasedMultiheadAttention.num_heads m = Z.of_nat h;
  wf_head_dim : BiasedMultiheadAttention.head_dim m = Z.of_nat hd;
  wf_feat_size : BiasedMultiheadAttention.feat_size m = Z.of_nat (h * hd);
  wf_scaling : ∃ c, BiasedMultiheadAttention.scaling m = PyFloat (Fin c) ∧ c ≠ 0%R;
  wf_q_proj : wf_linear (BiasedMultiheadAttention.q_proj m) (h * hd);
  wf_k_proj : wf_linear (BiasedMultiheadAttention.k_proj m) (h * hd);
  wf_v_proj : wf_linear (BiasedMultiheadAttention.v_proj m) (h * hd);
  wf_out_proj : wf_linear (BiasedMultiheadAttention.out_proj m) (h * hd)
}.

(** Its parameters are finite numbers. *)
Definition fin_module (m : BiasedMultiheadAttention.t) : Prop :=
  fin_linear (BiasedMultiheadAttention.q_proj m) ∧
  fin_linear (BiasedMultiheadAttention.k_proj m) ∧
  fin_linear (BiasedMultiheadAttention.v_proj m) ∧
  fin_linear (BiasedMultiheadAttention.out_proj m).

(** An optional input of the expected shape. *)
Definition has_shape (t : option (tensor fnum)) (sh : list nat) : Prop :=
  match t with Some t => shape t = sh ∧ wf_tensor t | None => True end.

Lemma is_fin_fadd x y : is_fin x → is_fin y → is_fin (fadd x y).
Proof. by destruct x, y. Qed.

Lemma is_fin_fmul x y : is_fin x → is_fin y → is_fin (fmul x y).
Proof. by destruct x, y. Qed.

Lemma is_fin_fsum l : Forall is_fin l → is_fin (fsum l).
Proof. induction 1; simpl; [done|]. by apply is_fin_fadd. Qed.

Lemma is_fin_lookup_total (l : list fnum) i : Forall is_fin l → is_fin (l !!! i).
Proof.
  intros Hl. rewrite list_lookup_total_alt.
  destruct (l !! i) as [x|] eqn:Hx; simpl; [|done].
  by eapply Forall_lookup_1.
Qed.

Lemma is_fin_dot_product (f g : nat → fnum) n :
  (∀ k, is_fin (f k)) → (∀ k, is_fin (g k)) →
  is_fin (fsum ((λ k, fmul (f k) (g k)) <$> seq 0 n)).
Proof.
  intros Hf Hg. apply is_fin_fsum, Forall_fmap, Forall_forall.
  intros k _. by apply is_fin_fmul.
Qed.

Lemma linear_forward_ok l f x lead :
  wf_linear l f → shape x = lead ++ [f] →
  ∃ y, Linear.forward l x = Ok y ∧ shape y = lead ++ [f] ∧ wf_tensor y ∧
       (fin_linear l → all_fin x → all_fin y).
Proof.
  intros (Hw & _ & Hb) Hx. unfold Linear.forward.
  rewrite Hw, Hx, reverse_app. simpl. rewrite Nat.eqb_refl. simpl.
  assert (match Linear.bias l with
          | Some b => bool_decide (shape b = [f])
          | None => true
          end = true) as ->.
  { destruct (Linear.bias l); [|done]. apply bool_decide_eq_true. tauto. }
  eexists. split; [done|]. split_and!.
  - simpl. by rewrite reverse_cons, reverse_involutive.
  - eapply linear_forward_wf. unfold Linear.forward.
    rewrite Hw, Hx, reverse_app. simpl. rewrite Nat.eqb_refl. simpl.
    destruct (Linear.bias l) as [b|]; [|done].
    destruct Hb as [-> _]. by rewrite bool_decide_true.
  - intros [Hfw Hfb] Hfx. unfold all_fin. simpl.
    apply Forall_fmap, Forall_forall. intros k _. simpl.
    assert (is_fin (fsum ((λ j, fmul (data x !!! (k `div` f * f + j))
                                (data (Linear.weight l) !!! (k `mod` f * f + j)))
                            <$> seq 0 f))) as Hacc.
    { apply (is_fin_dot_product (λ j, data x !!! (k `div` f * f + j))
               (λ j, data (Linear.weight l) !!! (k `mod` f * f + j)));
        intros j; by apply is_fin_lookup_total. }
    destruct (Linear.bias l) as [b|]; [|done].
    apply is_fin_fadd; [done|]. by apply is_fin_lookup_total.
Qed.

Lemma permuted_all_fin perm t :
  all_fin t → all_fin (permuted perm t).
Proof.
  intros Hf. unfold all_fin, permuted, gather_strided. simpl.
  apply Forall_fmap, Forall_forall. intros k _. by apply is_fin_lookup_total.
Qed.

Lemma transpose_ok {A} `{Inhabited A} (t : tensor A) d0 d1 :
  d0 < length (shape t) → d1 < length (shape t) →
  transpose t d0 d1 = Ok (permuted (swap_dims (length (shape t)) d0 d1) t).
Proof.
  intros H0 H1. unfold transpose.
  destruct (Nat.ltb_spec d0 (length (shape t))); [|lia].
  destruct (Nat.ltb_spec d1 (length (shape t))); [|lia]. done.
Qed.

Lemma infer_size_nat (sh : list nat) n :
  numel sh = n → infer_size (Z.of_nat <$> sh) n = Ok sh.
Proof.
  intros Hn. unfold infer_size.
  assert (filter (λ d, d = (-1)%Z) (Z.of_nat <$> sh) = []) as Hnone.
  { clear. induction sh as [|a sh IH]; [done|]. rewrite fmap_cons, filter_cons.
    rewrite decide_False by lia. apply IH. }
  assert (filter (λ d, d ≠ (-1)%Z) (Z.of_nat <$> sh) = Z.of_nat <$> sh) as Hall.
  { clear. induction sh as [|a sh IH]; [done|]. rewrite fmap_cons, filter_cons.
    rewrite decide_True by lia. by rewrite IH. }
  assert (Z.to_nat <$> (Z.of_nat <$> sh) = sh) as Hid.
  { rewrite <- list_fmap_compose. rewrite <- (list_fmap_id sh) at 2.
    apply list_fmap_ext. intros _ a _. simpl. apply Nat2Z.id. }
  rewrite bool_decide_false.
  - rewrite Hnone, Hall, Hid. simpl. by rewrite Hn, Nat.eqb_refl.
  - intros Hex. apply Exists_exists in Hex as (d & Hd & Hlt).
    apply list_elem_of_fmap in Hd as (a & -> & _). lia.
Qed.

Lemma reshape_ok {A} (t : tensor A) (sh : list nat) dims :
  dims = Z.of_nat <$> sh → numel sh = numel (shape t) →
  reshape t dims = Ok (Tensor sh (data t)).
Proof. intros -> Hn. unfold reshape. by rewrite infer_size_nat. Qed.

Lemma bmm_ok x y b n m p :
  shape x = [b; n; m] → shape y = [b; m; p] →
  ∃ r, bmm x y = Ok r ∧ shape r = [b; n; p] ∧ wf_tensor r ∧
       (all_fin x → all_fin y → all_fin r).
Proof.
  intros Hx Hy. unfold bmm. rewrite Hx, Hy, !Nat.eqb_refl. simpl.
  eexists. split; [done|]. split_and!; [done| |].
  - unfold wf_tensor. simpl. rewrite length_fmap, length_seq. lia.
  - intros Hfx Hfy. unfold all_fin. simpl.
    apply Forall_fmap, Forall_forall. intros o _. simpl.
    apply (is_fin_dot_product
             (λ k, data x !!! ((o `div` (n * p) * n + (o `div` p) `mod` n) * m + k))
             (λ k, data y !!! ((o `div` (n * p) * m + k) * p + o `mod` p)));
      intros k; by apply is_fin_lookup_total.
Qed.

Lemma softmax_ok t dim :
  dim < length (shape t) →
  ∃ y, softmax t dim = Ok y ∧ shape y = shape t ∧ wf_tensor y.
Proof.
  intros Hd. destruct (softmax t dim) as [y|e] eqn:Hs.
  - exists y. split; [done|]. split; [by apply softmax_inv in Hs as [_ ?]|].
    by eapply softmax_wf.
  - unfold softmax in Hs. destruct (Nat.ltb_spec dim (length (shape t))); [done|lia].
Qed.

Lemma div_scalar_all_fin t c :
  c ≠ 0%R → all_fin t → all_fin (div_scalar t (Fin c)).
Proof.
  intros Hc Hf. unfold all_fin, div_scalar. simpl. apply Forall_fmap.
  eapply Forall_impl; [exact Hf|]. intros [r| | |]; simpl; try done.
  by destruct (Req_dec_T c 0).
Qed.

Lemma zip_with_all_fin (f : fnum → fnum → fnum) (l k : list fnum) :
  (∀ x y, is_fin x → is_fin y → is_fin (f x y)) →
  Forall is_fin l → Forall is_fin k → Forall is_fin (zip_with f l k).
Proof.
  intros Hf Hl. revert k. induction Hl as [|x l Hx _ IH]; intros k Hk; [constructor|].
  destruct Hk as [|y k Hy Hk]; [constructor|]. simpl. constructor; auto.
Qed.

Lemma transpose_shape (t : tensor fnum) sh d0 d1 :
  shape t = sh → d0 < length sh → d1 < length sh →
  ∃ t', transpose t d0 d1 = Ok t' ∧
        t' = permuted (swap_dims (length sh) d0 d1) t ∧
        shape t' = permute_list (swap_dims (length sh) d0 d1) sh ∧
        wf_tensor t' ∧ (all_fin t → all_fin t').
Proof.
  intros <- H0 H1. eexists. split; [by apply transpose_ok|].
  split_and!; [done|done|apply permuted_wf|apply permuted_all_fin].
Qed.

Lemma permute_shape (t : tensor fnum) sh perm :
  shape t = sh → is_perm perm (length sh) = true →
  ∃ t', permute t perm = Ok t' ∧ shape t' = permute_list perm sh ∧
        wf_tensor t' ∧ (all_fin t → all_fin t').
Proof.
  intros <- Hp. unfold permute. rewrite Hp. eexists. split; [done|].
  split_and!; [done|apply permuted_wf|apply permuted_all_fin].
Qed.

(** The second half of the first part of [forward]: masking, folding the
    heads into the batch, and the softmax over the keys. *)
Definition masked_softmax (num_heads : Z) (bsz n : nat)
    (attn_weights : tensor fnum) (attn_mask : option (tensor fnum))
    : result (tensor fnum) :=
  attn_weights ←
    match attn_mask with
    | Some mask => updated attn_weights <$> masked_fill attn_weights (to_bool mask) NInf
    | None => Ok attn_weights
    end;
  w ← transpose attn_weights 0 2;
  w ← reshape w [Z.of_nat n; Z.of_nat n; (Z.of_nat bsz * num_heads)%Z];
  w ← transpose w 0 2;
  softmax w 2.

Ltac go E := rewrite E, result_bind_ok; cbv beta iota.

Section shapes.
Context (m : BiasedMultiheadAttention.t) (h hd bsz n : nat).
Context (tn : tensor fnum) (tb tm : option (tensor fnum)).
Hypothesis Hm : wf_module m h hd.
Hypothesis Hn : shape tn = [bsz; n; h * hd].
Hypothesis Hb : has_shape tb [bsz; n; n; h].

  (** Up to the bias, the first part of [forward] returns and computes
      scores of shape [bsz; n; n; h], finite when the inputs are. *)
Lemma biased_scores :
    ∃ w vh,
      shape w = [bsz; n; n; h] ∧ wf_tensor w ∧
      shape vh = [bsz * h; n; hd] ∧ wf_tensor vh ∧
      (fin_module m → all_fin tn → from_option all_fin True tb → all_fin w) ∧
      (fin_module m → all_fin tn → all_fin vh) ∧
      attention_val m tn tb tm
      = (p ← masked_softmax (BiasedMultiheadAttention.num_heads m) bsz n w tm;
         Ok (p, vh, bsz, n)).
  Proof.
    destruct Hm as [Hh Hhd Hf (c & Hsc & Hc) Hq Hk Hv Ho].
    unfold attention_val. rewrite Hn, Hh, Hhd, Hsc.
    destruct (linear_forward_ok _ _ tn [bsz; n] Hq Hn) as (q & Eq & Hqs & Hqw & Hqf).
    destruct (linear_forward_ok _ _ tn [bsz; n] Hk Hn) as (k & Ek & Hks & Hkw & Hkf).
    destruct (linear_forward_ok _ _ tn [bsz; n] Hv Hn) as (v & Ev & Hvs & Hvw & Hvf).
    simpl in Hqs, Hks, Hvs.
    destruct (transpose_shape q _ 0 1 Hqs) as (q1 & Eq1 & _ & Hq1s & Hq1w & Hq1f);
      [simpl; lia..|].
    destruct (transpose_shape k _ 0 1 Hks) as (k1 & Ek1 & _ & Hk1s & Hk1w & Hk1f);
      [simpl; lia..|].
    destruct (transpose_shape v _ 0 1 Hvs) as (v1 & Ev1 & _ & Hv1s & Hv1w & Hv1f);
      [simpl; lia..|].
    simpl in Hq1s, Hk1s, Hv1s.
    go Eq. go Eq1. go Ek. go Ek1. go Ev. go Ev1.
    simpl unpack3. rewrite result_bind_ok. cbv beta iota.
    rewrite <- !Nat2Z.inj_mul.
    change [Z.of_nat n; Z.of_nat (bsz * h); Z.of_nat hd]
      with (Z.of_nat <$> [n; bsz * h; hd]).
    rewrite (reshape_ok q1 [n; bsz * h; hd]); [|done|rewrite Hq1s; simpl; nia].
    rewrite result_bind_ok. cbv beta iota.
    destruct (transpose_shape (Tensor [n; bsz * h; hd] (data q1)) _ 0 1 eq_refl)
      as (q2 & Eq2 & _ & Hq2s & Hq2w & Hq2f); [simpl; lia..|].
    simpl in Hq2s. go Eq2. simpl div_pynum. rewrite result_bind_ok. cbv beta iota.
    rewrite (reshape_ok k1 [n; bsz * h; hd]); [|done|rewrite Hk1s; simpl; nia].
    rewrite result_bind_ok. cbv beta iota.
    destruct (permute_shape (Tensor [n; bsz * h; hd] (data k1)) _ [1; 2; 0] eq_refl)
      as (k2 & Ek2 & Hk2s & Hk2w & Hk2f); [done|].
    simpl in Hk2s. go Ek2.
    rewrite (reshape_ok v1 [n; bsz * h; hd]); [|done|rewrite Hv1s; simpl; nia].
    rewrite result_bind_ok. cbv beta iota.
    destruct (transpose_shape (Tensor [n; bsz * h; hd] (data v1)) _ 0 1 eq_refl)
      as (v2 & Ev2 & _ & Hv2s & Hv2w & Hv2f); [simpl; lia..|].
    simpl in Hv2s. go Ev2.
    destruct (bmm_ok (div_scalar q2 (Fin c)) k2 (bsz * h) n hd n)
      as (w0 & Ew0 & Hw0s & Hw0w & Hw0f); [done..|].
    go Ew0.
    destruct (transpose_shape w0 _ 0 2 Hw0s) as (w1 & Ew1 & _ & Hw1s & Hw1w & Hw1f);
      [simpl; lia..|].
    simpl in Hw1s. go Ew1.
    change [Z.of_nat n; Z.of_nat n; Z.of_nat bsz; Z.of_nat h]
      with (Z.of_nat <$> [n; n; bsz; h]).
    rewrite (reshape_ok w1 [n; n; bsz; h]); [|done|rewrite Hw1s; simpl; nia].
    rewrite result_bind_ok. cbv beta iota.
    destruct (transpose_shape (Tensor [n; n; bsz; h] (data w1)) _ 0 2 eq_refl)
      as (w2 & Ew2 & _ & Hw2s & Hw2w & Hw2f); [simpl; lia..|].
    simpl in Hw2s. go Ew2.
    assert (fin_module m → all_fin tn → all_fin w2) as Hfin.
    { intros (Fq & Fk & Fv & _) Ftn. apply Hw2f, Hw1f, Hw0f.
      - apply div_scalar_all_fin; [done|]. apply Hq2f, Hq1f, Hqf; done.
      - apply Hk2f, Hk1f, Hkf; done. }
    assert (fin_module m → all_fin tn → all_fin v2) as Hfinv.
    { intros (Fq & Fk & Fv & _) Ftn. apply Hv2f, Hv1f, Hvf; done. }
    assert (∃ w, shape w = [bsz; n; n; h] ∧ wf_tensor w ∧
              (fin_module m → all_fin tn → from_option all_fin True tb → all_fin w) ∧
              match tb with
              | Some b =>
                  updated w2 <$>
                    (if String.eqb (BiasedMultiheadAttention.attn_bias_type m) "add"
                     then inplace_binop fadd w2 b
                     else inplace_binop fmul w2 b)
              | None => Ok w2
              end = Ok w) as (w & Hws & Hww & Hwf & Ew).
    { destruct tb as [b|]; simpl in Hb.
      - destruct Hb as [Hbs Hbw].
        assert (∀ f, (∀ x y, is_fin x → is_fin y → is_fin (f x y)) →
          ∃ w, shape w = [bsz; n; n; h] ∧ wf_tensor w ∧
               (fin_module m → all_fin tn → all_fin b → all_fin w) ∧
               updated w2 <$> inplace_binop f w2 b = Ok w) as Hop.
        { intros f Hff. rewrite inplace_binop_same_shape by (done || congruence).
          exists (updated w2 (zip_with f (data w2) (data b))).
          split_and!; [exact Hw2s| | |done].
          - unfold wf_tensor in *. simpl. rewrite length_zip_with, Hw2w, Hbw, Hbs, Hw2s. lia.
          - intros ? ? Fb. apply zip_with_all_fin; auto. by apply Hfin. }
        destruct (String.eqb _ _); [apply (Hop fadd), is_fin_fadd|apply (Hop fmul), is_fin_fmul].
      - exists w2. split_and!; auto. }
    rewrite Ew.
    exists w, v2. split_and!; try done.
    rewrite !Nat2Z.inj_mul.
    unfold masked_softmax, mbind, result_bind.
    repeat match goal with
           | |- context [match ?r with Ok _ => _ | Raise _ => _ end] => destruct r
           end; done.
  Qed.

Hypothesis Hmk : has_shape tm [bsz; n; n].

  (** With inputs of the documented shapes the first part of [forward]
      returns probabilities of shape [bsz * h; n; n]. *)
Lemma attention_val_ok :
    ∃ p vh, attention_val m tn tb tm = Ok (p, vh, bsz, n) ∧
            shape p = [bsz * h; n; n] ∧ wf_tensor p ∧
            shape vh = [bsz * h; n; hd] ∧ wf_tensor vh.
  Proof.
    destruct biased_scores as (w & vh & Hws & Hww & Hvs & Hvw & _ & _ & ->).
    destruct Hm as [Hh Hhd Hf _ _ _ _ _].
    unfold masked_softmax. rewrite Hh.
    assert (∃ w', shape w' = [bsz; n; n; h] ∧ wf_tensor w' ∧
              match tm with
              | Some mask => updated w <$> masked_fill w (to_bool mask) NInf
              | None => Ok w
              end = Ok w') as (w' & Hws' & Hww' & ->).
    { destruct tm as [mask|]; simpl in Hmk; [|by exists w].
      destruct Hmk as [Hms Hmw]. unfold masked_fill. simpl.
      rewrite Hms, Hws. simpl. rewrite bool_decide_true by done.
      exists (updated w (imap (λ k a, if is_zero (data (to_bool mask) !!! (k `div` numel [h]))
                                      then a else NInf) (data w))).
      split_and!; [exact Hws| |done].
      unfold wf_tensor in *. simpl. by rewrite length_imap. }
    rewrite result_bind_ok. cbv beta iota.
    destruct (transpose_shape w' _ 0 2 Hws') as (w1 & Ew1 & _ & Hw1s & Hw1w & _);
      [simpl; lia..|].
    simpl in Hw1s. go Ew1.
    rewrite <- Nat2Z.inj_mul.
    change [Z.of_nat n; Z.of_nat n; Z.of_nat (bsz * h)]
      with (Z.of_nat <$> [n; n; bsz * h]).
    rewrite (reshape_ok w1 [n; n; bsz * h]); [|done|rewrite Hw1s; simpl; nia].
    rewrite result_bind_ok. cbv beta iota.
    destruct (transpose_shape (Tensor [n; n; bsz * h] (data w1)) _ 0 2 eq_refl)
      as (w2 & Ew2 & _ & Hw2s & Hw2w & _); [simpl; lia..|].
    simpl in Hw2s. go Ew2.
    destruct (softmax_ok w2 2) as (p & Ep & Hps & Hpw); [rewrite Hw2s; simpl; lia|].
    go Ep. exists p, vh. split_and!; try done. congruence.
  Qed.

  (** With inputs of the documented shapes [forward] returns a tensor of
      the shape of its input. *)
Lemma forward_val_ok keep :
    ∃ out, forward_val m keep tn tb tm = Ok out ∧
           shape out = [bsz; n; h * hd] ∧ wf_tensor out.
  Proof.
    destruct attention_val_ok as (p & vh & Eatt & Hps & Hpw & Hvs & Hvw).
    destruct Hm as [Hh Hhd Hf _ _ _ _ Ho].
    unfold forward_val. go Eatt. rewrite Hf.
    assert (shape (Dropout.forward (BiasedMultiheadAttention.dropout m) keep p)
            = [bsz * h; n; n]) as Hds.
    { unfold Dropout.forward, Dropout.noise.
      destruct (Dropout.is_identity _ _); [done|]. by destruct (Req_dec_T _ _). }
    destruct (bmm_ok _ vh _ _ _ _ Hds Hvs) as (a & Ea & Has & Haw & _).
    go Ea.
    destruct (transpose_shape a _ 0 1 Has) as (a1 & Ea1 & _ & Ha1s & Ha1w & _);
      [simpl; lia..|].
    simpl in Ha1s. go Ea1.
    change [Z.of_nat n; Z.of_nat bsz; Z.of_nat (h * hd)]
      with (Z.of_nat <$> [n; bsz; h * hd]).
    rewrite (reshape_ok a1 [n; bsz; h * hd]); [|done|rewrite Ha1s; simpl; nia].
    rewrite result_bind_ok. cbv beta iota.
    destruct (transpose_shape (Tensor [n; bsz; h * hd] (data a1)) _ 0 1 eq_refl)
      as (a2 & Ea2 & _ & Ha2s & Ha2w & _); [simpl; lia..|].
    simpl in Ha2s. go Ea2.
    destruct (linear_forward_ok _ _ a2 [bsz; n] Ho Ha2s) as (out & -> & Hos & How & _).
    by exists out.
  Qed.

End shapes.

(** ** Construction of the attention module *)

Lemma torch_empty_spec dims :
  torch_empty dims
  = if bool_decide (Forall (λ d, 0 ≤ d)%Z dims) then Ok (Z.to_nat <$> dims)
    else Raise RuntimeError.
Proof.
  unfold torch_empty. case_bool_decide as Hex.
  - rewrite bool_decide_false; [done|]. intros Hall.
    apply Exists_exists in Hex as (d & Hd & Hlt).
    rewrite Forall_forall in Hall. specialize (Hall d Hd). lia.
  - rewrite bool_decide_true; [done|]. apply Forall_forall. intros d Hd.
    destruct (decide (0 ≤ d)%Z); [done|]. exfalso. apply Hex, Exists_exists.
    exists d. split; [done|lia].
Qed.

Lemma linear_init_ok fs with_bias u ub :
  (0 ≤ fs)%Z →
  ∃ l, Linear.init fs fs with_bias u ub = Ok l ∧ wf_linear l (Z.to_nat fs).
Proof.
  intros Hfs. unfold Linear.init. rewrite torch_empty_spec.
  rewrite bool_decide_true by (repeat constructor; lia). simpl.
  eexists. split; [done|]. unfold wf_linear. simpl. split_and!.
  - done.
  - unfold wf_tensor. simpl. by rewrite length_fmap, length_seq.
  - destruct with_bias; [|done]. split; [done|].
    unfold wf_tensor. simpl. by rewrite length_fmap, length_seq.
Qed.

Lemma linear_init_neg fs with_bias u ub :
  (fs < 0)%Z → Linear.init fs fs with_bias u ub = Raise RuntimeError.
Proof.
  intros Hfs. unfold Linear.init. rewrite torch_empty_spec.
  rewrite bool_decide_false; [done|]. intros Hall.
  apply Forall_cons in Hall as [? _]. lia.
Qed.

Lemma xavier_uniform_ok w f gain u :
  shape w = [f; f] → 0 < f →
  ∃ w', xavier_uniform_ w gain u = Ok w' ∧ shape w' = [f; f] ∧ wf_tensor w'.
Proof.
  intros Hw Hf. unfold xavier_uniform_. rewrite Hw.
  destruct (Nat.eqb_spec (f + f) 0); [lia|]. eexists. split; [done|].
  split; [done|]. unfold wf_tensor. simpl. by rewrite length_fmap, length_seq.
Qed.

Lemma dropout_init_ok p :
  (0 <= p <= 1)%R → Dropout.init p = Ok (Dropout.Build p true).
Proof.
  intros Hp. unfold Dropout.init.
  destruct (Rlt_dec p 0); [lra|]. destruct (Rlt_dec 1 p); [lra|]. done.
Qed.

Lemma sqrt_IZR_pos z : (0 < z)%Z → (0 < sqrt (IZR z))%R.
Proof. intros Hz. apply sqrt_lt_R0. by apply (IZR_lt 0). Qed.

(** A positive head width gives the scaling factor [1 / sqrt head_dim]. *)
Lemma pow_neg_half_pos z :
  (0 < z)%Z → pow_neg_half z = Ok (PyFloat (Fin (/ sqrt (IZR z)))).
Proof.
  intros Hz. unfold pow_neg_half.
  destruct (Z.eqb_spec z 0); [lia|]. destruct (Z.ltb_spec 0 z); [done|lia].
Qed.

(** What the constructor returns for sizes torch accepts. *)
Lemma attention_init_ok fs nh with_bias ty p u u' :
  (0 < nh)%Z → (0 < fs)%Z → (nh | fs)%Z → (0 <= p <= 1)%R →
  ∃ m, BiasedMultiheadAttention.init fs nh with_bias ty p u u' = Ok m ∧
       wf_module m (Z.to_nat nh) (Z.to_nat (fs / nh)) ∧
       BiasedMultiheadAttention.scaling m = PyFloat (Fin (/ sqrt (IZR (fs / nh)))) ∧
       BiasedMultiheadAttention.attn_bias_type m = ty ∧
       BiasedMultiheadAttention.dropout m = Dropout.Build p true.
Proof.
  intros Hnh Hfs [z Hz] Hp. unfold BiasedMultiheadAttention.init.
  destruct (Z.eqb_spec nh 0); [lia|].
  assert (fs / nh = z)%Z as Hdiv by (subst fs; by apply Z.div_mul).
  assert (0 < z)%Z as Hzpos by nia.
  rewrite Hdiv. destruct (Z.eqb_spec (z * nh) fs); [|lia]. simpl.
  rewrite pow_neg_half_pos by done. simpl.
  destruct (linear_init_ok fs with_bias (u 0) (u 1)) as (q & -> & Hq); [lia|].
  destruct (linear_init_ok fs with_bias (u 2) (u 3)) as (k & -> & Hk); [lia|].
  destruct (linear_init_ok fs with_bias (u 4) (u 5)) as (v & -> & Hv); [lia|].
  destruct (linear_init_ok fs with_bias (u 6) (u 7)) as (o & -> & Ho); [lia|].
  simpl. rewrite dropout_init_ok by done. simpl.
  unfold BiasedMultiheadAttention.reset_parameters. simpl.
  destruct Hq as (Hqs & Hqw & Hqb), Hk as (Hks & Hkw & Hkb),
           Hv as (Hvs & Hvw & Hvb), Ho as (Hos & How & Hob).
  destruct (xavier_uniform_ok _ _ (/ sqrt 2) (u' 0) Hqs) as (qw & -> & Hqs' & Hqw');
    [lia|].
  destruct (xavier_uniform_ok _ _ (/ sqrt 2) (u' 1) Hks) as (kw & -> & Hks' & Hkw');
    [lia|].
  destruct (xavier_uniform_ok _ _ (/ sqrt 2) (u' 2) Hvs) as (vw & -> & Hvs' & Hvw');
    [lia|].
  destruct (xavier_uniform_ok _ _ 1 (u' 3) Hos) as (ow & -> & Hos' & How'); [lia|].
  simpl. eexists. split; [done|]. split_and!; try done.
  assert (Z.to_nat nh * Z.to_nat z = Z.to_nat fs) as Hprod by nia.
  constructor; simpl; rewrite ?Hprod.
  - lia.
  - lia.
  - lia.
  - eexists. split; [done|]. apply Rinv_neq_0_compat.
    pose proof (sqrt_IZR_pos z Hzpos). lra.
  - done.
  - done.
  - done.
  - split_and!; [done..|]. destruct (Linear.bias o) as [b|]; [|done].
    destruct Hob as [Hbs Hbw]. split; [done|].
    unfold wf_tensor in *. simpl. by rewrite length_replicate, Hbs.
Qed.




(** ** Effects of [forward] on the store *)

Definition valid_opt (s : store) (h : option handle) : Prop :=
  from_option (valid s) True h.

Lemma valid_repr s h : valid s h → repr s h (value s h).
Proof. by split. Qed.

Lemma valid_opt_repr s h : valid_opt s h → repr_opt s h (value s <$> h).
Proof. destruct h; simpl; [apply valid_repr|done]. Qed.

Lemma repr_value s h t : repr s h t → value s h = t.
Proof. by intros [_ ?]. Qed.

(** Running [forward] in a store: the outcome and the store it leaves. *)
Lemma forward_run reshape_is_view to_bool_is_noop self keep ndata attn_bias attn_mask s0 :
  valid s0 ndata → valid_opt s0 attn_bias → valid_opt s0 attn_mask →
  ∃ r s1,
    BiasedMultiheadAttention.forward reshape_is_view to_bool_is_noop
      self keep ndata attn_bias attn_mask s0 = (r, s1) ∧
    extends s0 s1 ∧
    match r, forward_val self keep (value s0 ndata)
               (value s0 <$> attn_bias) (value s0 <$> attn_mask) with
    | Ok h, Ok t => repr s1 h t
    | Raise e, Raise e' => e = e'
    | _, _ => False
    end.
Proof.
  intros Hn Hb Hm.
  pose proof (forward_refines reshape_is_view to_bool_is_noop self keep
                ndata attn_bias attn_mask s0 _ _ _
                (valid_repr _ _ Hn) (valid_opt_repr _ _ Hb) (valid_opt_repr _ _ Hm))
    as Hwp.
  unfold wp, forward_post in Hwp.
  destruct (BiasedMultiheadAttention.forward _ _ _ _ _ _ _ s0) as [r s1].
  exists r, s1. by destruct Hwp.
Qed.

(** A handle shows the same tensor in every store that has its buffer. *)
Lemma value_extends s0 s1 h : valid s0 h → extends s0 s1 → value s1 h = value s0 h.
Proof.
  intros Hv Hext. eapply repr_value, repr_extends; [by apply valid_repr|done].
Qed.

Lemma value_opt_extends s0 s1 h :
  valid_opt s0 h → extends s0 s1 → value s1 <$> h = value s0 <$> h.
Proof.
  destruct h as [h|]; simpl; [|done]. intros Hv Hext. f_equal.
  by apply value_extends.
Qed.

Lemma valid_extends s0 s1 h : valid s0 h → extends s0 s1 → valid s1 h.
Proof. intros Hv Hext. eapply repr_extends; [by apply valid_repr|done]. Qed.

Lemma valid_opt_extends s0 s1 h : valid_opt s0 h → extends s0 s1 → valid_opt s1 h.
Proof. destruct h; simpl; [apply valid_extends|done]. Qed.

(** C9. [forward] does not change its inputs: whatever it returns or
    raises, every buffer of the store it was called in is left as it
    was, so [ndata], [attn_bias] and [attn_mask] show the values they
    showed before the call. *)
Theorem forward_leaves_inputs reshape_is_view to_bool_is_noop
    self keep ndata attn_bias attn_mask s0 :
  valid s0 ndata → valid_opt s0 attn_bias → valid_opt s0 attn_mask →
  let s1 := (BiasedMultiheadAttention.forward reshape_is_view to_bool_is_noop
               self keep ndata attn_bias attn_mask s0).2 in
  extends s0 s1 ∧
  value s1 ndata = value s0 ndata ∧
  value s1 <$> attn_bias = value s0 <$> attn_bias ∧
  value s1 <$> attn_mask = value s0 <$> attn_mask.
Proof.
  intros Hn Hb Hm.
  destruct (forward_run reshape_is_view to_bool_is_noop self keep
              ndata attn_bias attn_mask s0 Hn Hb Hm) as (r & s1 & -> & Hext & _).
  simpl. split_and!;
    [done|by apply value_extends|by apply value_opt_extends|by apply value_opt_extends].
Qed.

(** A store with two buffers of 64 numbers, shown as a batch of node
    features of shape (2, 4, 8) and as an all-zero bias of shape
    (2, 4, 4, 2). *)
Definition example_store : store := [replicate 64 (Fin 1); replicate 64 (Fin 0)].
Definition example_ndata : handle := Handle 0 (Tensor [2; 4; 8] (seq 0 64)).
Definition example_bias : handle := Handle 1 (Tensor [2; 4; 4; 2] (seq 0 64)).

Definition example_linear : Linear.t :=
  Linear.Build (uniform_ [8; 8] 1 INR) (Some (constant_ [8] 0)).

(** A module with [feat_size = 8], [num_heads = 2] and [attn_drop = 0]. *)
Definition example_module : BiasedMultiheadAttention.t :=
  BiasedMultiheadAttention.Build 8 2 4 (PyFloat (Fin (/ sqrt 4))) "add"
    example_linear example_linear example_linear example_linear
    (Dropout.Build 0 true).

Lemma example_ndata_valid : valid example_store example_ndata.
Proof.
  exists (replicate 64 (Fin 1)). split_and!; [reflexivity|reflexivity|].
  apply Forall_forall. intros o Ho%elem_of_seq. simpl. lia.
Qed.

Lemma example_bias_valid : valid example_store example_bias.
Proof.
  exists (replicate 64 (Fin 0)). split_and!; [reflexivity|reflexivity|].
  apply Forall_forall. intros o Ho%elem_of_seq. simpl. lia.
Qed.

Lemma example_linear_wf : wf_linear example_linear (2 * 4).
Proof. repeat split. Qed.

Lemma example_module_wf : wf_module example_module 2 4.
Proof.
  constructor; try reflexivity; try apply example_linear_wf.
  eexists. split; [reflexivity|]. apply Rinv_neq_0_compat.
  pose proof (sqrt_IZR_pos 4 ltac:(lia)). lra.
Qed.

Lemma forward_leaves_inputs_witness :
  let s1 := (BiasedMultiheadAttention.forward (λ _ _, true) (λ _, true)
               example_module (λ _, true) example_ndata (Some example_bias) None
               example_store).2 in
  extends example_store s1 ∧
  value s1 example_ndata = value example_store example_ndata ∧
  value s1 <$> Some example_bias = value example_store <$> Some example_bias ∧
  value s1 <$> (None : option handle) = value example_store <$> None.
Proof.
  apply (forward_leaves_inputs (λ _ _, true) (λ _, true) example_module (λ _, true)
           example_ndata (Some example_bias) None example_store).
  - apply example_ndata_valid.
  - apply example_bias_valid.
  - exact I.
Defined.

(** ** Repeated calls *)

(** The dropout layer does nothing: the module is in inference mode or
    the dropout probability is 0. *)
Definition dropout_disabled (m : BiasedMultiheadAttention.t) : Prop :=
  Dropout.training (BiasedMultiheadAttention.dropout m) = false ∨
  Dropout.p (BiasedMultiheadAttention.dropout m) = 0%R.

Lemma dropout_disabled_forward m keep x :
  dropout_disabled m →
  Dropout.forward (BiasedMultiheadAttention.dropout m) keep x = x.
Proof.
  intros Hd. unfold Dropout.forward, Dropout.is_identity.
  destruct Hd as [-> | ->]; [done|].
  destruct (Req_dec_T 0 0); [|done]. by rewrite orb_true_r.
Qed.

Lemma forward_val_keep m keep1 keep2 tn tb tm :
  dropout_disabled m →
  forward_val m keep1 tn tb tm = forward_val m keep2 tn tb tm.
Proof.
  intros Hd. unfold forward_val.
  destruct (attention_val m tn tb tm) as [[[[p vh] bsz] n]|e]; [|done].
  rewrite !result_bind_ok. cbv beta iota.
  by rewrite !dropout_disabled_forward.
Qed.

(** An optional input handle of the expected shape. *)
Definition shaped_opt (h : option handle) (sh : list nat) : Prop :=
  from_option (λ h, shape (view h) = sh) True h.

(** C8. With dropout disabled and fixed parameters, two calls of
    [forward] on the same inputs of shapes [bsz; n; feat_size],
    [bsz; n; n; num_heads] and [bsz; n; n] both return, the tensors they
    return are equal and have shape [bsz; n; feat_size], whatever random
    mask the dropout layer draws; the second call leaves the result of
    the first as it was. *)
Theorem forward_deterministic reshape_is_view to_bool_is_noop
    m h hd bsz n keep1 keep2 ndata attn_bias attn_mask s0 :
  wf_module m h hd → dropout_disabled m →
  valid s0 ndata → valid_opt s0 attn_bias → valid_opt s0 attn_mask →
  shape (view ndata) = [bsz; n; h * hd] →
  shaped_opt attn_bias [bsz; n; n; h] →
  shaped_opt attn_mask [bsz; n; n] →
  ∃ out1 s1 out2 s2,
    BiasedMultiheadAttention.forward reshape_is_view to_bool_is_noop
      m keep1 ndata attn_bias attn_mask s0 = (Ok out1, s1) ∧
    BiasedMultiheadAttention.forward reshape_is_view to_bool_is_noop
      m keep2 ndata attn_bias attn_mask s1 = (Ok out2, s2) ∧
    value s2 out2 = value s1 out1 ∧
    value s2 out1 = value s1 out1 ∧
    shape (value s1 out1) = [bsz; n; h * hd].
Proof.
  intros Hm Hd Hn Hb Hk Hns Hbs Hks.
  assert (has_shape (value s0 <$> attn_bias) [bsz; n; n; h]) as Hbs'.
  { destruct attn_bias as [b|]; simpl in *; [|done]. split; [done|].
    by eapply repr_wf, valid_repr. }
  assert (has_shape (value s0 <$> attn_mask) [bsz; n; n]) as Hks'.
  { destruct attn_mask as [k|]; simpl in *; [|done]. split; [done|].
    by eapply repr_wf, valid_repr. }
  destruct (forward_val_ok m h hd bsz n (value s0 ndata) _ _ Hm Hns Hbs' Hks' keep1)
    as (t & Ht & Hts & _).
  destruct (forward_run reshape_is_view to_bool_is_noop m keep1
              ndata attn_bias attn_mask s0 Hn Hb Hk) as (r1 & s1 & E1 & Hext1 & Hr1).
  rewrite Ht in Hr1. destruct r1 as [out1|]; [|done].
  pose proof (valid_extends _ _ _ Hn Hext1) as Hn1.
  pose proof (valid_opt_extends _ _ _ Hb Hext1) as Hb1.
  pose proof (valid_opt_extends _ _ _ Hk Hext1) as Hk1.
  pose proof (value_extends _ _ _ Hn Hext1) as En.
  pose proof (value_opt_extends _ _ _ Hb Hext1) as Eb.
  pose proof (value_opt_extends _ _ _ Hk Hext1) as Ek.
  destruct (forward_run reshape_is_view to_bool_is_noop m keep2
              ndata attn_bias attn_mask s1 Hn1 Hb1 Hk1) as (r2 & s2 & E2 & Hext2 & Hr2).
  rewrite En, Eb, Ek, (forward_val_keep m keep2 keep1) in Hr2 by done.
  rewrite Ht in Hr2. destruct r2 as [out2|]; [|done].
  exists out1, s1, out2, s2. split_and!; [done|done| | |].
  - by rewrite (repr_value _ _ _ Hr2), (repr_value _ _ _ Hr1).
  - rewrite (repr_value _ _ _ Hr1). eapply repr_value, repr_extends; done.
  - by rewrite (repr_value _ _ _ Hr1).
Qed.

Lemma forward_deterministic_witness :
  ∃ out1 s1 out2 s2,
    BiasedMultiheadAttention.forward (λ _ _, true) (λ _, true)
      example_module (λ _, true) example_ndata (Some example_bias) None example_store
    = (Ok out1, s1) ∧
    BiasedMultiheadAttention.forward (λ _ _, true) (λ _, true)
      example_module (λ _, false) example_ndata (Some example_bias) None s1
    = (Ok out2, s2) ∧
    value s2 out2 = value s1 out1 ∧
    value s2 out1 = value s1 out1 ∧
    shape (value s1 out1) = [2; 4; 2 * 4].
Proof.
  apply (forward_deterministic (λ _ _, true) (λ _, true) example_module 2 4 2 4
           (λ _, true) (λ _, false) example_ndata (Some example_bias) None example_store).
  - apply example_module_wf.
  - right. reflexivity.
  - apply example_ndata_valid.
  - apply example_bias_valid.
  - exact I.
  - reflexivity.
  - reflexivity.
  - exact I.
Defined.

(** ** Masked attention *)

(** The element of a tensor at a multi-index. *)
Definition at_index {A} `{Inhabited A} (t : tensor A) (idx : list nat) : A :=
  data t !!! ravel (shape t) idx.

Lemma ravel3 a b c i j k : ravel [a; b; c] [i; j; k] = (i * b + j) * c + k.
Proof. unfold ravel, dot. simpl. lia. Qed.

Lemma ravel4 a b c d i j k l :
  ravel [a; b; c; d] [i; j; k; l] = ((i * b + j) * c + k) * d + l.
Proof. unfold ravel, dot. simpl. lia. Qed.

Lemma at_index_permuted {A} `{Inhabited A} perm (t : tensor A) idx :
  Forall2 lt idx (permute_list perm (shape t)) →
  at_index (permuted perm t) idx
  = data t !!! dot idx (permute_list perm (strides (shape t))).
Proof. intros Hidx. unfold at_index, permuted. simpl. by apply gather_strided_at. Qed.

(** *** The softmax of a row with masked entries *)

(** A score is a finite number or, when masked, minus infinity. *)
Definition score (x : fnum) : Prop := is_fin x ∨ x = NInf.





(** *** Where a score ends up when the heads are folded into the batch *)

(** Element [(b * h + hh, i, j)] of the tensor handed to the softmax is
    element [(b, i, j, hh)] of the scores. *)
Lemma folded_scores_at (w : tensor fnum) bsz n h b i j hh :
  shape w = [bsz; n; n; h] →
  b < bsz → i < n → j < n → hh < h →
  data (permuted (swap_dims 3 0 2)
          (Tensor [n; n; bsz * h] (data (permuted (swap_dims 4 0 2) w))))
    !!! (((b * h + hh) * n + i) * n + j)
  = data w !!! (((b * n + i) * n + j) * h + hh).
Proof.
  intros Hw Hb Hi Hj Hhh.
  rewrite <- (ravel3 (bsz * h) n n (b * h + hh) i j).
  unfold permuted at 1. cbn [shape data].
  change (permute_list (swap_dims 3 0 2) [n; n; bsz * h]) with [bsz * h; n; n].
  rewrite gather_strided_at by (repeat constructor; nia).
  replace (dot [b * h + hh; i; j]
             (permute_list (swap_dims 3 0 2) (strides [n; n; bsz * h])))
    with (ravel [n; n; bsz; h] [j; i; b; hh])
    by (unfold ravel, dot; simpl; nia).
  unfold permuted. cbn [shape data]. rewrite Hw.
  change (permute_list (swap_dims 4 0 2) [bsz; n; n; h]) with [n; n; bsz; h].
  rewrite gather_strided_at by (repeat constructor; lia).
  f_equal. unfold dot. simpl. nia.
Qed.

(** After [x[mask] = -inf] an element is minus infinity where the mask
    is non-zero and is left alone elsewhere. *)
Lemma masked_fill_at (w mask : tensor fnum) bsz n h vals b i j hh :
  shape w = [bsz; n; n; h] → wf_tensor w →
  shape mask = [bsz; n; n] →
  masked_fill w (to_bool mask) NInf = Ok vals →
  b < bsz → i < n → j < n → hh < h →
  vals !!! (((b * n + i) * n + j) * h + hh)
  = if is_zero (at_index mask [b; i; j])
    then data w !!! (((b * n + i) * n + j) * h + hh)
    else NInf.
Proof.
  intros Hw Hwf Hm Hfill Hb Hi Hj Hhh.
  rewrite masked_fill_to_bool in Hfill. unfold masked_fill in Hfill.
  rewrite Hm, Hw in Hfill. simpl in Hfill.
  rewrite bool_decide_true in Hfill by done. injection Hfill as <-.
  assert (((b * n + i) * n + j) * h + hh < length (data w)) as Hlt.
  { rewrite Hwf, Hw, <- (ravel4 bsz n n h).
    apply (ravel_lt [bsz; n; n; h]). repeat constructor; lia. }
  destruct (lookup_lt_is_Some_2 _ _ Hlt) as [x Hx].
  rewrite (list_lookup_total_correct _ _ _ Hx).
  apply list_lookup_total_correct. rewrite list_lookup_imap, Hx. simpl.
  unfold at_index. rewrite Hm, ravel3.
  replace ((((b * n + i) * n + j) * h + hh) `div` (h * 1)) with ((b * n + i) * n + j);
    [done|].
  rewrite Nat.mul_1_r. apply Nat.div_unique with hh; lia.
Qed.

(** The row of the softmax through position [(r, i, j)] of a 3-D tensor,
    taken along the last dimension. *)
Lemma softmax_last_at (x p : tensor fnum) a n r i j :
  shape x = [a; n; n] → softmax x 2 = Ok p →
  r < a → i < n → j < n →
  at_index p [r; i; j]
  = softmax_row ((λ l, data x !!! ((r * n + i) * n + l)) <$> seq 0 n) !!! j.
Proof.
  intros Hx Hp Hr Hi Hj. unfold softmax in Hp. rewrite Hx in Hp.
  change (2 <? length [a; n; n]) with true in Hp. cbv iota in Hp.
  change (strides [a; n; n] !!! 2) with 1 in Hp.
  change ([a; n; n] !!! 2) with n in Hp.
  injection Hp as <-. unfold at_index. cbn [shape data]. rewrite ravel3.
  assert ((r * n + i) * n + j < numel [a; n; n]) as Hlt.
  { rewrite <- (ravel3 a n n). apply (ravel_lt [a; n; n]). repeat constructor; lia. }
  erewrite list_lookup_total_correct;
    [|rewrite list_lookup_fmap, lookup_seq_lt by done; reflexivity].
  cbv beta zeta. change (fst (Nat.divmod ?k 0 0 0)) with (k / 1).
  rewrite Nat.add_0_l, Nat.div_1_r, Nat.mul_1_r.
  replace (((r * n + i) * n + j) `mod` n) with j
    by (rewrite Nat.add_comm, Nat.Div0.mod_add; by rewrite Nat.mod_small).
  f_equal. f_equal. apply list_fmap_ext. intros _ l _. f_equal. lia.
Qed.



(** The example store with a third buffer, shown as a mask of shape
    (2, 4, 4) that hides the last key from every query. *)
Definition masked_store : store :=
  example_store ++ [(λ o, Fin (if o mod 4 =? 3 then 1 else 0)) <$> seq 0 32].
Definition example_mask : handle := Handle 2 (Tensor [2; 4; 4] (seq 0 32)).



(** ** The scaling of the query *)

(** A module with one head of width 4 whose four projections are the
    identity, without bias and with [attn_drop = 0]; its scaling factor
    is the one the constructor computes for [head_dim = 4]. *)
Definition identity_linear : Linear.t :=
  Linear.Build
    (Tensor [4; 4] (Fin <$> [1; 0; 0; 0;  0; 1; 0; 0;  0; 0; 1; 0;  0; 0; 0; 1]%R))
    None.

Definition one_head_module : BiasedMultiheadAttention.t :=
  BiasedMultiheadAttention.Build 4 1 4 (PyFloat (Fin (/ sqrt 4))) "add"
    identity_linear identity_linear identity_linear identity_linear
    (Dropout.Build 0 true).

(** One graph with two nodes, of features (1, 0, 0, 0) and (0, 0, 0, 0). *)
Definition two_nodes : tensor fnum :=
  Tensor [1; 2; 4] (Fin <$> [1; 0; 0; 0;  0; 0; 0; 0]%R).

Definition two_nodes_store : store := [data two_nodes].
Definition two_nodes_handle : handle := Handle 0 (Tensor [1; 2; 4] (seq 0 8)).

Lemma one_head_scaling :
  pow_neg_half (BiasedMultiheadAttention.head_dim one_head_module)
  = Ok (BiasedMultiheadAttention.scaling one_head_module).
Proof. reflexivity. Qed.

Lemma sqrt_4 : sqrt 4 = 2%R.
Proof. replace 4%R with (2 * 2)%R by lra. apply sqrt_square. lra. Qed.

Lemma INR_4 : INR 4 = 4%R.
Proof. simpl. lra. Qed.

Lemma fdiv_fin a c : c ≠ 0%R → fdiv (Fin a) (Fin c) = Fin (a / c).
Proof. intros Hc. simpl. by destruct (Req_dec_T c 0). Qed.

(** Evaluation of the value program on concrete tensors, one operation
    at a time; real arithmetic is left symbolic. *)
Ltac eval_op op :=
  let t := eval cbv -[Rplus Rmult Rminus Ropp Rinv Rdiv exp sqrt Rmax IZR INR fdiv] in op in
  change op with t.

Ltac rsimp :=
  rewrite ?Rmult_0_l, ?Rmult_0_r, ?Rmult_1_l, ?Rmult_1_r, ?Rplus_0_l, ?Rplus_0_r.

Ltac exp_facts :=
  repeat match goal with
  | |- context [exp ?a] =>
      lazymatch goal with
      | _ : (0 < exp a)%R |- _ => fail
      | _ => pose proof (exp_pos a)
      end
  end.

Ltac stage :=
  match goal with
  | |- context [@mbind result _ _ _ ?k ?op] =>
      lazymatch op with
      | @mbind _ _ _ _ _ _ => fail
      | _ => try rewrite dropout_disabled_forward by (right; reflexivity);
             eval_op op; rewrite ?result_bind_ok; cbv beta iota; rsimp;
             rewrite ?sqrt_4; rewrite ?fdiv_fin by (exp_facts; lra)
      end
  end.

Ltac eval_last :=
  match goal with
  | |- context [Linear.forward ?l ?x] =>
      eval_op (Linear.forward l x); rsimp
  end.

(** What [forward] computes for the two nodes: the first node gives its
    own key the weight [1 / (1 + exp (-2))], the weight of the scores
    [(2, 0)]. *)
Lemma two_nodes_forward_val keep :
  ∃ y,
    forward_val one_head_module keep two_nodes None None
    = Ok (Tensor [1; 2; 4]
            (Fin <$> [(/ (1 + exp (- 2)))%R; 0; 0; 0;  y; 0; 0; 0]%R)).
Proof.
  unfold forward_val, attention_val.
  repeat stage. eval_last.
  eexists. f_equal. f_equal. cbn [fmap list_fmap].
  f_equal.
  replace (1 / / 2)%R with 2%R by lra.
  rewrite Rmax_left by lra.
  rewrite Rplus_opp_r, exp_0.
  pose proof (exp_pos (- 2)). unfold Rdiv. rewrite Rmult_1_l. reflexivity.
Qed.

(** What standard attention computes for them: the scores are
    [(1/2, 0)] and the weight is [1 / (1 + exp (-1/2))]. *)
Lemma two_nodes_standard :
  ∃ y,
    standard_attention one_head_module two_nodes
    = Ok (Tensor [1; 2; 4]
            (Fin <$> [(/ (1 + exp (- (1 / 2))))%R; 0; 0; 0;  y; 0; 0; 0]%R)).
Proof.
  unfold standard_attention.
  repeat stage.
  match goal with
  | |- context [Linear.forward ?l ?x] => eval_op x
  end.
  rsimp. rewrite INR_4, sqrt_4.
  rewrite !fdiv_fin by (exp_facts; lra).
  eval_last.
  eexists. f_equal. f_equal. cbn [fmap list_fmap].
  f_equal.
  rewrite Rmax_left by lra.
  rewrite Rplus_opp_r, exp_0.
  unfold Rdiv. rewrite Rmult_1_l.
  replace (- (1 * / 2))%R with (- / 2)%R by lra. reflexivity.
Qed.

(** Dividing by the scaling factor of a constructed module multiplies by
    [sqrt head_dim]. *)
Lemma div_by_scaling (hd : Z) (s : pynum) (a : R) :
  (0 < hd)%Z → pow_neg_half hd = Ok s →
  s = PyFloat (Fin (/ sqrt (IZR hd))) ∧
  fdiv (Fin a) (Fin (/ sqrt (IZR hd))) = Fin (a * sqrt (IZR hd)).
Proof.
  intros Hhd E. unfold pow_neg_half in E.
  destruct (Z.eqb_spec hd 0) as [|_]; [lia|].
  destruct (Z.ltb_spec 0 hd) as [_|]; [|lia].
  split; [congruence|].
  assert (0 < sqrt (IZR hd))%R as Hpos by (apply sqrt_lt_R0, IZR_lt; lia).
  assert (/ sqrt (IZR hd) ≠ 0)%R as Hne by (apply Rinv_neq_0_compat; lra).
  rewrite fdiv_fin by done. f_equal. unfold Rdiv. by rewrite Rinv_inv.
Qed.

Lemma two_nodes_valid : valid two_nodes_store two_nodes_handle.
Proof.
  exists (data two_nodes). split_and!; [reflexivity|reflexivity|].
  apply Forall_forall. intros o Ho%elem_of_seq. simpl. lia.
Qed.

Lemma two_nodes_value : value two_nodes_store two_nodes_handle = two_nodes.
Proof. reflexivity. Qed.

Lemma weights_differ : (/ (1 + exp (- 2)) ≠ / (1 + exp (- (1 / 2))))%R.
Proof.
  intros E. apply Rinv_eq_reg in E.
  assert (exp (- 2) < exp (- (1 / 2)))%R by (apply exp_increasing; lra).
  lra.
Qed.

(** C1 (fails in the code): [forward] divides the query by
    [scaling = head_dim ** -0.5], so the query is multiplied by
    [sqrt head_dim] and not by [1 / sqrt head_dim].  For one head of
    width 4 with identity projections, no bias, no mask and no dropout,
    and the two nodes (1, 0, 0, 0) and (0, 0, 0, 0), the call returns,
    and the first entry of its output is [1 / (1 + exp (-2))], the
    weight of the scores (2, 0); standard scaled dot-product attention
    has the scores (1/2, 0) and the first entry [1 / (1 + exp (-1/2))].
    The two outputs differ. *)
Theorem forward_divides_by_scaling
    (reshape_is_view : handle → list nat → bool)
    (to_bool_is_noop : handle → bool) (keep : nat → bool) :
  pow_neg_half (BiasedMultiheadAttention.head_dim one_head_module)
  = Ok (BiasedMultiheadAttention.scaling one_head_module) ∧
  ∃ out s1 ref,
    BiasedMultiheadAttention.forward reshape_is_view to_bool_is_noop
      one_head_module keep two_nodes_handle None None two_nodes_store
    = (Ok out, s1) ∧
    standard_attention one_head_module two_nodes = Ok ref ∧
    shape (value s1 out) = [1; 2; 4] ∧ shape ref = [1; 2; 4] ∧
    data (value s1 out) !!! 0 = Fin (/ (1 + exp (- 2))) ∧
    data ref !!! 0 = Fin (/ (1 + exp (- (1 / 2)))) ∧
    value s1 out ≠ ref.
Proof.
  split; [reflexivity|].
  destruct (forward_run reshape_is_view to_bool_is_noop one_head_module keep
              two_nodes_handle None None two_nodes_store
              two_nodes_valid I I) as (r & s1 & E & _ & Hr).
  rewrite two_nodes_value in Hr. simpl in Hr.
  destruct (two_nodes_forward_val keep) as [y Ey]. rewrite Ey in Hr.
  destruct r as [out|]; [|done]. destruct Hr as [_ Hv].
  destruct two_nodes_standard as [y' Ey'].
  eexists out, s1, _. split; [exact E|]. split; [exact Ey'|].
  rewrite Hv. split_and!; try reflexivity.
  intros Heq. injection Heq as Heq _. by apply weights_differ.
Qed.

(** ** DegreeEncoder: what [forward] returns, row by row *)

(** Conversion to a homogeneous graph keeps the number of nodes. *)
Lemma num_nodes_homogeneous g : num_nodes (DegreeEncoder.homogeneous g) = num_nodes g.
Proof.
  unfold DegreeEncoder.homogeneous. destruct (_ || _); [|done].
  unfold to_homogeneous, num_nodes. simpl. lia.
Qed.

(** The clamped in-degree and out-degree of a node: degrees are not
    negative, so only the upper bound acts. *)
Lemma in_degree_lookup m g v :
  v < num_nodes g →
  data (DegreeEncoder.in_degree m g) !! v
  = Some (Z.min (data (in_degrees (DegreeEncoder.homogeneous g)) !!! v)
                (DegreeEncoder.max_degree m)).
Proof.
  intros Hv. rewrite <- num_nodes_homogeneous in Hv.
  unfold DegreeEncoder.in_degree, clamp, in_degrees. cbn [data].
  rewrite !list_lookup_fmap, lookup_seq_lt by done. simpl. f_equal.
  erewrite list_lookup_total_correct;
    [|rewrite list_lookup_fmap, lookup_seq_lt by done; reflexivity].
  rewrite Nat.add_0_l. lia.
Qed.

Lemma out_degree_lookup m g v :
  v < num_nodes g →
  data (DegreeEncoder.out_degree m g) !! v
  = Some (Z.min (data (out_degrees (DegreeEncoder.homogeneous g)) !!! v)
                (DegreeEncoder.max_degree m)).
Proof.
  intros Hv. rewrite <- num_nodes_homogeneous in Hv.
  unfold DegreeEncoder.out_degree, clamp, out_degrees. cbn [data].
  rewrite !list_lookup_fmap, lookup_seq_lt by done. simpl. f_equal.
  erewrite list_lookup_total_correct;
    [|rewrite list_lookup_fmap, lookup_seq_lt by done; reflexivity].
  rewrite Nat.add_0_l. lia.
Qed.

(** Entry [j] of the row that index [i] selects in a fresh table. *)
Definition fresh_row (md dim : Z) (u : nat → R) (i : Z) (j : nat) : fnum :=
  data (fresh_table (md + 1) dim u) !!! (Z.to_nat i * Z.to_nat dim + j).

Lemma lookup_rows_fresh md dim u (idx : tensor Z) v i j :
  (0 ≤ md)%Z →
  Forall (λ i, 0 ≤ i < Z.of_nat (Z.to_nat (md + 1)))%Z (data idx) →
  data idx !! v = Some i → j < Z.to_nat dim →
  data (lookup_rows (Embedding.Build (md + 1) dim 0 (fresh_table (md + 1) dim u))
          (Z.to_nat dim) idx) !! (v * Z.to_nat dim + j)
  = Some (fresh_row md dim u i j).
Proof.
  intros Hmd Hin Hv Hj. unfold lookup_rows. cbn [data Embedding.weight].
  rewrite (rows_lookup _ (Z.to_nat (md + 1)) _ _ v i);
    [|done|apply fresh_table_wf|done|done|done].
  rewrite (table_row_lookup _ (Z.to_nat (md + 1))) by done.
  unfold fresh_row. apply list_lookup_lookup_total_lt.
  pose proof (fresh_table_wf (md + 1) dim u) as Hwf. unfold wf_tensor in Hwf.
  rewrite Hwf. eapply Forall_lookup_1 in Hin; [|exact Hv]. simpl in Hin.
  unfold fresh_table. simpl. nia.
Qed.

(** What [forward] of a constructed instance returns: one row per node,
    selected by the clamped degrees of the node. *)
Lemma constructed_rows md dim dir u1 u2 m g v j :
  DegreeEncoder.init md dim dir u1 u2 = Ok m →
  dir ∈ ["in"; "out"; "both"]%string →
  v < num_nodes g → j < Z.to_nat dim →
  ∃ out i o,
    DegreeEncoder.forward m g = Ok out ∧
    shape out = [num_nodes g; Z.to_nat dim] ∧
    data (DegreeEncoder.in_degree m g) !! v = Some i ∧
    data (DegreeEncoder.out_degree m g) !! v = Some o ∧
    data out !! (v * Z.to_nat dim + j)
    = Some (if String.eqb dir "in" then fresh_row md dim u1 i j
            else if String.eqb dir "out" then fresh_row md dim u1 o j
            else fadd (fresh_row md dim u1 i j) (fresh_row md dim u2 o j)).
Proof.
  intros Hinit Hdir Hv Hj.
  apply degree_encoder_init_inv in Hinit as (Hmd & Hdim & ->).
  rewrite <- (num_nodes_homogeneous g).
  apply elem_of_cons in Hdir as [->|Hdir]; [|apply elem_of_cons in Hdir as [->|Hdir]];
    [| |apply list_elem_of_singleton in Hdir as ->];
    cbn [String.eqb Ascii.eqb Bool.eqb];
    match goal with |- context [DegreeEncoder.forward ?m0 _] => set (m := m0) end;
    pose proof (in_degree_lookup m g v Hv) as Hi;
    pose proof (out_degree_lookup m g v Hv) as Ho;
    pose proof (in_degree_in_table m g Hmd) as Hin;
    pose proof (out_degree_in_table m g Hmd) as Hout;
    eexists _, _, _; (split_and!; [| |exact Hi|exact Ho|]).
  - by eapply (degree_encoder_forward_in m g (Z.to_nat dim)).
  - done.
  - by apply lookup_rows_fresh.
  - by eapply (degree_encoder_forward_out m g (Z.to_nat dim)).
  - done.
  - by apply lookup_rows_fresh.
  - eapply (degree_encoder_forward_both m g (Z.to_nat dim)); try done;
      apply fresh_table_wf.
  - done.
  - cbn [data]. apply lookup_zip_with_Some. eexists _, _. split_and!; [done|..];
      by apply lookup_rows_fresh.
Qed.

Lemma constructed_forward_ok md dim dir u1 u2 m g :
  DegreeEncoder.init md dim dir u1 u2 = Ok m →
  dir ∈ ["in"; "out"; "both"]%string →
  ∃ out, DegreeEncoder.forward m g = Ok out.
Proof.
  intros Hinit Hdir.
  apply degree_encoder_init_inv in Hinit as (Hmd & Hdim & ->).
  apply elem_of_cons in Hdir as [->|Hdir]; [|apply elem_of_cons in Hdir as [->|Hdir]];
    [| |apply list_elem_of_singleton in Hdir as ->];
    cbn [String.eqb Ascii.eqb Bool.eqb]; eexists.
  - by eapply (degree_encoder_forward_in _ _ (Z.to_nat dim)).
  - by eapply (degree_encoder_forward_out _ _ (Z.to_nat dim)).
  - eapply (degree_encoder_forward_both _ _ (Z.to_nat dim)); try done;
      apply fresh_table_wf.
Qed.

(** X1. [forward] of a constructed encoder with a recognised direction
    returns one row of [embedding_dim] entries per node of the graph
    (all node types counted).  The row of node [v] is the row of the
    table that the degree of [v], cut off at [max_degree], selects: the
    in-degree for "in", the out-degree for "out", and for "both" the sum
    of the row the in-degree selects in the first table and the row the
    out-degree selects in the second. *)
Theorem degree_encoder_row_by_degree md dim dir u1 u2 m g v j :
  DegreeEncoder.init md dim dir u1 u2 = Ok m →
  dir ∈ ["in"; "out"; "both"]%string →
  v < num_nodes g → j < Z.to_nat dim →
  ∃ out,
    DegreeEncoder.forward m g = Ok out ∧
    shape out = [num_nodes g; Z.to_nat dim] ∧
    let i := Z.min (data (in_degrees (DegreeEncoder.homogeneous g)) !!! v) md in
    let o := Z.min (data (out_degrees (DegreeEncoder.homogeneous g)) !!! v) md in
    data out !! (v * Z.to_nat dim + j)
    = Some (if String.eqb dir "in" then fresh_row md dim u1 i j
            else if String.eqb dir "out" then fresh_row md dim u1 o j
            else fadd (fresh_row md dim u1 i j) (fresh_row md dim u2 o j)).
Proof.
  intros Hinit Hdir Hv Hj.
  destruct (constructed_rows _ _ _ _ _ _ g v j Hinit Hdir Hv Hj)
    as (out & i & o & Hfw & Hsh & Hi & Ho & Hrow).
  apply degree_encoder_init_inv in Hinit as (_ & _ & Hm).
  assert (DegreeEncoder.max_degree m = md) as Hmax
    by (rewrite Hm; by destruct (String.eqb dir "both")).
  rewrite in_degree_lookup, Hmax in Hi by done. injection Hi as <-.
  rewrite out_degree_lookup, Hmax in Ho by done. injection Ho as <-.
  by exists out.
Qed.

Lemma degree_encoder_row_by_degree_witness :
  ∃ out,
    DegreeEncoder.forward (encoder_both 2 (example_table INR) (example_table INR))
      example_graph = Ok out ∧
    shape out = [num_nodes example_graph; Z.to_nat 2] ∧
    let i := Z.min (data (in_degrees (DegreeEncoder.homogeneous example_graph)) !!! 0) 2 in
    let o := Z.min (data (out_degrees (DegreeEncoder.homogeneous example_graph)) !!! 0) 2 in
    data out !! (0 * Z.to_nat 2 + 1)
    = Some (if String.eqb "both" "in" then fresh_row 2 2 INR i 1
            else if String.eqb "both" "out" then fresh_row 2 2 INR o 1
            else fadd (fresh_row 2 2 INR i 1) (fresh_row 2 2 INR o 1)).
Proof.
  apply (degree_encoder_row_by_degree 2 2 "both" INR INR
           (encoder_both 2 (example_table INR) (example_table INR)) example_graph 0 1).
  - reflexivity.
  - rewrite !elem_of_cons. tauto.
  - vm_compute. lia.
  - simpl. lia.
Defined.

(** X2. Two nodes whose degrees agree after the cut at [max_degree] get
    the same row: in particular all nodes of degree [max_degree] or more
    share one embedding.  The in-degrees count for "in" and "both", the
    out-degrees for "out" and "both". *)
Theorem degree_encoder_saturates md dim dir u1 u2 m g v v' :
  DegreeEncoder.init md dim dir u1 u2 = Ok m →
  dir ∈ ["in"; "out"; "both"]%string →
  v < num_nodes g → v' < num_nodes g →
  (dir ≠ "out"%string →
   Z.min (data (in_degrees (DegreeEncoder.homogeneous g)) !!! v) md
   = Z.min (data (in_degrees (DegreeEncoder.homogeneous g)) !!! v') md) →
  (dir ≠ "in"%string →
   Z.min (data (out_degrees (DegreeEncoder.homogeneous g)) !!! v) md
   = Z.min (data (out_degrees (DegreeEncoder.homogeneous g)) !!! v') md) →
  ∃ out,
    DegreeEncoder.forward m g = Ok out ∧
    ∀ j, j < Z.to_nat dim →
      data out !! (v * Z.to_nat dim + j) = data out !! (v' * Z.to_nat dim + j).
Proof.
  intros Hinit Hdir Hv Hv' Hin Hout.
  destruct (constructed_forward_ok _ _ _ _ _ _ g Hinit Hdir) as [out Hfw].
  exists out. split; [done|]. intros j Hj.
  destruct (constructed_rows _ _ _ _ _ _ g v j Hinit Hdir Hv Hj)
    as (out1 & i & o & Hfw1 & _ & Hi & Ho & Hr).
  destruct (constructed_rows _ _ _ _ _ _ g v' j Hinit Hdir Hv' Hj)
    as (out2 & i' & o' & Hfw2 & _ & Hi' & Ho' & Hr').
  rewrite Hfw in Hfw1, Hfw2. injection Hfw1 as <-. injection Hfw2 as <-.
  rewrite Hr, Hr'.
  apply degree_encoder_init_inv in Hinit as (_ & _ & Hm).
  assert (DegreeEncoder.max_degree m = md) as Hmax
    by (rewrite Hm; by destruct (String.eqb dir "both")).
  rewrite in_degree_lookup, Hmax in Hi, Hi' by done.
  rewrite out_degree_lookup, Hmax in Ho, Ho' by done.
  assert (∀ (x y : Z), Some x = Some y → y = x) as Hinj by congruence.
  apply Hinj in Hi as ->, Hi' as ->, Ho as ->, Ho' as ->.
  destruct (String.eqb_spec dir "in") as [->|Hni].
  { by rewrite Hin. }
  destruct (String.eqb_spec dir "out") as [->|Hno].
  { by rewrite Hout. }
  by rewrite Hin, Hout.
Qed.

Lemma degree_encoder_saturates_witness :
  ∃ out,
    DegreeEncoder.forward (encoder_both 2 (example_table INR) (example_table INR))
      example_graph = Ok out ∧
    ∀ j, j < Z.to_nat 2 →
      data out !! (0 * Z.to_nat 2 + j) = data out !! (1 * Z.to_nat 2 + j).
Proof.
  apply (degree_encoder_saturates 2 2 "both" INR INR
           (encoder_both 2 (example_table INR) (example_table INR)) example_graph 0 1).
  - reflexivity.
  - rewrite !elem_of_cons. tauto.
  - vm_compute. lia.
  - vm_compute. lia.
  - intros _. vm_compute. reflexivity.
  - intros _. vm_compute. reflexivity.
Defined.


(** X4. The tables an instance has are fixed by the direction given to
    the constructor.  When the direction attribute is later changed
    between "both" and one of "in" and "out", [forward] looks for a table
    the instance does not have and raises [AttributeError]. *)
Theorem degree_encoder_direction_switch md dim dir dir' u1 u2 m g :
  DegreeEncoder.init md dim dir u1 u2 = Ok m →
  dir' ∈ ["in"; "out"; "both"]%string →
  String.eqb dir "both" ≠ String.eqb dir' "both" →
  DegreeEncoder.forward
    (DegreeEncoder.Build dir' (DegreeEncoder.degree_encoder m)
       (DegreeEncoder.degree_encoder_1 m) (DegreeEncoder.degree_encoder_2 m)
       (DegreeEncoder.max_degree m)) g
  = Raise AttributeError.
Proof.
  intros Hinit Hdir' Hne.
  apply degree_encoder_init_inv in Hinit as (_ & _ & ->).
  apply elem_of_cons in Hdir' as [->|Hdir'];
    [|apply elem_of_cons in Hdir' as [->|Hdir']];
    [| |apply list_elem_of_singleton in Hdir' as ->];
    destruct (String.eqb dir "both"); done.
Qed.

Lemma degree_encoder_direction_switch_witness :
  DegreeEncoder.forward
    (DegreeEncoder.Build "in"
       (DegreeEncoder.degree_encoder
          (encoder_both 2 (example_table INR) (example_table INR)))
       (DegreeEncoder.degree_encoder_1
          (encoder_both 2 (example_table INR) (example_table INR)))
       (DegreeEncoder.degree_encoder_2
          (encoder_both 2 (example_table INR) (example_table INR)))
       (DegreeEncoder.max_degree
          (encoder_both 2 (example_table INR) (example_table INR)))) example_graph
  = Raise AttributeError.
Proof.
  apply (degree_encoder_direction_switch 2 2 "both" "in" INR INR
           (encoder_both 2 (example_table INR) (example_table INR)) example_graph).
  - reflexivity.
  - rewrite !elem_of_cons. tauto.
  - simpl. discriminate.
Defined.

(** ** What the attention module computes, element by element *)

(** *** Where an element goes when heads are split off and merged *)

(** [t.transpose(0, 1).reshape(n, bsz * h, hd).transpose(0, 1)] on a
    tensor of shape [bsz; n; h * hd]: element [(b * h + hh, i, c)] of the
    result is element [(b, i, hh * hd + c)] of [t]. *)
Lemma split_heads_at (t : tensor fnum) bsz n h hd b hh i c :
  shape t = [bsz; n; h * hd] →
  b < bsz → i < n → hh < h → c < hd →
  data (permuted (swap_dims 3 0 1)
          (Tensor [n; bsz * h; hd] (data (permuted (swap_dims 3 0 1) t))))
    !!! (((b * h + hh) * n + i) * hd + c)
  = data t !!! ((b * n + i) * (h * hd) + (hh * hd + c)).
Proof.
  intros Ht Hb Hi Hhh Hc.
  rewrite <- (ravel3 (bsz * h) n hd (b * h + hh) i c).
  unfold permuted at 1. cbn [shape data].
  change (permute_list (swap_dims 3 0 1) [n; bsz * h; hd]) with [bsz * h; n; hd].
  rewrite gather_strided_at by (repeat constructor; nia).
  replace (dot [b * h + hh; i; c]
             (permute_list (swap_dims 3 0 1) (strides [n; bsz * h; hd])))
    with (ravel [n; bsz; h * hd] [i; b; hh * hd + c])
    by (unfold ravel, dot; simpl; nia).
  unfold permuted. cbn [shape data]. rewrite Ht.
  change (permute_list (swap_dims 3 0 1) [bsz; n; h * hd]) with [n; bsz; h * hd].
  rewrite gather_strided_at by (repeat constructor; nia).
  f_equal. unfold dot. simpl. nia.
Qed.

(** [t.transpose(0, 1).reshape(n, bsz * h, hd).permute(1, 2, 0)]:
    element [(b * h + hh, c, j)] of the result is element
    [(b, j, hh * hd + c)] of [t]. *)
Lemma split_keys_at (t : tensor fnum) bsz n h hd b hh j c :
  shape t = [bsz; n; h * hd] →
  b < bsz → j < n → hh < h → c < hd →
  data (permuted [1; 2; 0]
          (Tensor [n; bsz * h; hd] (data (permuted (swap_dims 3 0 1) t))))
    !!! (((b * h + hh) * hd + c) * n + j)
  = data t !!! ((b * n + j) * (h * hd) + (hh * hd + c)).
Proof.
  intros Ht Hb Hj Hhh Hc.
  rewrite <- (ravel3 (bsz * h) hd n (b * h + hh) c j).
  unfold permuted at 1. cbn [shape data].
  change (permute_list [1; 2; 0] [n; bsz * h; hd]) with [bsz * h; hd; n].
  rewrite gather_strided_at by (repeat constructor; nia).
  replace (dot [b * h + hh; c; j]
             (permute_list [1; 2; 0] (strides [n; bsz * h; hd])))
    with (ravel [n; bsz; h * hd] [j; b; hh * hd + c])
    by (unfold ravel, dot; simpl; nia).
  unfold permuted. cbn [shape data]. rewrite Ht.
  change (permute_list (swap_dims 3 0 1) [bsz; n; h * hd]) with [n; bsz; h * hd].
  rewrite gather_strided_at by (repeat constructor; nia).
  f_equal. unfold dot. simpl. nia.
Qed.

(** [w.transpose(0, 2).reshape(n, n, bsz, h).transpose(0, 2)] on the
    scores of shape [bsz * h; n; n]: element [(b, i, j, hh)] of the
    result is element [(b * h + hh, i, j)] of [w]. *)
Lemma unfolded_scores_at (w : tensor fnum) bsz n h b i j hh :
  shape w = [bsz * h; n; n] →
  b < bsz → i < n → j < n → hh < h →
  data (permuted (swap_dims 4 0 2)
          (Tensor [n; n; bsz; h] (data (permuted (swap_dims 3 0 2) w))))
    !!! (((b * n + i) * n + j) * h + hh)
  = data w !!! (((b * h + hh) * n + i) * n + j).
Proof.
  intros Hw Hb Hi Hj Hhh.
  rewrite <- (ravel4 bsz n n h b i j hh).
  unfold permuted at 1. cbn [shape data].
  change (permute_list (swap_dims 4 0 2) [n; n; bsz; h]) with [bsz; n; n; h].
  rewrite gather_strided_at by (repeat constructor; nia).
  replace (dot [b; i; j; hh]
             (permute_list (swap_dims 4 0 2) (strides [n; n; bsz; h])))
    with (ravel [n; n; bsz * h] [j; i; b * h + hh])
    by (unfold ravel, dot; simpl; nia).
  unfold permuted. cbn [shape data]. rewrite Hw.
  change (permute_list (swap_dims 3 0 2) [bsz * h; n; n]) with [n; n; bsz * h].
  rewrite gather_strided_at by (repeat constructor; nia).
  f_equal. unfold dot. simpl. nia.
Qed.

(** [a.transpose(0, 1).reshape(n, bsz, h * hd).transpose(0, 1)] on the
    head outputs of shape [bsz * h; n; hd]: element
    [(b, i, hh * hd + c)] of the result is element [(b * h + hh, i, c)]
    of [a]. *)
Lemma merged_heads_at (a : tensor fnum) bsz n h hd b hh i c :
  shape a = [bsz * h; n; hd] →
  b < bsz → i < n → hh < h → c < hd →
  data (permuted (swap_dims 3 0 1)
          (Tensor [n; bsz; h * hd] (data (permuted (swap_dims 3 0 1) a))))
    !!! ((b * n + i) * (h * hd) + (hh * hd + c))
  = data a !!! (((b * h + hh) * n + i) * hd + c).
Proof.
  intros Ha Hb Hi Hhh Hc.
  assert (hh * hd + c < h * hd) as Hlt by nia.
  rewrite <- (ravel3 bsz n (h * hd) b i (hh * hd + c)).
  unfold permuted at 1. cbn [shape data].
  change (permute_list (swap_dims 3 0 1) [n; bsz; h * hd]) with [bsz; n; h * hd].
  rewrite gather_strided_at by (repeat constructor; lia).
  replace (dot [b; i; hh * hd + c]
             (permute_list (swap_dims 3 0 1) (strides [n; bsz; h * hd])))
    with (ravel [n; bsz * h; hd] [i; b * h + hh; c])
    by (unfold ravel, dot; simpl; nia).
  unfold permuted. cbn [shape data]. rewrite Ha.
  change (permute_list (swap_dims 3 0 1) [bsz * h; n; hd]) with [n; bsz * h; hd].
  rewrite gather_strided_at by (repeat constructor; nia).
  f_equal. unfold dot. simpl. nia.
Qed.

(** An element of a batched matrix product. *)
Lemma bmm_at (x y r : tensor fnum) B n m p rb i j :
  shape x = [B; n; m] → shape y = [B; m; p] → bmm x y = Ok r →
  rb < B → i < n → j < p →
  data r !!! ((rb * n + i) * p + j)
  = fsum ((λ k, fmul (data x !!! ((rb * n + i) * m + k))
                     (data y !!! ((rb * m + k) * p + j))) <$> seq 0 m).
Proof.
  intros Hx Hy Hr Hrb Hi Hj. unfold bmm in Hr. rewrite Hx, Hy, !Nat.eqb_refl in Hr.
  simpl in Hr. injection Hr as <-. cbn [data].
  assert ((rb * n + i) * p + j < B * n * p) as Hlt.
  { replace (B * n * p) with (numel [B; n; p]) by (simpl; lia).
    rewrite <- (ravel3 B n p). apply (ravel_lt [B; n; p]). repeat constructor; lia. }
  erewrite list_lookup_total_correct;
    [|rewrite list_lookup_fmap, lookup_seq_lt by done; reflexivity].
  cbv beta zeta. rewrite Nat.add_0_l.
  replace (((rb * n + i) * p + j) `div` (n * p)) with rb
    by (apply Nat.div_unique with (i * p + j); nia).
  replace (((rb * n + i) * p + j) `mod` p) with j
    by (rewrite Nat.add_comm, Nat.Div0.mod_add; by rewrite Nat.mod_small).
  replace ((((rb * n + i) * p + j) `div` p) `mod` n) with i; [done|].
  replace (((rb * n + i) * p + j) `div` p) with (rb * n + i)
    by (apply Nat.div_unique with j; nia).
  rewrite Nat.add_comm, Nat.Div0.mod_add. by rewrite Nat.mod_small.
Qed.

(** An element of a linear projection of a 3-D tensor: it depends on one
    row of the input only. *)
Lemma linear_at (l : Linear.t) (x y : tensor fnum) a n f r i c :
  wf_linear l f → shape x = [a; n; f] → Linear.forward l x = Ok y →
  r < a → i < n → c < f →
  data y !!! ((r * n + i) * f + c)
  = let acc := fsum ((λ j, fmul (data x !!! ((r * n + i) * f + j))
                                (data (Linear.weight l) !!! (c * f + j)))
                       <$> seq 0 f) in
    match Linear.bias l with
    | Some bias => fadd acc (data bias !!! c)
    | None => acc
    end.
Proof.
  intros (Hw & _ & Hb) Hx Hy Hr Hi Hc. unfold Linear.forward in Hy.
  rewrite Hw, Hx in Hy. change (reverse [a; n; f]) with [f; n; a] in Hy.
  cbv iota beta in Hy. rewrite Nat.eqb_refl in Hy.
  assert (match Linear.bias l with
          | Some b => bool_decide (shape b = [f])
          | None => true
          end = true) as Hbias.
  { destruct (Linear.bias l); [|done]. apply bool_decide_eq_true. tauto. }
  rewrite Hbias in Hy. simpl in Hy. injection Hy as <-. cbn [data].
  change (reverse [n; a]) with [a; n].
  assert ((r * n + i) * f + c < numel [a; n] * f) as Hlt.
  { replace (numel [a; n] * f) with (numel [a; n; f]) by (simpl; lia).
    rewrite <- (ravel3 a n f). apply (ravel_lt [a; n; f]). repeat constructor; lia. }
  erewrite list_lookup_total_correct;
    [|rewrite list_lookup_fmap, lookup_seq_lt by done; reflexivity].
  cbv beta zeta. rewrite Nat.add_0_l.
  replace (((r * n + i) * f + c) `div` f) with (r * n + i)
    by (apply Nat.div_unique with c; nia).
  replace (((r * n + i) * f + c) `mod` f) with c
    by (rewrite Nat.add_comm, Nat.Div0.mod_add; by rewrite Nat.mod_small).
  done.
Qed.

(** *** The scores before the softmax *)

(** The bias step of [forward]: [attn_weights += attn_bias] for the type
    "add", [attn_weights *= attn_bias] otherwise. *)
Definition apply_bias (ty : string) (w : tensor fnum) (tb : option (tensor fnum))
    : result (tensor fnum) :=
  match tb with
  | Some b =>
      updated w <$>
        (if String.eqb ty "add" then inplace_binop fadd w b else inplace_binop fmul w b)
  | None => Ok w
  end.

Section raw_scores.
Context (m : BiasedMultiheadAttention.t) (h hd bsz n : nat) (tn : tensor fnum).
Hypothesis Hm : wf_module m h hd.
Hypothesis Hn : shape tn = [bsz; n; h * hd].

  (** The projections succeed; the scores before the bias are the dot
      products, head by head, of the query divided by [scaling] with
      the keys; the value heads are the value projection split into
      heads; what follows in [forward] is the bias step, the mask and
      the softmax. *)
Lemma raw_scores :
    ∃ sc q k v w vh,
      BiasedMultiheadAttention.scaling m = PyFloat (Fin sc) ∧ sc ≠ 0%R ∧
      Linear.forward (BiasedMultiheadAttention.q_proj m) tn = Ok q ∧
      Linear.forward (BiasedMultiheadAttention.k_proj m) tn = Ok k ∧
      Linear.forward (BiasedMultiheadAttention.v_proj m) tn = Ok v ∧
      shape w = [bsz; n; n; h] ∧ wf_tensor w ∧
      shape vh = [bsz * h; n; hd] ∧ wf_tensor vh ∧
      (∀ b i j hh, b < bsz → i < n → j < n → hh < h →
         data w !!! (((b * n + i) * n + j) * h + hh)
         = fsum ((λ c, fmul (fdiv (data q !!! ((b * n + i) * (h * hd) + (hh * hd + c)))
                                  (Fin sc))
                            (data k !!! ((b * n + j) * (h * hd) + (hh * hd + c))))
                   <$> seq 0 hd)) ∧
      (∀ b l hh c, b < bsz → l < n → hh < h → c < hd →
         data vh !!! (((b * h + hh) * n + l) * hd + c)
         = data v !!! ((b * n + l) * (h * hd) + (hh * hd + c))) ∧
      ∀ tb tm,
        attention_val m tn tb tm
        = (w' ← apply_bias (BiasedMultiheadAttention.attn_bias_type m) w tb;
           p ← masked_softmax (BiasedMultiheadAttention.num_heads m) bsz n w' tm;
           Ok (p, vh, bsz, n)).
  Proof.
    destruct Hm as [Hh Hhd Hf (sc & Hsc & Hc) Hq Hk Hv Ho].
    destruct (linear_forward_ok _ _ tn [bsz; n] Hq Hn) as (q & Eq & Hqs & Hqw & _).
    destruct (linear_forward_ok _ _ tn [bsz; n] Hk Hn) as (k & Ek & Hks & Hkw & _).
    destruct (linear_forward_ok _ _ tn [bsz; n] Hv Hn) as (v & Ev & Hvs & Hvw & _).
    simpl in Hqs, Hks, Hvs.
    set (q2 := permuted (swap_dims 3 0 1)
                 (Tensor [n; bsz * h; hd] (data (permuted (swap_dims 3 0 1) q)))).
    set (k2 := permuted [1; 2; 0]
                 (Tensor [n; bsz * h; hd] (data (permuted (swap_dims 3 0 1) k)))).
    set (v2 := permuted (swap_dims 3 0 1)
                 (Tensor [n; bsz * h; hd] (data (permuted (swap_dims 3 0 1) v)))).
    assert (shape q2 = [bsz * h; n; hd]) as Hq2s by done.
    assert (shape k2 = [bsz * h; hd; n]) as Hk2s by done.
    assert (shape v2 = [bsz * h; n; hd]) as Hv2s by done.
    destruct (bmm_ok (div_scalar q2 (Fin sc)) k2 (bsz * h) n hd n)
      as (w0 & Ew0 & Hw0s & Hw0w & _); [done..|].
    set (w2 := permuted (swap_dims 4 0 2)
                 (Tensor [n; n; bsz; h] (data (permuted (swap_dims 3 0 2) w0)))).
    exists sc, q, k, v, w2, v2.
    split_and!; [done|done|done|done|done|done|apply permuted_wf|done|apply permuted_wf|..].
    - intros b i j hh Hb Hi Hj Hhh. unfold w2.
      rewrite (unfolded_scores_at w0 bsz n h) by done.
      assert (shape (div_scalar q2 (Fin sc)) = [bsz * h; n; hd]) as Hds by done.
      rewrite (bmm_at _ _ _ (bsz * h) n hd n _ _ _ Hds Hk2s Ew0) by (done || nia).
      f_equal. apply list_fmap_ext. intros ? c [-> Hc']%lookup_seq.
      rewrite Nat.add_0_l. unfold div_scalar. cbn [data].
      rewrite (list_lookup_total_fmap (λ a, fdiv a (Fin sc))).
      2:{ pose proof (permuted_wf (swap_dims 3 0 1)
                        (Tensor [n; bsz * h; hd] (data (permuted (swap_dims 3 0 1) q))))
            as Hwf. unfold wf_tensor in Hwf. fold q2 in Hwf. rewrite Hwf, Hq2s.
          rewrite <- (ravel3 (bsz * h) n hd). apply (ravel_lt [bsz * h; n; hd]).
          repeat constructor; nia. }
      unfold q2, k2.
      rewrite (split_heads_at q bsz n h hd) by done.
      by rewrite (split_keys_at k bsz n h hd) by done.
    - intros b l hh c Hb Hl Hhh Hc'. unfold v2.
      by rewrite (split_heads_at v bsz n h hd) by done.
    - intros tb tm. unfold attention_val. rewrite Hn, Hh, Hhd, Hsc.
      go Eq. rewrite (transpose_ok q) by (rewrite Hqs; simpl; lia).
      rewrite result_bind_ok. cbv beta iota.
      go Ek. rewrite (transpose_ok k) by (rewrite Hks; simpl; lia).
      rewrite result_bind_ok. cbv beta iota.
      go Ev. rewrite (transpose_ok v) by (rewrite Hvs; simpl; lia).
      rewrite result_bind_ok. cbv beta iota.
      rewrite Hqs, Hks, Hvs. cbn [length].
      simpl unpack3. rewrite result_bind_ok. cbv beta iota.
      rewrite <- !Nat2Z.inj_mul.
      change [Z.of_nat n; Z.of_nat (bsz * h); Z.of_nat hd]
        with (Z.of_nat <$> [n; bsz * h; hd]).
      rewrite !(reshape_ok _ [n; bsz * h; hd])
        by (done || (cbn [shape permuted]; rewrite ?Hqs, ?Hks, ?Hvs; simpl; nia)).
      rewrite result_bind_ok. cbv beta iota.
      rewrite (transpose_ok (Tensor [n; bsz * h; hd] _)) by (simpl; lia).
      rewrite result_bind_ok. cbv beta iota.
      unfold div_pynum. rewrite result_bind_ok. cbv beta iota.
      rewrite result_bind_ok. cbv beta iota.
      unfold permute at 1. cbn [shape length].
      change (is_perm [1; 2; 0] 3) with true. cbv iota.
      rewrite result_bind_ok. cbv beta iota.
      rewrite result_bind_ok. cbv beta iota.
      rewrite (transpose_ok (Tensor [n; bsz * h; hd] _)) by (simpl; lia).
      rewrite result_bind_ok. cbv beta iota.
      cbn [shape length]. fold q2 k2 v2.
      go Ew0. rewrite (transpose_ok w0) by (rewrite Hw0s; simpl; lia).
      rewrite result_bind_ok. cbv beta iota. rewrite Hw0s. cbn [length].
      change [Z.of_nat n; Z.of_nat n; Z.of_nat bsz; Z.of_nat h]
        with (Z.of_nat <$> [n; n; bsz; h]).
      rewrite (reshape_ok _ [n; n; bsz; h]);
        [|done|cbn [shape permuted]; rewrite Hw0s; simpl; nia].
      rewrite result_bind_ok. cbv beta iota.
      rewrite (transpose_ok (Tensor [n; n; bsz; h] _)) by (simpl; lia).
      rewrite result_bind_ok. cbv beta iota. cbn [shape length]. fold w2.
      rewrite !Nat2Z.inj_mul.
      unfold apply_bias, masked_softmax, mbind, result_bind.
      repeat match goal with
             | |- context [match ?r with Ok _ => _ | Raise _ => _ end] => destruct r
             end; done.
  Qed.

End raw_scores.

(** *** The probabilities after the softmax *)

(** The last steps of the first part of [forward]: the heads are folded
    into the batch and the softmax runs over the keys. *)
Definition folded_softmax (num_heads : Z) (bsz n : nat) (attn_weights : tensor fnum)
    : result (tensor fnum) :=
  w ← transpose attn_weights 0 2;
  w ← reshape w [Z.of_nat n; Z.of_nat n; (Z.of_nat bsz * num_heads)%Z];
  w ← transpose w 0 2;
  softmax w 2.

Lemma masked_softmax_split num_heads bsz n w tm :
  masked_softmax num_heads bsz n w tm
  = (w' ← match tm with
          | Some mask => updated w <$> masked_fill w (to_bool mask) NInf
          | None => Ok w
          end;
     folded_softmax num_heads bsz n w').
Proof. done. Qed.

Lemma folded_softmax_at (w : tensor fnum) bsz n h :
  shape w = [bsz; n; n; h] →
  ∃ p, folded_softmax (Z.of_nat h) bsz n w = Ok p ∧
       shape p = [bsz * h; n; n] ∧ wf_tensor p ∧
       ∀ b i j hh, b < bsz → i < n → j < n → hh < h →
         at_index p [b * h + hh; i; j]
         = softmax_row ((λ l, data w !!! (((b * n + i) * n + l) * h + hh)) <$> seq 0 n)
             !!! j.
Proof.
  intros Hw. unfold folded_softmax.
  rewrite (transpose_ok w) by (rewrite Hw; simpl; lia).
  rewrite result_bind_ok. cbv beta.
  rewrite <- Nat2Z.inj_mul.
  change [Z.of_nat n; Z.of_nat n; Z.of_nat (bsz * h)]
    with (Z.of_nat <$> [n; n; bsz * h]).
  rewrite (reshape_ok _ [n; n; bsz * h]);
    [|done|cbn [shape permuted]; rewrite Hw; simpl; nia].
  rewrite result_bind_ok. cbv beta.
  rewrite transpose_ok by (simpl; lia). rewrite result_bind_ok. cbv beta.
  cbn [shape length]. rewrite Hw. cbn [length].
  set (x := permuted (swap_dims 3 0 2) _).
  assert (shape x = [bsz * h; n; n]) as Hxs by done.
  destruct (softmax_ok x 2) as (p & Hp & Hps & Hpw); [rewrite Hxs; simpl; lia|].
  exists p. split; [done|]. split; [congruence|]. split; [done|].
  intros b i j hh Hb Hi Hj Hhh.
  rewrite (softmax_last_at x p (bsz * h) n) by (done || nia).
  f_equal. f_equal. apply list_fmap_ext. intros ? l [-> Hl]%lookup_seq.
  rewrite Nat.add_0_l. unfold x. by rewrite (folded_scores_at w bsz n h).
Qed.

(** A score after the mask step. *)
Definition mask_score (attn_mask : option (tensor fnum)) (b i l : nat) (x : fnum)
    : fnum :=
  match attn_mask with
  | Some mask => if is_zero (at_index mask [b; i; l]) then x else NInf
  | None => x
  end.

Lemma masked_softmax_at (w : tensor fnum) tm bsz n h :
  shape w = [bsz; n; n; h] → wf_tensor w →
  from_option (λ mask, shape mask = [bsz; n; n]) True tm →
  ∃ p, masked_softmax (Z.of_nat h) bsz n w tm = Ok p ∧
       shape p = [bsz * h; n; n] ∧ wf_tensor p ∧
       ∀ b i j hh, b < bsz → i < n → j < n → hh < h →
         at_index p [b * h + hh; i; j]
         = softmax_row
             ((λ l, mask_score tm b i l (data w !!! (((b * n + i) * n + l) * h + hh)))
                <$> seq 0 n) !!! j.
Proof.
  intros Hw Hwf Hm. rewrite masked_softmax_split.
  destruct tm as [mask|]; simpl in Hm.
  - destruct (masked_fill w (to_bool mask) NInf) as [vals|e] eqn:Hfill.
    2:{ unfold masked_fill in Hfill. simpl in Hfill. rewrite Hm, Hw in Hfill.
        simpl in Hfill. by rewrite bool_decide_true in Hfill. }
    rewrite result_fmap_ok, result_bind_ok.
    destruct (folded_softmax_at (updated w vals) bsz n h Hw)
      as (p & Ep & Hps & Hpw & Hat).
    exists p. split_and!; [done..|].
    intros b i j hh Hb Hi Hj Hhh. rewrite Hat by done.
    f_equal. f_equal. apply list_fmap_ext. intros ? l [-> Hl]%lookup_seq.
    rewrite Nat.add_0_l. cbn [updated data mask_score].
    by apply (masked_fill_at w mask bsz n h).
  - rewrite result_bind_ok.
    destruct (folded_softmax_at w bsz n h Hw) as (p & Ep & Hps & Hpw & Hat).
    exists p. split_and!; done.
Qed.

(** A score after the bias step. *)
Definition bias_score (ty : string) (attn_bias : option (tensor fnum))
    (b i l hh : nat) (x : fnum) : fnum :=
  match attn_bias with
  | Some bias =>
      if String.eqb ty "add" then fadd x (at_index bias [b; i; l; hh])
      else fmul x (at_index bias [b; i; l; hh])
  | None => x
  end.

Lemma apply_bias_at ty (w : tensor fnum) tb bsz n h :
  shape w = [bsz; n; n; h] → wf_tensor w → has_shape tb [bsz; n; n; h] →
  ∃ w', apply_bias ty w tb = Ok w' ∧ shape w' = [bsz; n; n; h] ∧ wf_tensor w' ∧
        ∀ b i l hh, b < bsz → i < n → l < n → hh < h →
          data w' !!! (((b * n + i) * n + l) * h + hh)
          = bias_score ty tb b i l hh (data w !!! (((b * n + i) * n + l) * h + hh)).
Proof.
  intros Hw Hwf Hb. destruct tb as [bias|]; simpl in Hb; [|by exists w].
  destruct Hb as [Hbs Hbw]. unfold apply_bias.
  assert (∀ f : fnum → fnum → fnum,
    ∃ w', updated w <$> inplace_binop f w bias = Ok w' ∧
          shape w' = [bsz; n; n; h] ∧ wf_tensor w' ∧
          ∀ b i l hh, b < bsz → i < n → l < n → hh < h →
            data w' !!! (((b * n + i) * n + l) * h + hh)
            = f (data w !!! (((b * n + i) * n + l) * h + hh))
                (at_index bias [b; i; l; hh])) as Hop.
  { intros f. rewrite inplace_binop_same_shape by (done || congruence).
    exists (updated w (zip_with f (data w) (data bias))).
    split_and!; [done|exact Hw| |].
    - unfold wf_tensor in *. simpl. rewrite length_zip_with, Hwf, Hbw, Hbs, Hw. lia.
    - intros b i l hh Hb Hi Hl Hhh. cbn [updated data].
      assert (((b * n + i) * n + l) * h + hh < numel [bsz; n; n; h]) as Hlt.
      { rewrite <- (ravel4 bsz n n h).
        apply (ravel_lt [bsz; n; n; h]). repeat constructor; lia. }
      unfold at_index. rewrite Hbs, ravel4.
      apply list_lookup_total_correct. rewrite lookup_zip_with.
      unfold wf_tensor in Hwf, Hbw. rewrite Hw in Hwf. rewrite Hbs in Hbw.
      rewrite !list_lookup_lookup_total_lt by lia. done. }
  unfold bias_score. destruct (String.eqb ty "add"); apply Hop.
Qed.

(** The score of key [l] for query [i] in head [hh] of batch element [b]
    as [forward] computes it from the projections [q] and [k]: the dot
    product of the query, divided by [scaling], with the key, over the
    [hd] features of the head; then the bias, added or multiplied; then
    minus infinity where the mask is non-zero. *)
Definition attention_score (self : BiasedMultiheadAttention.t) (hd : nat)
    (q k : tensor fnum) (attn_bias attn_mask : option (tensor fnum))
    (b hh i l : nat) : fnum :=
  let scaled x :=
    match BiasedMultiheadAttention.scaling self with
    | PyFloat s => fdiv x s
    | PyComplex _ _ => NaN
    end in
  let s := fsum ((λ c, fmul (scaled (at_index q [b; i; hh * hd + c]))
                            (at_index k [b; l; hh * hd + c])) <$> seq 0 hd) in
  mask_score attn_mask b i l
    (bias_score (BiasedMultiheadAttention.attn_bias_type self) attn_bias b i l hh s).

Section attention_values.
Context (m : BiasedMultiheadAttention.t) (h hd bsz n : nat).
Context (tn : tensor fnum) (tb tm : option (tensor fnum)).
Hypothesis Hm : wf_module m h hd.
Hypothesis Hn : shape tn = [bsz; n; h * hd].
Hypothesis Hb : has_shape tb [bsz; n; n; h].
Hypothesis Hmk : from_option (λ mask, shape mask = [bsz; n; n]) True tm.

  (** The probabilities are the softmax, over the keys, of the scores;
      the value heads are the value projection split into heads. *)
Lemma attention_val_at :
    ∃ q k v p vh,
      Linear.forward (BiasedMultiheadAttention.q_proj m) tn = Ok q ∧
      Linear.forward (BiasedMultiheadAttention.k_proj m) tn = Ok k ∧
      Linear.forward (BiasedMultiheadAttention.v_proj m) tn = Ok v ∧
      shape q = [bsz; n; h * hd] ∧ shape k = [bsz; n; h * hd] ∧
      shape v = [bsz; n; h * hd] ∧
      attention_val m tn tb tm = Ok (p, vh, bsz, n) ∧
      shape p = [bsz * h; n; n] ∧ wf_tensor p ∧
      shape vh = [bsz * h; n; hd] ∧ wf_tensor vh ∧
      (∀ b hh i j, b < bsz → hh < h → i < n → j < n →
         at_index p [b * h + hh; i; j]
         = softmax_row ((λ l, attention_score m hd q k tb tm b hh i l) <$> seq 0 n)
             !!! j) ∧
      (∀ b hh l c, b < bsz → hh < h → l < n → c < hd →
         at_index vh [b * h + hh; l; c] = at_index v [b; l; hh * hd + c]).
  Proof.
    destruct (raw_scores m h hd bsz n tn Hm Hn)
      as (sc & q & k & v & w & vh & Hsc & Hc & Eq & Ek & Ev & Hws & Hww & Hvs & Hvw
          & Hw & Hvh & Eatt).
    destruct (linear_forward_ok _ _ tn [bsz; n] (wf_q_proj _ _ _ Hm) Hn)
      as (q' & Eq' & Hqs & _).
    destruct (linear_forward_ok _ _ tn [bsz; n] (wf_k_proj _ _ _ Hm) Hn)
      as (k' & Ek' & Hks & _).
    destruct (linear_forward_ok _ _ tn [bsz; n] (wf_v_proj _ _ _ Hm) Hn)
      as (v' & Ev' & Hvs' & _).
    rewrite Eq in Eq'. injection Eq' as <-.
    rewrite Ek in Ek'. injection Ek' as <-.
    rewrite Ev in Ev'. injection Ev' as <-.
    simpl in Hqs, Hks, Hvs'.
    destruct (apply_bias_at (BiasedMultiheadAttention.attn_bias_type m) w tb bsz n h
                Hws Hww Hb) as (w' & Ew' & Hws' & Hww' & Hw').
    destruct (masked_softmax_at w' tm bsz n h Hws' Hww' Hmk)
      as (p & Ep & Hps & Hpw & Hp).
    exists q, k, v, p, vh. split_and!; try done.
    - rewrite Eatt, Ew', result_bind_ok.
      rewrite (wf_num_heads _ _ _ Hm), Ep. done.
    - intros b hh i j Hb' Hhh Hi Hj. rewrite Hp by done.
      f_equal. f_equal. apply list_fmap_ext. intros ? l [-> Hl]%lookup_seq.
      rewrite Nat.add_0_l. unfold attention_score. f_equal.
      rewrite Hw' by done. f_equal. rewrite Hw by done.
      f_equal. apply list_fmap_ext. intros ? c [-> Hc']%lookup_seq.
      rewrite Nat.add_0_l, Hsc. unfold at_index. by rewrite Hqs, Hks, !ravel3.
    - intros b hh l c Hb' Hhh Hl Hc'. unfold at_index.
      rewrite Hvs, Hvs', !ravel3. by apply Hvh.
  Qed.

End attention_values.

(** A run of the first part of [forward] on the store. *)
Lemma attention_run reshape_is_view to_bool_is_noop self ndata attn_bias attn_mask s0 :
  valid s0 ndata → valid_opt s0 attn_bias → valid_opt s0 attn_mask →
  ∃ r s1,
    BiasedMultiheadAttention.attention reshape_is_view to_bool_is_noop
      self ndata attn_bias attn_mask s0 = (r, s1) ∧
    extends s0 s1 ∧
    match r, attention_val self (value s0 ndata)
               (value s0 <$> attn_bias) (value s0 <$> attn_mask) with
    | Ok (p, vh, bsz, n), Ok (tp, tvh, bsz', n') =>
        repr s1 p tp ∧ repr s1 vh tvh ∧ bsz = bsz' ∧ n = n'
    | Raise e, Raise e' => e = e'
    | _, _ => False
    end.
Proof.
  intros Hn Hb Hm.
  pose proof (attention_refines reshape_is_view to_bool_is_noop self
                ndata attn_bias attn_mask s0 _ _ _
                (valid_repr _ _ Hn) (valid_opt_repr _ _ Hb) (valid_opt_repr _ _ Hm))
    as Hwp.
  unfold wp, attention_post in Hwp.
  destruct (BiasedMultiheadAttention.attention _ _ _ _ _ _ s0) as [r s1].
  exists r, s1. by destruct Hwp.
Qed.

(** The shapes of optional inputs, from their handles. *)
Lemma shaped_opt_has_shape s0 (h : option handle) sh :
  valid_opt s0 h → shaped_opt h sh → has_shape (value s0 <$> h) sh.
Proof.
  destruct h as [h|]; simpl; [|done]. intros Hv Hs. split; [done|].
  by eapply repr_wf, valid_repr.
Qed.

Lemma shaped_opt_shape s0 (h : option handle) sh :
  shaped_opt h sh → from_option (λ t, shape t = sh) True (value s0 <$> h).
Proof. by destruct h. Qed.

(** X5. With inputs of the documented shapes the first part of [forward]
    returns, and the probability it gives to key [j] for query [i] in
    head [hh] of batch element [b] is entry [j] of the softmax of the
    scores of the keys: the dot product over the head of the query
    projection divided by [scaling] with the key projection, combined
    with the bias entry [(b, i, l, hh)] by addition for the type "add"
    and by multiplication otherwise, and replaced by minus infinity
    where the mask entry [(b, i, l)] is non-zero. *)
Theorem attention_softmax_of_scores reshape_is_view to_bool_is_noop
    m h hd bsz n ndata attn_bias attn_mask s0 :
  wf_module m h hd →
  valid s0 ndata → valid_opt s0 attn_bias → valid_opt s0 attn_mask →
  shape (view ndata) = [bsz; n; h * hd] →
  shaped_opt attn_bias [bsz; n; n; h] →
  shaped_opt attn_mask [bsz; n; n] →
  ∃ q k p vh s1,
    Linear.forward (BiasedMultiheadAttention.q_proj m) (value s0 ndata) = Ok q ∧
    Linear.forward (BiasedMultiheadAttention.k_proj m) (value s0 ndata) = Ok k ∧
    BiasedMultiheadAttention.attention reshape_is_view to_bool_is_noop
      m ndata attn_bias attn_mask s0 = (Ok (p, vh, bsz, n), s1) ∧
    shape (value s1 p) = [bsz * h; n; n] ∧
    ∀ b hh i j, b < bsz → hh < h → i < n → j < n →
      at_index (value s1 p) [b * h + hh; i; j]
      = softmax_row
          ((λ l, attention_score m hd q k (value s0 <$> attn_bias)
                   (value s0 <$> attn_mask) b hh i l) <$> seq 0 n) !!! j.
Proof.
  intros Hm Hn Hb Hk Hns Hbs Hks.
  destruct (attention_val_at m h hd bsz n (value s0 ndata) (value s0 <$> attn_bias)
              (value s0 <$> attn_mask) Hm Hns
              (shaped_opt_has_shape _ _ _ Hb Hbs) (shaped_opt_shape _ _ _ Hks))
    as (q & k & v & p & vh & Eq & Ek & _ & _ & _ & _ & Eval & Hps & _ & _ & _ & Hp & _).
  destruct (attention_run reshape_is_view to_bool_is_noop m ndata attn_bias attn_mask
              s0 Hn Hb Hk) as (r & s1 & Erun & _ & Hr).
  rewrite Eval in Hr. destruct r as [[[[ph vhh] bsz'] n']|]; [|done].
  destruct Hr as (Hrp & _ & -> & ->).
  exists q, k, ph, vhh, s1. rewrite (repr_value _ _ _ Hrp). by split_and!.
Qed.

Lemma attention_softmax_of_scores_witness :
  ∃ q k p vh s1,
    Linear.forward (BiasedMultiheadAttention.q_proj example_module)
      (value masked_store example_ndata) = Ok q ∧
    Linear.forward (BiasedMultiheadAttention.k_proj example_module)
      (value masked_store example_ndata) = Ok k ∧
    BiasedMultiheadAttention.attention (λ _ _, true) (λ _, true)
      example_module example_ndata (Some example_bias) (Some example_mask) masked_store
    = (Ok (p, vh, 2, 4), s1) ∧
    shape (value s1 p) = [2 * 2; 4; 4] ∧
    ∀ b hh i j, b < 2 → hh < 2 → i < 4 → j < 4 →
      at_index (value s1 p) [b * 2 + hh; i; j]
      = softmax_row
          ((λ l, attention_score example_module 4 q k
                   (value masked_store <$> Some example_bias)
                   (value masked_store <$> Some example_mask) b hh i l) <$> seq 0 4)
          !!! j.
Proof.
  apply (attention_softmax_of_scores (λ _ _, true) (λ _, true) example_module 2 4 2 4
           example_ndata (Some example_bias) (Some example_mask) masked_store).
  - apply example_module_wf.
  - exists (replicate 64 (Fin 1)). split_and!; [reflexivity|reflexivity|].
    apply Forall_forall. intros o Ho%elem_of_seq. simpl. lia.
  - exists (replicate 64 (Fin 0)). split_and!; [reflexivity|reflexivity|].
    apply Forall_forall. intros o Ho%elem_of_seq. simpl. lia.
  - eexists. split_and!; [reflexivity|reflexivity|].
    apply Forall_forall. intros o Ho%elem_of_seq.
    rewrite length_fmap, length_seq. simpl. lia.
  - reflexivity.
  - reflexivity.
  - reflexivity.
Defined.

(** *** The output *)

Lemma dropout_forward_shape d keep (x : tensor fnum) :
  shape (Dropout.forward d keep x) = shape x.
Proof.
  unfold Dropout.forward, Dropout.noise.
  destruct (Dropout.is_identity _ _); [done|]. by destruct (Req_dec_T _ _).
Qed.

Section output_values.
Context (m : BiasedMultiheadAttention.t) (h hd bsz n : nat).
Context (tn : tensor fnum) (tb tm : option (tensor fnum)) (keep : nat → bool).
Hypothesis Hm : wf_module m h hd.
Hypothesis Hn : shape tn = [bsz; n; h * hd].
Hypothesis Hb : has_shape tb [bsz; n; n; h].
Hypothesis Hmk : from_option (λ mask, shape mask = [bsz; n; n]) True tm.

  (** The second part of [forward]: every head weighs the values of its
      keys with the probabilities left by the dropout layer, the heads
      are put side by side, and the output projection follows. *)
Lemma forward_val_at :
    ∃ p vh attn out,
      attention_val m tn tb tm = Ok (p, vh, bsz, n) ∧
      forward_val m keep tn tb tm = Ok out ∧
      Linear.forward (BiasedMultiheadAttention.out_proj m) attn = Ok out ∧
      shape attn = [bsz; n; h * hd] ∧ shape out = [bsz; n; h * hd] ∧
      wf_tensor out ∧
      ∀ b hh i c, b < bsz → hh < h → i < n → c < hd →
        at_index attn [b; i; hh * hd + c]
        = fsum ((λ l, fmul (at_index (Dropout.forward
                                        (BiasedMultiheadAttention.dropout m) keep p)
                              [b * h + hh; i; l])
                           (at_index vh [b * h + hh; l; c])) <$> seq 0 n).
  Proof.
    destruct (attention_val_at m h hd bsz n tn tb tm Hm Hn Hb Hmk)
      as (q & k & v & p & vh & _ & _ & _ & _ & _ & _ & Eatt & Hps & Hpw & Hvs & Hvw & _).
    pose proof (dropout_forward_shape (BiasedMultiheadAttention.dropout m) keep p)
      as Hds. rewrite Hps in Hds.
    destruct (bmm_ok _ vh _ _ _ _ Hds Hvs) as (a & Ea & Has & Haw & _).
    set (attn := permuted (swap_dims 3 0 1)
                   (Tensor [n; bsz; h * hd] (data (permuted (swap_dims 3 0 1) a)))).
    assert (shape attn = [bsz; n; h * hd]) as Hattn by done.
    destruct (linear_forward_ok _ _ attn [bsz; n] (wf_out_proj _ _ _ Hm) Hattn)
      as (out & Eout & Hos & How & _).
    exists p, vh, attn, out. split_and!; try done.
    - unfold forward_val. go Eatt. go Ea.
      rewrite (transpose_ok a) by (rewrite Has; simpl; lia).
      rewrite result_bind_ok. cbv beta iota. rewrite Has. cbn [length].
      rewrite (wf_feat_size _ _ _ Hm).
      change [Z.of_nat n; Z.of_nat bsz; Z.of_nat (h * hd)]
        with (Z.of_nat <$> [n; bsz; h * hd]).
      rewrite (reshape_ok _ [n; bsz; h * hd]);
        [|done|cbn [shape permuted]; rewrite Has; simpl; nia].
      rewrite result_bind_ok. cbv beta iota.
      rewrite (transpose_ok (Tensor [n; bsz; h * hd] _)) by (simpl; lia).
      rewrite result_bind_ok. cbv beta iota. cbn [shape length]. by fold attn.
    - intros b hh i c Hb' Hhh Hi Hc. unfold at_index at 1. rewrite Hattn, ravel3.
      unfold attn. rewrite (merged_heads_at a bsz n h hd) by done.
      rewrite (bmm_at _ _ _ (bsz * h) n n hd _ _ _ Hds Hvs Ea) by (done || nia).
      f_equal. apply list_fmap_ext. intros ? l [-> Hl]%lookup_seq.
      rewrite Nat.add_0_l. unfold at_index. by rewrite Hds, Hvs, !ravel3.
  Qed.

End output_values.

(** X6. With inputs of the documented shapes [forward] returns a tensor
    of shape [bsz; n; feat_size]: the output projection of the tensor
    whose entry [(b, i, hh * hd + c)] is, for head [hh], the sum over the
    keys [l] of the probability of [l] for query [i], as the dropout
    layer leaves it, times entry [(b, l, hh * hd + c)] of the value
    projection. *)
Theorem forward_weighs_values reshape_is_view to_bool_is_noop
    m h hd bsz n keep ndata attn_bias attn_mask s0 :
  wf_module m h hd →
  valid s0 ndata → valid_opt s0 attn_bias → valid_opt s0 attn_mask →
  shape (view ndata) = [bsz; n; h * hd] →
  shaped_opt attn_bias [bsz; n; n; h] →
  shaped_opt attn_mask [bsz; n; n] →
  ∃ v p vh s' attn out s1,
    Linear.forward (BiasedMultiheadAttention.v_proj m) (value s0 ndata) = Ok v ∧
    BiasedMultiheadAttention.attention reshape_is_view to_bool_is_noop
      m ndata attn_bias attn_mask s0 = (Ok (p, vh, bsz, n), s') ∧
    BiasedMultiheadAttention.forward reshape_is_view to_bool_is_noop
      m keep ndata attn_bias attn_mask s0 = (Ok out, s1) ∧
    Linear.forward (BiasedMultiheadAttention.out_proj m) attn = Ok (value s1 out) ∧
    shape attn = [bsz; n; h * hd] ∧
    shape (value s1 out) = [bsz; n; h * hd] ∧
    ∀ b hh i c, b < bsz → hh < h → i < n → c < hd →
      at_index attn [b; i; hh * hd + c]
      = fsum ((λ l, fmul (at_index (Dropout.forward
                                      (BiasedMultiheadAttention.dropout m) keep
                                      (value s' p))
                            [b * h + hh; i; l])
                         (at_index v [b; l; hh * hd + c])) <$> seq 0 n).
Proof.
  intros Hm Hn Hb Hk Hns Hbs Hks.
  pose proof (shaped_opt_has_shape _ _ _ Hb Hbs) as Hbs'.
  pose proof (shaped_opt_shape s0 _ _ Hks) as Hks'.
  destruct (attention_val_at m h hd bsz n (value s0 ndata) (value s0 <$> attn_bias)
              (value s0 <$> attn_mask) Hm Hns Hbs' Hks')
    as (q & k & v & p & vh & _ & _ & Ev & _ & _ & _ & Eatt & _ & _ & _ & _ & _ & Hvh).
  destruct (forward_val_at m h hd bsz n (value s0 ndata) (value s0 <$> attn_bias)
              (value s0 <$> attn_mask) keep Hm Hns Hbs' Hks')
    as (p' & vh' & attn & out & Eatt' & Efw & Eout & Hattn & Hos & _ & Hat).
  rewrite Eatt in Eatt'. injection Eatt' as <- <-.
  destruct (attention_run reshape_is_view to_bool_is_noop m ndata attn_bias attn_mask
              s0 Hn Hb Hk) as (r & s' & Erun & _ & Hr).
  rewrite Eatt in Hr. destruct r as [[[[ph vhh] bsz'] n']|]; [|done].
  destruct Hr as (Hrp & _ & -> & ->).
  destruct (forward_run reshape_is_view to_bool_is_noop m keep ndata attn_bias attn_mask
              s0 Hn Hb Hk) as (r & s1 & Efrun & _ & Hr).
  rewrite Efw in Hr. destruct r as [oh|]; [|done].
  exists v, ph, vhh, s', attn, oh, s1.
  rewrite (repr_value _ _ _ Hrp), (repr_value _ _ _ Hr). split_and!; try done.
  intros b hh i c Hb' Hhh Hi Hc. rewrite Hat by done.
  f_equal. apply list_fmap_ext. intros ? l [-> Hl]%lookup_seq.
  rewrite Nat.add_0_l. by rewrite Hvh.
Qed.

Lemma masked_ndata_valid : valid masked_store example_ndata.
Proof.
  exists (replicate 64 (Fin 1)). split_and!; [reflexivity|reflexivity|].
  apply Forall_forall. intros o Ho%elem_of_seq. simpl. lia.
Qed.

Lemma masked_bias_valid : valid masked_store example_bias.
Proof.
  exists (replicate 64 (Fin 0)). split_and!; [reflexivity|reflexivity|].
  apply Forall_forall. intros o Ho%elem_of_seq. simpl. lia.
Qed.

Lemma masked_mask_valid : valid masked_store example_mask.
Proof.
  eexists. split_and!; [reflexivity|reflexivity|].
  apply Forall_forall. intros o Ho%elem_of_seq.
  rewrite length_fmap, length_seq. simpl. lia.
Qed.

Lemma forward_weighs_values_witness :
  ∃ v p vh s' attn out s1,
    Linear.forward (BiasedMultiheadAttention.v_proj example_module)
      (value masked_store example_ndata) = Ok v ∧
    BiasedMultiheadAttention.attention (λ _ _, true) (λ _, true)
      example_module example_ndata (Some example_bias) (Some example_mask) masked_store
    = (Ok (p, vh, 2, 4), s') ∧
    BiasedMultiheadAttention.forward (λ _ _, true) (λ _, true)
      example_module (λ _, true) example_ndata (Some example_bias) (Some example_mask)
      masked_store = (Ok out, s1) ∧
    Linear.forward (BiasedMultiheadAttention.out_proj example_module) attn
    = Ok (value s1 out) ∧
    shape attn = [2; 4; 2 * 4] ∧
    shape (value s1 out) = [2; 4; 2 * 4] ∧
    ∀ b hh i c, b < 2 → hh < 2 → i < 4 → c < 4 →
      at_index attn [b; i; hh * 4 + c]
      = fsum ((λ l, fmul (at_index (Dropout.forward
                                      (BiasedMultiheadAttention.dropout example_module)
                                      (λ _, true) (value s' p))
                            [b * 2 + hh; i; l])
                         (at_index v [b; l; hh * 4 + c])) <$> seq 0 4).
Proof.
  apply (forward_weighs_values (λ _ _, true) (λ _, true) example_module 2 4 2 4
           (λ _, true) example_ndata (Some example_bias) (Some example_mask)
           masked_store).
  - apply example_module_wf.
  - apply masked_ndata_valid.
  - apply masked_bias_valid.
  - apply masked_mask_valid.
  - reflexivity.
  - reflexivity.
  - reflexivity.
Defined.

(** ** Rows of probabilities *)


Lemma fsum_Fin (rs : list R) : fsum (Fin <$> rs) = Fin (foldr Rplus 0%R rs).
Proof.
  induction rs as [|r rs IH]; [done|].
  rewrite fmap_cons. change (fsum (Fin r :: (Fin <$> rs))) with (fadd (Fin r) (fsum (Fin <$> rs))).
  by rewrite IH.
Qed.




(** The softmax of a row whose scores are all minus infinity: every
    entry is NaN. *)
Lemma softmax_row_all_masked (row : list fnum) j :
  Forall (λ x, x = NInf) row → j < length row →
  softmax_row row !!! j = NaN.
Proof.
  intros Hrow Hj. unfold softmax_row.
  assert (foldr fmax NInf row = NInf) as ->.
  { clear Hj. induction Hrow as [|x row -> _ IH]; [done|]. simpl. by rewrite IH. }
  assert ((λ x, fexp (fsub x NInf)) <$> row = replicate (length row) NaN) as ->.
  { clear Hj. induction Hrow as [|x row -> _ IH]; [done|].
    rewrite fmap_cons, IH. done. }
  apply list_lookup_total_correct.
  rewrite list_lookup_fmap, lookup_replicate_2 by done. done.
Qed.





(** *** A query whose keys are all masked *)

Lemma fsum_nan (l : list fnum) : NaN ∈ l → fsum l = NaN.
Proof.
  induction l as [|x l IH]; [by intros ?%elem_of_nil|].
  intros [<-|Hin]%elem_of_cons; [done|].
  change (fsum (x :: l)) with (fadd x (fsum l)). rewrite IH by done. by destruct x.
Qed.

Lemma fsum_all_nan (f : nat → fnum) n :
  0 < n → (∀ k, k < n → f k = NaN) → fsum (f <$> seq 0 n) = NaN.
Proof.
  intros Hn Hf. apply fsum_nan, list_elem_of_fmap. exists 0. split.
  - symmetry. by apply Hf.
  - apply elem_of_seq. lia.
Qed.

(** The dropout layer hands a NaN on. *)
Lemma dropout_nan d keep (p : tensor fnum) k :
  k < length (data p) → data p !!! k = NaN →
  data (Dropout.forward d keep p) !!! k = NaN.
Proof.
  intros Hk Hp. unfold Dropout.forward, Dropout.noise.
  destruct (Dropout.is_identity _ _); [done|].
  destruct (lookup_lt_is_Some_2 _ _ Hk) as [x Hx].
  rewrite (list_lookup_total_correct _ _ _ Hx) in Hp. subst x.
  destruct (Req_dec_T _ _); cbn [data]; apply list_lookup_total_correct.
  - by rewrite list_lookup_fmap, Hx.
  - by rewrite list_lookup_imap, Hx.
Qed.

(** X8. When the mask is non-zero at every key of a query, the softmax
    of that query runs over minus infinities only: [forward] still
    returns, and every entry of the output row of the query is NaN. *)
Theorem forward_fully_masked_query reshape_is_view to_bool_is_noop
    m h hd bsz n keep ndata attn_bias mask s0 b i :
  wf_module m h hd →
  valid s0 ndata → valid_opt s0 attn_bias → valid s0 mask →
  shape (view ndata) = [bsz; n; h * hd] →
  shaped_opt attn_bias [bsz; n; n; h] →
  shape (view mask) = [bsz; n; n] →
  b < bsz → i < n →
  (∀ l, l < n → is_zero (at_index (value s0 mask) [b; i; l]) = false) →
  ∃ out s1,
    BiasedMultiheadAttention.forward reshape_is_view to_bool_is_noop
      m keep ndata attn_bias (Some mask) s0 = (Ok out, s1) ∧
    shape (value s1 out) = [bsz; n; h * hd] ∧
    ∀ c, c < h * hd → at_index (value s1 out) [b; i; c] = NaN.
Proof.
  intros Hm Hn Hb Hk Hns Hbs Hks Hb' Hi Hall.
  pose proof (shaped_opt_has_shape _ _ _ Hb Hbs) as Hbs'.
  assert (from_option (λ t, shape t = [bsz; n; n]) True (Some (value s0 mask)))
    as Hks' by done.
  destruct (attention_val_at m h hd bsz n (value s0 ndata) (value s0 <$> attn_bias)
              (Some (value s0 mask)) Hm Hns Hbs' Hks')
    as (q & k & v & p & vh & _ & _ & _ & _ & _ & _ & Eatt & Hps & Hpw & _ & _ & Hp & _).
  destruct (forward_val_at m h hd bsz n (value s0 ndata) (value s0 <$> attn_bias)
              (Some (value s0 mask)) keep Hm Hns Hbs' Hks')
    as (p' & vh' & attn & out & Eatt' & Efw & Eout & Hattn & Hos & How & Hat).
  rewrite Eatt in Eatt'. injection Eatt' as <- <-.
  destruct (forward_run reshape_is_view to_bool_is_noop m keep ndata attn_bias
              (Some mask) s0 Hn Hb Hk) as (r & s1 & Efrun & _ & Hr).
  simpl in Hr. rewrite Efw in Hr. destruct r as [oh|]; [|done].
  exists oh, s1. rewrite (repr_value _ _ _ Hr). split_and!; [done|done|].
  intros c Hc.
  assert (∀ hh l, hh < h → l < n → at_index p [b * h + hh; i; l] = NaN) as Hpn.
  { intros hh l Hhh Hl. rewrite Hp by done. apply softmax_row_all_masked.
    - apply Forall_fmap, Forall_forall. intros l' Hl'%elem_of_seq. simpl.
      unfold attention_score, mask_score. rewrite Hall by lia. done.
    - by rewrite length_fmap, length_seq. }
  assert (∀ j, j < h * hd → at_index attn [b; i; j] = NaN) as Han.
  { intros j Hj. assert (0 < hd) as Hhd by nia.
    rewrite (Nat.div_mod_eq j hd), (Nat.mul_comm hd).
    rewrite Hat;
      [|done|apply Nat.Div0.div_lt_upper_bound; lia|done|apply Nat.mod_upper_bound; lia].
    apply fsum_all_nan; [lia|]. intros l Hl.
    assert (at_index (Dropout.forward (BiasedMultiheadAttention.dropout m) keep p)
              [b * h + j `div` hd; i; l] = NaN) as ->; [|done].
    unfold at_index. rewrite dropout_forward_shape. apply dropout_nan.
    - unfold wf_tensor in Hpw. rewrite Hpw, Hps. apply (ravel_lt [bsz * h; n; n]).
      assert (j `div` hd < h) by (apply Nat.Div0.div_lt_upper_bound; lia).
      repeat constructor; nia.
    - apply Hpn; [apply Nat.Div0.div_lt_upper_bound; lia|done]. }
  unfold at_index. rewrite Hos, ravel3.
  rewrite (linear_at _ attn out bsz n (h * hd) b i c (wf_out_proj _ _ _ Hm) Hattn Eout)
    by done.
  cbv zeta.
  assert (fsum ((λ j, fmul (data attn !!! ((b * n + i) * (h * hd) + j))
                        (data (Linear.weight (BiasedMultiheadAttention.out_proj m))
                           !!! (c * (h * hd) + j))) <$> seq 0 (h * hd)) = NaN) as ->.
  { apply fsum_all_nan; [lia|]. intros j Hj.
    specialize (Han j Hj). unfold at_index in Han. rewrite Hattn, ravel3 in Han.
    by rewrite Han. }
  by destruct (Linear.bias _).
Qed.

(** The example store with a third buffer, shown as a mask of shape
    (2, 4, 4) that hides every key. *)
Definition blocked_store : store := example_store ++ [replicate 32 (Fin 1)].

Lemma blocked_ndata_valid : valid blocked_store example_ndata.
Proof.
  exists (replicate 64 (Fin 1)). split_and!; [reflexivity|reflexivity|].
  apply Forall_forall. intros o Ho%elem_of_seq. simpl. lia.
Qed.

Lemma blocked_mask_valid : valid blocked_store example_mask.
Proof.
  exists (replicate 32 (Fin 1)). split_and!; [reflexivity|reflexivity|].
  apply Forall_forall. intros o Ho%elem_of_seq. simpl. lia.
Qed.

Lemma forward_fully_masked_query_witness :
  ∃ out s1,
    BiasedMultiheadAttention.forward (λ _ _, true) (λ _, true)
      example_module (λ _, true) example_ndata None (Some example_mask) blocked_store
    = (Ok out, s1) ∧
    shape (value s1 out) = [2; 4; 2 * 4] ∧
    ∀ c, c < 2 * 4 → at_index (value s1 out) [0; 0; c] = NaN.
Proof.
  apply (forward_fully_masked_query (λ _ _, true) (λ _, true) example_module 2 4 2 4
           (λ _, true) example_ndata None example_mask blocked_store 0 0).
  - apply example_module_wf.
  - apply blocked_ndata_valid.
  - exact I.
  - apply blocked_mask_valid.
  - reflexivity.
  - exact I.
  - reflexivity.
  - lia.
  - lia.
  - intros l Hl.
    assert (at_index (value blocked_store example_mask) [0; 0; l] = Fin 1) as ->.
    { do 4 (destruct l as [|l]; [reflexivity|]). lia. }
    simpl. destruct (Req_dec_T 1 0); [lra|done].
Defined.

(** ** What the constructor of the attention module builds *)

(** The bound [nn.init.xavier_uniform_] uses for a square weight of
    width [f] and the gain [g]. *)
Definition xavier_bound (f : nat) (g : R) : R := (g * sqrt (6 / INR (f + f)))%R.

(** The module [__init__] returns for the draws [u] (default
    initialisation of the projections) and [u'] ([reset_parameters]). *)
Definition constructed (fs nh : Z) (with_bias : bool) (ty : string) (p : R)
    (sc : pynum) (u u' : nat → nat → R) : BiasedMultiheadAttention.t :=
  let f := Z.to_nat fs in
  let default k :=
    if with_bias then Some (uniform_ [f] (/ sqrt (IZR fs)) (u k)) else None in
  BiasedMultiheadAttention.Build fs nh (fs / nh) sc ty
    (Linear.Build (uniform_ [f; f] (xavier_bound f (/ sqrt 2)) (u' 0)) (default 1))
    (Linear.Build (uniform_ [f; f] (xavier_bound f (/ sqrt 2)) (u' 1)) (default 3))
    (Linear.Build (uniform_ [f; f] (xavier_bound f (/ sqrt 2)) (u' 2)) (default 5))
    (Linear.Build (uniform_ [f; f] (xavier_bound f 1) (u' 3))
       (if with_bias then Some (constant_ [f] 0) else None))
    (Dropout.Build p true).

Lemma dropout_init_inv p d :
  Dropout.init p = Ok d → (0 <= p <= 1)%R ∧ d = Dropout.Build p true.
Proof.
  unfold Dropout.init. destruct (Rlt_dec p 0); [done|].
  destruct (Rlt_dec 1 p); [done|]. intros [= <-]. split; [lra|done].
Qed.

Lemma attention_init_inv fs nh with_bias ty p u u' m :
  BiasedMultiheadAttention.init fs nh with_bias ty p u u' = Ok m →
  nh ≠ 0%Z ∧ (fs / nh * nh = fs)%Z ∧ (0 < fs)%Z ∧ (0 <= p <= 1)%R ∧
  ∃ sc, pow_neg_half (fs / nh) = Ok sc ∧
        m = constructed fs nh with_bias ty p sc u u'.
Proof.
  unfold BiasedMultiheadAttention.init.
  destruct (Z.eqb_spec nh 0) as [|Hnh]; [done|].
  destruct (Z.eqb_spec (fs / nh * nh) fs) as [Hdiv|]; [|done]. simpl.
  destruct (pow_neg_half (fs / nh)) as [sc|] eqn:Hsc; [|done]. simpl.
  assert (fs ≠ 0)%Z as Hfs0.
  { intros ->. unfold pow_neg_half in Hsc. rewrite Z.div_0_l in Hsc by done. done. }
  destruct (decide (fs < 0)%Z) as [Hneg|Hpos].
  { by rewrite (linear_init_neg fs with_bias (u 0) (u 1)) by done. }
  assert (∀ a b, Linear.init fs fs with_bias a b
                 = Ok (Linear.Build (uniform_ [Z.to_nat fs; Z.to_nat fs]
                                       (/ sqrt (IZR fs)) a)
                         (if with_bias
                          then Some (uniform_ [Z.to_nat fs] (/ sqrt (IZR fs)) b)
                          else None))) as Hlin.
  { intros a b. unfold Linear.init. rewrite torch_empty_spec.
    rewrite bool_decide_true by (repeat constructor; lia). simpl.
    by destruct (Z.eqb_spec fs 0). }
  rewrite !Hlin. simpl.
  destruct (Dropout.init p) as [d|] eqn:Hd; [|done]. simpl.
  apply dropout_init_inv in Hd as [Hp ->].
  unfold BiasedMultiheadAttention.reset_parameters, xavier_uniform_. simpl.
  destruct (Nat.eqb_spec (Z.to_nat fs + Z.to_nat fs) 0); [lia|]. simpl.
  intros [= <-]. split_and!; [done|done|lia|lra|lra|].
  exists sc. split; [done|]. unfold constructed, xavier_bound.
  by destruct with_bias.
Qed.

Lemma uniform_fin sh bound u : all_fin (uniform_ sh bound u).
Proof. unfold all_fin, uniform_. cbn [data]. apply Forall_fmap, Forall_forall. by intros. Qed.

Lemma constant_fin sh c : all_fin (constant_ sh c).
Proof.
  unfold all_fin, constant_. cbn [data]. apply Forall_forall.
  by intros x [-> _]%elem_of_replicate.
Qed.

Lemma uniform_wf sh bound u : wf_tensor (uniform_ sh bound u).
Proof. unfold wf_tensor, uniform_. cbn [data shape]. by rewrite length_fmap, length_seq. Qed.

Lemma constant_wf sh c : wf_tensor (constant_ sh c).
Proof. unfold wf_tensor, constant_. cbn [data shape]. by rewrite length_replicate. Qed.

Lemma constructed_fin fs nh with_bias ty p sc u u' :
  fin_module (constructed fs nh with_bias ty p sc u u').
Proof.
  unfold fin_module, fin_linear, constructed.
  cbn [BiasedMultiheadAttention.q_proj BiasedMultiheadAttention.k_proj
       BiasedMultiheadAttention.v_proj BiasedMultiheadAttention.out_proj
       Linear.weight Linear.bias].
  destruct with_bias; split_and!; (done || apply uniform_fin || apply constant_fin).
Qed.

Lemma constructed_linear_wf fs nh with_bias ty p sc u u' :
  let m := constructed fs nh with_bias ty p sc u u' in
  wf_linear (BiasedMultiheadAttention.q_proj m) (Z.to_nat fs) ∧
  wf_linear (BiasedMultiheadAttention.k_proj m) (Z.to_nat fs) ∧
  wf_linear (BiasedMultiheadAttention.v_proj m) (Z.to_nat fs) ∧
  wf_linear (BiasedMultiheadAttention.out_proj m) (Z.to_nat fs).
Proof.
  unfold wf_linear, constructed.
  cbn [BiasedMultiheadAttention.q_proj BiasedMultiheadAttention.k_proj
       BiasedMultiheadAttention.v_proj BiasedMultiheadAttention.out_proj
       Linear.weight Linear.bias].
  destruct with_bias; split_and!;
    (done || apply uniform_wf || apply constant_wf).
Qed.

(** With a positive number of heads the constructed module is well
    formed, and its scaling factor is [1 / sqrt head_dim]. *)
Lemma constructed_wf fs nh with_bias ty p u u' m :
  (0 < nh)%Z →
  BiasedMultiheadAttention.init fs nh with_bias ty p u u' = Ok m →
  (0 < fs / nh)%Z ∧
  m = constructed fs nh with_bias ty p (PyFloat (Fin (/ sqrt (IZR (fs / nh))))) u u' ∧
  wf_module m (Z.to_nat nh) (Z.to_nat (fs / nh)) ∧ fin_module m.
Proof.
  intros Hnh Hinit.
  apply attention_init_inv in Hinit as (_ & Hdiv & Hfs & Hp & sc & Hsc & ->).
  assert (0 < fs / nh)%Z as Hhd by nia.
  rewrite pow_neg_half_pos in Hsc by done. injection Hsc as <-.
  split_and!; [done|done| |apply constructed_fin].
  assert (Z.to_nat nh * Z.to_nat (fs / nh) = Z.to_nat fs) as Hprod by nia.
  destruct (constructed_linear_wf fs nh with_bias ty p
              (PyFloat (Fin (/ sqrt (IZR (fs / nh))))) u u') as (Hq & Hk & Hv & Ho).
  constructor; rewrite ?Hprod; try done.
  - simpl. lia.
  - simpl. lia.
  - simpl. lia.
  - eexists. split; [done|]. apply Rinv_neq_0_compat.
    pose proof (sqrt_IZR_pos _ Hhd). lra.
Qed.

Lemma init_constructed fs nh with_bias ty p u u' :
  (0 < nh)%Z → (0 < fs)%Z → (nh | fs)%Z → (0 <= p <= 1)%R →
  BiasedMultiheadAttention.init fs nh with_bias ty p u u'
  = Ok (constructed fs nh with_bias ty p (PyFloat (Fin (/ sqrt (IZR (fs / nh))))) u u').
Proof.
  intros Hnh Hfs Hdiv Hp.
  destruct (attention_init_ok fs nh with_bias ty p u u' Hnh Hfs Hdiv Hp)
    as (m & Hm & _).
  rewrite Hm. f_equal. by apply constructed_wf in Hm as (_ & -> & _).
Qed.

(** X9. In a module built by the constructor with a positive number of
    heads, the score of a key before bias and mask is the dot product of
    query and key over the head multiplied by [sqrt head_dim]:
    dividing by [scaling = head_dim ** -0.5] multiplies. *)
Theorem constructed_score_times_sqrt fs nh with_bias ty p u u' m
    (q k : tensor fnum) (b hh i l : nat) (qr kr : nat → R) :
  (0 < nh)%Z →
  BiasedMultiheadAttention.init fs nh with_bias ty p u u' = Ok m →
  (∀ c, c < Z.to_nat (fs / nh) →
     at_index q [b; i; hh * Z.to_nat (fs / nh) + c] = Fin (qr c)) →
  (∀ c, c < Z.to_nat (fs / nh) →
     at_index k [b; l; hh * Z.to_nat (fs / nh) + c] = Fin (kr c)) →
  attention_score m (Z.to_nat (fs / nh)) q k None None b hh i l
  = Fin (sqrt (IZR (fs / nh))
         * foldr Rplus 0 ((λ c, qr c * kr c) <$> seq 0 (Z.to_nat (fs / nh))))%R.
Proof.
  intros Hnh Hinit Hq Hk.
  apply constructed_wf in Hinit as (Hhd & -> & _); [|done].
  unfold attention_score, mask_score, bias_score.
  cbn [constructed BiasedMultiheadAttention.scaling].
  pose proof (sqrt_IZR_pos _ Hhd) as Hpos.
  set (s := sqrt (IZR (fs / nh))) in *.
  assert ((λ c, fmul (fdiv (at_index q [b; i; hh * Z.to_nat (fs / nh) + c]) (Fin (/ s)))
                     (at_index k [b; l; hh * Z.to_nat (fs / nh) + c]))
            <$> seq 0 (Z.to_nat (fs / nh))
          = Fin <$> ((λ c, s * (qr c * kr c))%R <$> seq 0 (Z.to_nat (fs / nh)))) as ->.
  { rewrite <- list_fmap_compose. apply list_fmap_ext. intros ? c [-> Hc]%lookup_seq.
    rewrite Nat.add_0_l. simpl. rewrite Hq, Hk by done.
    rewrite fdiv_fin by (apply Rinv_neq_0_compat; lra).
    simpl. f_equal. unfold Rdiv. rewrite Rinv_inv. lra. }
  rewrite fsum_Fin. f_equal.
  generalize (seq 0 (Z.to_nat (fs / nh))). intros cs.
  induction cs as [|c cs IH]; [simpl; lra|].
  rewrite !fmap_cons. cbn [foldr]. rewrite IH. lra.
Qed.

Lemma constructed_score_times_sqrt_witness :
  attention_score
    (constructed 8 2 true "add" 0 (PyFloat (Fin (/ sqrt (IZR (8 / 2)))))
       (λ _, INR) (λ _, INR))
    (Z.to_nat (8 / 2))
    (Tensor [1; 1; 8] (replicate 8 (Fin 1))) (Tensor [1; 1; 8] (replicate 8 (Fin 1)))
    None None 0 1 0 0
  = Fin (sqrt (IZR (8 / 2))
         * foldr Rplus 0 ((λ c, 1 * 1) <$> seq 0 (Z.to_nat (8 / 2))))%R.
Proof.
  apply (constructed_score_times_sqrt 8 2 true "add" 0 (λ _, INR) (λ _, INR)
           (constructed 8 2 true "add" 0 (PyFloat (Fin (/ sqrt (IZR (8 / 2)))))
              (λ _, INR) (λ _, INR))
           (Tensor [1; 1; 8] (replicate 8 (Fin 1)))
           (Tensor [1; 1; 8] (replicate 8 (Fin 1))) 0 1 0 0 (λ _, 1%R) (λ _, 1%R)).
  - lia.
  - apply init_constructed; [lia|lia|by exists 4%Z|lra].
  - intros c Hc. change (Z.to_nat (8 / 2)) with 4 in Hc.
    do 4 (destruct c as [|c]; [reflexivity|]). lia.
  - intros c Hc. change (Z.to_nat (8 / 2)) with 4 in Hc.
    do 4 (destruct c as [|c]; [reflexivity|]). lia.
Defined.

(** X10. What a successful construction leaves in the module: the three
    projections of query, key and value have weights drawn within the
    Xavier bound of gain [2 ** -0.5], the output projection within the
    bound of gain 1 and, when biases are used, a bias of zeros; the
    biases of the other three projections keep the default
    initialisation of [nn.Linear].  Every parameter is a finite
    number. *)
Theorem attention_init_parameters fs nh with_bias ty p u u' m :
  BiasedMultiheadAttention.init fs nh with_bias ty p u u' = Ok m →
  (∀ a k, (-1 <= u' a k <= 1)%R) →
  let f := Z.to_nat fs in
  let within (l : Linear.t) (g : R) :=
    shape (Linear.weight l) = [f; f] ∧
    Forall (λ x, ∃ r, x = Fin r ∧ (Rabs r <= xavier_bound f g)%R)
      (data (Linear.weight l)) in
  (∃ sc, pow_neg_half (fs / nh) = Ok sc ∧
         m = constructed fs nh with_bias ty p sc u u') ∧
  fin_module m ∧
  within (BiasedMultiheadAttention.q_proj m) (/ sqrt 2)%R ∧
  within (BiasedMultiheadAttention.k_proj m) (/ sqrt 2)%R ∧
  within (BiasedMultiheadAttention.v_proj m) (/ sqrt 2)%R ∧
  within (BiasedMultiheadAttention.out_proj m) 1%R ∧
  Linear.bias (BiasedMultiheadAttention.out_proj m)
  = (if with_bias then Some (constant_ [f] 0) else None).
Proof.
  intros Hinit Hu f within.
  apply attention_init_inv in Hinit as (_ & _ & Hfs & _ & sc & Hsc & ->).
  assert (∀ g a, (0 <= g)%R →
            Forall (λ x, ∃ r, x = Fin r ∧ (Rabs r <= xavier_bound f g)%R)
              (data (uniform_ [f; f] (xavier_bound f g) (u' a)))) as Hbound.
  { intros g a Hg. unfold uniform_. cbn [data]. apply Forall_fmap, Forall_forall.
    intros k _. simpl. eexists. split; [done|].
    assert (0 <= xavier_bound f g)%R as Hb.
    { unfold xavier_bound. apply Rmult_le_pos; [done|apply sqrt_pos]. }
    specialize (Hu a k). rewrite Rabs_mult, (Rabs_pos_eq _ Hb).
    rewrite <- (Rmult_1_r (xavier_bound f g)) at 2.
    apply Rmult_le_compat_l; [done|]. apply Rabs_le. lra. }
  assert (0 <= / sqrt 2)%R as Hg.
  { left. apply Rinv_0_lt_compat, sqrt_lt_R0. lra. }
  split_and!; [by exists sc|apply constructed_fin|..|done];
    (split; [done|apply Hbound; (done || lra)]).
Qed.

Lemma attention_init_parameters_witness :
  let m := constructed 8 2 true "add" 0 (PyFloat (Fin (/ sqrt (IZR (8 / 2)))))
             (λ _ _, 0%R) (λ _ _, 0%R) in
  let f := Z.to_nat 8 in
  let within (l : Linear.t) (g : R) :=
    shape (Linear.weight l) = [f; f] ∧
    Forall (λ x, ∃ r, x = Fin r ∧ (Rabs r <= xavier_bound f g)%R)
      (data (Linear.weight l)) in
  (∃ sc, pow_neg_half (8 / 2) = Ok sc ∧
         m = constructed 8 2 true "add" 0 sc (λ _ _, 0%R) (λ _ _, 0%R)) ∧
  fin_module m ∧
  within (BiasedMultiheadAttention.q_proj m) (/ sqrt 2)%R ∧
  within (BiasedMultiheadAttention.k_proj m) (/ sqrt 2)%R ∧
  within (BiasedMultiheadAttention.v_proj m) (/ sqrt 2)%R ∧
  within (BiasedMultiheadAttention.out_proj m) 1%R ∧
  Linear.bias (BiasedMultiheadAttention.out_proj m)
  = (if true then Some (constant_ [f] 0) else None).
Proof.
  apply (attention_init_parameters 8 2 true "add" 0 (λ _ _, 0%R) (λ _ _, 0%R)).
  - apply init_constructed; [lia|lia|by exists 4%Z|lra].
  - intros _ _. lra.
Defined.

(** X11. A module built by the constructor with a positive number of
    heads accepts every input of the documented shapes: [forward]
    returns a tensor of shape [bsz; n; feat_size]. *)
Theorem constructed_forward_shape reshape_is_view to_bool_is_noop
    fs nh with_bias ty p u u' m bsz n keep ndata attn_bias attn_mask s0 :
  (0 < nh)%Z →
  BiasedMultiheadAttention.init fs nh with_bias ty p u u' = Ok m →
  valid s0 ndata → valid_opt s0 attn_bias → valid_opt s0 attn_mask →
  shape (view ndata) = [bsz; n; Z.to_nat fs] →
  shaped_opt attn_bias [bsz; n; n; Z.to_nat nh] →
  shaped_opt attn_mask [bsz; n; n] →
  ∃ out s1,
    BiasedMultiheadAttention.forward reshape_is_view to_bool_is_noop
      m keep ndata attn_bias attn_mask s0 = (Ok out, s1) ∧
    shape (value s1 out) = [bsz; n; Z.to_nat fs].
Proof.
  intros Hnh Hinit Hn Hb Hk Hns Hbs Hks.
  pose proof Hinit as (_ & Hdiv & Hfs & _)%attention_init_inv.
  apply constructed_wf in Hinit as (Hhd & _ & Hm & _); [|done].
  assert (Z.to_nat nh * Z.to_nat (fs / nh) = Z.to_nat fs) as Hprod by nia.
  rewrite <- Hprod in Hns |- *.
  destruct (forward_val_at m _ _ bsz n (value s0 ndata) (value s0 <$> attn_bias)
              (value s0 <$> attn_mask) keep Hm Hns
              (shaped_opt_has_shape _ _ _ Hb Hbs) (shaped_opt_shape s0 _ _ Hks))
    as (_ & _ & _ & out & _ & Efw & _ & _ & Hos & _).
  destruct (forward_run reshape_is_view to_bool_is_noop m keep ndata attn_bias attn_mask
              s0 Hn Hb Hk) as (r & s1 & Efrun & _ & Hr).
  rewrite Efw in Hr. destruct r as [oh|]; [|done].
  exists oh, s1. by rewrite (repr_value _ _ _ Hr).
Qed.

Lemma constructed_forward_shape_witness :
  ∃ out s1,
    BiasedMultiheadAttention.forward (λ _ _, true) (λ _, true)
      (constructed 8 2 true "add" (1 / 10) (PyFloat (Fin (/ sqrt (IZR (8 / 2)))))
         (λ _, INR) (λ _, INR))
      (λ _, true) example_ndata (Some example_bias) (Some example_mask) masked_store
    = (Ok out, s1) ∧
    shape (value s1 out) = [2; 4; Z.to_nat 8].
Proof.
  apply (constructed_forward_shape (λ _ _, true) (λ _, true) 8 2 true "add" (1 / 10)
           (λ _, INR) (λ _, INR) _ 2 4 (λ _, true)
           example_ndata (Some example_bias) (Some example_mask) masked_store).
  - lia.
  - apply init_constructed; [lia|lia|by exists 4%Z|lra].
  - apply masked_ndata_valid.
  - apply masked_bias_valid.
  - apply masked_mask_valid.
  - reflexivity.
  - reflexivity.
  - reflexivity.
Defined.

(** ** Inputs and sizes that [forward] rejects *)

(** The constructor returns for every number of heads that divides a
    positive [feat_size], whatever its sign. *)
Lemma init_constructed_signed fs nh with_bias ty p sc u u' :
  nh ≠ 0%Z → (0 < fs)%Z → (nh | fs)%Z → (0 <= p <= 1)%R →
  pow_neg_half (fs / nh) = Ok sc →
  BiasedMultiheadAttention.init fs nh with_bias ty p u u'
  = Ok (constructed fs nh with_bias ty p sc u u').
Proof.
  intros Hnh Hfs [z Hz] Hp Hsc. unfold BiasedMultiheadAttention.init.
  destruct (Z.eqb_spec nh 0); [done|].
  assert (fs / nh = z)%Z as Hdiv by (subst fs; by apply Z.div_mul).
  rewrite Hdiv in Hsc |- *. destruct (Z.eqb_spec (z * nh) fs); [|lia]. simpl.
  rewrite Hsc. simpl.
  assert (∀ a b, Linear.init fs fs with_bias a b
                 = Ok (Linear.Build (uniform_ [Z.to_nat fs; Z.to_nat fs]
                                       (/ sqrt (IZR fs)) a)
                         (if with_bias
                          then Some (uniform_ [Z.to_nat fs] (/ sqrt (IZR fs)) b)
                          else None))) as Hlin.
  { intros a b. unfold Linear.init. rewrite torch_empty_spec.
    rewrite bool_decide_true by (repeat constructor; lia). simpl.
    destruct (Z.eqb_spec fs 0); [lia|done]. }
  rewrite !Hlin. simpl. rewrite dropout_init_ok by done. simpl.
  unfold BiasedMultiheadAttention.reset_parameters, xavier_uniform_. simpl.
  destruct (Nat.eqb_spec (Z.to_nat fs + Z.to_nat fs) 0); [lia|]. simpl.
  unfold constructed, xavier_bound. rewrite Hdiv. by destruct with_bias.
Qed.

(** [reshape] to a number of heads and a head width that are negative. *)
Lemma reshape_negative_heads {A} (t : tensor A) (n bsz : nat) (nh hd : Z) :
  (nh < 0)%Z → (hd < 0)%Z →
  reshape t [Z.of_nat n; (Z.of_nat bsz * nh)%Z; hd] = Raise RuntimeError.
Proof.
  intros Hnh Hhd. unfold reshape.
  assert (infer_size [Z.of_nat n; (Z.of_nat bsz * nh)%Z; hd] (numel (shape t))
          = Raise RuntimeError) as ->; [|done].
  unfold infer_size. case_bool_decide as Hex; [done|].
  assert (hd = -1)%Z as ->.
  { destruct (decide (hd < -1)%Z); [|lia]. exfalso. apply Hex.
    do 2 right. by left. }
  assert (Z.of_nat bsz * nh = -1 ∨ Z.of_nat bsz * nh = 0)%Z as [E|E].
  { destruct (decide (Z.of_nat bsz * nh < -1)%Z); [|nia]. exfalso. apply Hex.
    right. by left. }
  - rewrite E. rewrite !filter_cons, filter_nil.
    rewrite (decide_False (P := (Z.of_nat n = -1)%Z)) by lia.
    rewrite !(decide_True (P := (-1 = -1)%Z)) by done.
    reflexivity.
  - rewrite E. rewrite !filter_cons, !filter_nil.
    rewrite (decide_False (P := (Z.of_nat n = -1)%Z)) by lia.
    rewrite (decide_True (P := (Z.of_nat n ≠ -1)%Z)) by lia.
    rewrite (decide_False (P := (0 = -1)%Z)) by lia.
    rewrite (decide_True (P := (0 ≠ -1)%Z)) by lia.
    rewrite (decide_True (P := (-1 = -1)%Z)) by done.
    rewrite (decide_False (P := (-1 ≠ -1)%Z)) by lia.
    cbn [length fmap list_fmap numel foldr Z.to_nat].
    rewrite Nat.mul_0_l, Nat.mul_0_r. done.
Qed.

(** X12. A negative number of heads that divides a positive [feat_size]
    passes the constructor: the quotient [head_dim] is negative and
    [head_dim ** -0.5] is a complex number.  Every call of [forward] on
    that module with an input of shape [bsz; n; feat_size] raises
    [RuntimeError], at the first [reshape]. *)
Theorem negative_heads_fail_in_forward reshape_is_view to_bool_is_noop
    fs nh with_bias ty p u u' bsz n keep ndata attn_bias attn_mask s0 :
  (nh < 0)%Z → (0 < fs)%Z → (nh | fs)%Z → (0 <= p <= 1)%R →
  valid s0 ndata → valid_opt s0 attn_bias → valid_opt s0 attn_mask →
  shape (view ndata) = [bsz; n; Z.to_nat fs] →
  ∃ m,
    BiasedMultiheadAttention.init fs nh with_bias ty p u u' = Ok m ∧
    BiasedMultiheadAttention.scaling m
    = PyComplex 0 (- / sqrt (IZR (- (fs / nh)))) ∧
    (BiasedMultiheadAttention.forward reshape_is_view to_bool_is_noop
       m keep ndata attn_bias attn_mask s0).1 = Raise RuntimeError.
Proof.
  intros Hnh Hfs Hdiv Hp Hn Hb Hk Hns.
  assert (fs / nh < 0)%Z as Hhd.
  { destruct Hdiv as [z Hz]. subst fs. rewrite Z.div_mul by lia. nia. }
  assert (pow_neg_half (fs / nh) = Ok (PyComplex 0 (- / sqrt (IZR (- (fs / nh))))))
    as Hsc.
  { unfold pow_neg_half. destruct (Z.eqb_spec (fs / nh) 0); [lia|].
    destruct (Z.ltb_spec 0 (fs / nh)); [lia|done]. }
  eexists. split; [by apply init_constructed_signed; try done; lia|].
  split; [done|].
  set (m := constructed _ _ _ _ _ _ _ _).
  destruct (forward_run reshape_is_view to_bool_is_noop m keep ndata attn_bias attn_mask
              s0 Hn Hb Hk) as (r & s1 & -> & _ & Hr).
  assert (forward_val m keep (value s0 ndata) (value s0 <$> attn_bias)
            (value s0 <$> attn_mask) = Raise RuntimeError) as Efw.
  { destruct (constructed_linear_wf fs nh with_bias ty p
                (PyComplex 0 (- / sqrt (IZR (- (fs / nh))))) u u') as (Hq & Hkk & Hv & _).
    fold m in Hq, Hkk, Hv.
    destruct (linear_forward_ok _ _ (value s0 ndata) [bsz; n] Hq Hns)
      as (q & Eq & Hqs & _).
    destruct (linear_forward_ok _ _ (value s0 ndata) [bsz; n] Hkk Hns)
      as (k & Ek & Hks & _).
    destruct (linear_forward_ok _ _ (value s0 ndata) [bsz; n] Hv Hns)
      as (v & Ev & Hvs & _).
    unfold forward_val, attention_val.
    go Eq. rewrite (transpose_ok q) by (rewrite Hqs; simpl; lia).
    rewrite result_bind_ok. cbv beta iota.
    go Ek. rewrite (transpose_ok k) by (rewrite Hks; simpl; lia).
    rewrite result_bind_ok. cbv beta iota.
    go Ev. rewrite (transpose_ok v) by (rewrite Hvs; simpl; lia).
    rewrite result_bind_ok. cbv beta iota.
    change (shape (value s0 ndata)) with (shape (view ndata)). rewrite Hns.
    simpl unpack3. rewrite result_bind_ok. cbv beta iota.
    change (BiasedMultiheadAttention.num_heads m) with nh.
    change (BiasedMultiheadAttention.head_dim m) with (fs / nh)%Z.
    rewrite (reshape_negative_heads (permuted _ q)) by done. reflexivity. }
  rewrite Efw in Hr. simpl. by destruct r as [|e]; [|subst e].
Qed.

Lemma negative_heads_fail_in_forward_witness :
  ∃ m,
    BiasedMultiheadAttention.init 8 (-2) true "add" 0 (λ _, INR) (λ _, INR) = Ok m ∧
    BiasedMultiheadAttention.scaling m
    = PyComplex 0 (- / sqrt (IZR (- (8 / -2)))) ∧
    (BiasedMultiheadAttention.forward (λ _ _, true) (λ _, true)
       m (λ _, true) example_ndata None None example_store).1 = Raise RuntimeError.
Proof.
  apply (negative_heads_fail_in_forward (λ _ _, true) (λ _, true) 8 (-2) true "add" 0
           (λ _, INR) (λ _, INR) 2 4 (λ _, true) example_ndata None None example_store).
  - lia.
  - lia.
  - by exists (-4)%Z.
  - lra.
  - apply example_ndata_valid.
  - exact I.
  - exact I.
  - reflexivity.
Defined.

(** X13. What [forward] does with a node feature tensor that is not of
    shape [bsz; n; feat_size].  When the last size is [feat_size]: a 1-D
    tensor fails at [transpose(0, 1)] with [IndexError]; a tensor of 2
    or of more than 3 dimensions passes the projections and fails at
    [bsz, N, _ = ndata.shape] with [ValueError].  When the last size is
    not [feat_size], or the tensor has no dimension, the first
    projection raises [RuntimeError]. *)
Theorem forward_rejects_other_shapes reshape_is_view to_bool_is_noop
    m h hd keep ndata attn_bias attn_mask s0 :
  wf_module m h hd →
  valid s0 ndata → valid_opt s0 attn_bias → valid_opt s0 attn_mask →
  let outcome :=
    (BiasedMultiheadAttention.forward reshape_is_view to_bool_is_noop
       m keep ndata attn_bias attn_mask s0).1 in
  (∀ lead, shape (view ndata) = lead ++ [h * hd] → length lead ≠ 2 →
     outcome = Raise (if length lead =? 0 then IndexError else ValueError)) ∧
  (∀ lead f, shape (view ndata) = lead ++ [f] → f ≠ h * hd →
     outcome = Raise RuntimeError) ∧
  (shape (view ndata) = [] → outcome = Raise RuntimeError).
Proof.
  intros Hm Hn Hb Hk outcome.
  destruct (forward_run reshape_is_view to_bool_is_noop m keep ndata attn_bias attn_mask
              s0 Hn Hb Hk) as (r & s1 & Erun & _ & Hr).
  assert (∀ e, forward_val m keep (value s0 ndata) (value s0 <$> attn_bias)
                 (value s0 <$> attn_mask) = Raise e → outcome = Raise e) as Hout.
  { intros e He. unfold outcome. rewrite Erun. rewrite He in Hr. simpl.
    by destruct r as [|e']; [|subst e']. }
  destruct (wf_q_proj _ _ _ Hm) as (Hqw & _ & _).
  split_and!.
  - intros lead Hns Hlen. apply Hout.
    destruct (linear_forward_ok _ _ (value s0 ndata) lead (wf_q_proj _ _ _ Hm) Hns)
      as (q & Eq & Hqs & _).
    destruct (linear_forward_ok _ _ (value s0 ndata) lead (wf_k_proj _ _ _ Hm) Hns)
      as (k & Ek & Hks & _).
    destruct (linear_forward_ok _ _ (value s0 ndata) lead (wf_v_proj _ _ _ Hm) Hns)
      as (v & Ev & Hvs & _).
    unfold forward_val, attention_val. go Eq.
    destruct lead as [|a lead].
    { unfold transpose. rewrite Hqs. reflexivity. }
    assert ((length (a :: lead) =? 0) = false) as -> by done.
    rewrite (transpose_ok q) by (rewrite Hqs, length_app; simpl; lia).
    rewrite result_bind_ok. cbv beta iota.
    go Ek. rewrite (transpose_ok k) by (rewrite Hks, length_app; simpl; lia).
    rewrite result_bind_ok. cbv beta iota.
    go Ev. rewrite (transpose_ok v) by (rewrite Hvs, length_app; simpl; lia).
    rewrite result_bind_ok. cbv beta iota.
    change (shape (value s0 ndata)) with (shape (view ndata)). rewrite Hns.
    destruct lead as [|b [|c [|d lead]]]; [reflexivity|done|reflexivity..].
  - intros lead f Hns Hf. apply Hout.
    unfold forward_val, attention_val, Linear.forward.
    change (shape (value s0 ndata)) with (shape (view ndata)).
    rewrite Hqw, Hns, reverse_app. simpl.
    destruct (Nat.eqb_spec (h * hd) f); [congruence|]. reflexivity.
  - intros Hns. apply Hout.
    unfold forward_val, attention_val, Linear.forward.
    change (shape (value s0 ndata)) with (shape (view ndata)).
    rewrite Hqw, Hns. reflexivity.
Qed.

Lemma forward_rejects_other_shapes_witness :
  let outcome :=
    (BiasedMultiheadAttention.forward (λ _ _, true) (λ _, true)
       example_module (λ _, true) (Handle 0 (Tensor [8; 8] (seq 0 64))) None None
       example_store).1 in
  (∀ lead, shape (view (Handle 0 (Tensor [8; 8] (seq 0 64)))) = lead ++ [2 * 4] →
     length lead ≠ 2 →
     outcome = Raise (if length lead =? 0 then IndexError else ValueError)) ∧
  (∀ lead f, shape (view (Handle 0 (Tensor [8; 8] (seq 0 64)))) = lead ++ [f] →
     f ≠ 2 * 4 → outcome = Raise RuntimeError) ∧
  (shape (view (Handle 0 (Tensor [8; 8] (seq 0 64)))) = [] →
   outcome = Raise RuntimeError).
Proof.
  apply (forward_rejects_other_shapes (λ _ _, true) (λ _, true) example_module 2 4
           (λ _, true) (Handle 0 (Tensor [8; 8] (seq 0 64))) None None example_store).
  - apply example_module_wf.
  - exists (replicate 64 (Fin 1)). split_and!; [reflexivity|reflexivity|].
    apply Forall_forall. intros o Ho%elem_of_seq. simpl. lia.
  - exact I.
  - exact I.
Defined.

(** X19. The mask has to fit the leading dimensions of the scores, which
    have shape [bsz; n; n; num_heads]: with a mask whose shape is not a
    prefix of that shape, [forward] raises [IndexError] at
    [attn_weights[mask] = -inf]. *)
Theorem forward_rejects_mask_shape reshape_is_view to_bool_is_noop
    m h hd bsz n keep ndata attn_bias mask s0 :
  wf_module m h hd →
  valid s0 ndata → valid_opt s0 attn_bias → valid s0 mask →
  shape (view ndata) = [bsz; n; h * hd] →
  shaped_opt attn_bias [bsz; n; n; h] →
  take (length (shape (view mask))) [bsz; n; n; h] ≠ shape (view mask) →
  (BiasedMultiheadAttention.forward reshape_is_view to_bool_is_noop
     m keep ndata attn_bias (Some mask) s0).1 = Raise IndexError.
Proof.
  intros Hm Hn Hb Hk Hns Hbs Hks.
  destruct (forward_run reshape_is_view to_bool_is_noop m keep ndata attn_bias
              (Some mask) s0 Hn Hb Hk) as (r & s1 & -> & _ & Hr).
  assert (forward_val m keep (value s0 ndata) (value s0 <$> attn_bias)
            (Some (value s0 mask)) = Raise IndexError) as Efw.
  { destruct (raw_scores m h hd bsz n (value s0 ndata) Hm Hns)
      as (sc & q & k & v & w & vh & _ & _ & _ & _ & _ & Hws & Hww & _ & _ & _ & _ & Eatt).
    destruct (apply_bias_at (BiasedMultiheadAttention.attn_bias_type m) w
                (value s0 <$> attn_bias) bsz n h Hws Hww
                (shaped_opt_has_shape _ _ _ Hb Hbs)) as (w' & Ew' & Hws' & _).
    unfold forward_val. rewrite Eatt, Ew', result_bind_ok.
    unfold masked_softmax, masked_fill. cbn [to_bool shape].
    rewrite Hws'. change (shape (value s0 mask)) with (shape (view mask)).
    by rewrite bool_decide_false. }
  simpl in Hr. rewrite Efw in Hr. simpl. by destruct r as [|e]; [|subst e].
Qed.

Lemma forward_rejects_mask_shape_witness :
  (BiasedMultiheadAttention.forward (λ _ _, true) (λ _, true)
     example_module (λ _, true) example_ndata None
     (Some (Handle 1 (Tensor [4; 4] (seq 0 16)))) example_store).1 = Raise IndexError.
Proof.
  apply (forward_rejects_mask_shape (λ _ _, true) (λ _, true) example_module 2 4 2 4
           (λ _, true) example_ndata None (Handle 1 (Tensor [4; 4] (seq 0 16)))
           example_store).
  - apply example_module_wf.
  - apply example_ndata_valid.
  - exact I.
  - exists (replicate 64 (Fin 0)). split_and!; [reflexivity|reflexivity|].
    apply Forall_forall. intros o Ho%elem_of_seq. simpl. lia.
  - reflexivity.
  - exact I.
  - discriminate.
Defined.

(** ** The attention bias *)

Lemma fadd_zero x : fadd x (Fin 0) = x.
Proof. destruct x as [a| | |]; simpl; try done. by rewrite Rplus_0_r. Qed.

Lemma fmul_one x : fmul x (Fin 1) = x.
Proof.
  destruct x as [a| | |]; simpl; try done.
  - by rewrite Rmult_1_r.
  - destruct (Req_dec_T 1 0); [lra|]. simpl. by destruct (Rlt_dec 1 0); [lra|].
  - destruct (Req_dec_T 1 0); [lra|]. simpl. by destruct (Rlt_dec 1 0); [lra|].
Qed.

Lemma zip_with_neutral (f : fnum → fnum → fnum) (e : fnum) (l k : list fnum) :
  (∀ x, f x e = x) → length k = length l → Forall (λ y, y = e) k →
  zip_with f l k = l.
Proof.
  intros Hf. revert k. induction l as [|x l IH]; intros [|y k] Hlen Hk; try done.
  apply Forall_cons in Hk as [-> Hk]. simpl. rewrite Hf, IH; [done|by injection Hlen|done].
Qed.

(** The bias step with the neutral element of its operation changes
    nothing. *)
Lemma apply_bias_neutral ty (w b : tensor fnum) :
  wf_tensor w → wf_tensor b → shape b = shape w →
  Forall (λ x, x = Fin (if String.eqb ty "add" then 0 else 1)) (data b) →
  apply_bias ty w (Some b) = Ok w.
Proof.
  intros Hw Hb Hs Hall. unfold apply_bias.
  assert (length (data b) = length (data w)) as Hlen
    by (unfold wf_tensor in *; congruence).
  destruct (String.eqb ty "add"); rewrite inplace_binop_same_shape by done;
    rewrite result_fmap_ok; f_equal; destruct w as [sh d]; unfold updated; simpl;
    f_equal; eapply zip_with_neutral; try done; [apply fadd_zero|apply fmul_one].
Qed.

(** X14. A bias that holds the neutral element of the bias operation at
    every position, 0 for the type "add" and 1 otherwise, has no effect:
    [forward] returns the tensor it returns without a bias. *)
Theorem neutral_bias_is_no_bias reshape_is_view to_bool_is_noop
    m h hd bsz n keep ndata bias attn_mask s0 :
  wf_module m h hd →
  valid s0 ndata → valid s0 bias → valid_opt s0 attn_mask →
  shape (view ndata) = [bsz; n; h * hd] →
  shape (view bias) = [bsz; n; n; h] →
  shaped_opt attn_mask [bsz; n; n] →
  Forall (λ x, x = Fin (if String.eqb (BiasedMultiheadAttention.attn_bias_type m) "add"
                        then 0 else 1)) (data (value s0 bias)) →
  ∃ out s1 out' s1',
    BiasedMultiheadAttention.forward reshape_is_view to_bool_is_noop
      m keep ndata (Some bias) attn_mask s0 = (Ok out, s1) ∧
    BiasedMultiheadAttention.forward reshape_is_view to_bool_is_noop
      m keep ndata None attn_mask s0 = (Ok out', s1') ∧
    value s1 out = value s1' out'.
Proof.
  intros Hm Hn Hb Hk Hns Hbs Hks Hneutral.
  pose proof (shaped_opt_shape s0 _ _ Hks) as Hks'.
  assert (has_shape (Some (value s0 bias)) [bsz; n; n; h]) as Hbs'.
  { split; [done|]. by eapply repr_wf, valid_repr. }
  destruct (raw_scores m h hd bsz n (value s0 ndata) Hm Hns)
    as (sc & q & k & v & w & vh & _ & _ & _ & _ & _ & Hws & Hww & _ & _ & _ & _ & Eatt).
  assert (attention_val m (value s0 ndata) (Some (value s0 bias)) (value s0 <$> attn_mask)
          = attention_val m (value s0 ndata) None (value s0 <$> attn_mask)) as Eeq.
  { rewrite !Eatt. rewrite apply_bias_neutral; [done|done|apply Hbs'| |done].
    destruct Hbs' as [-> _]. done. }
  assert (forward_val m keep (value s0 ndata) (Some (value s0 bias))
            (value s0 <$> attn_mask)
          = forward_val m keep (value s0 ndata) None (value s0 <$> attn_mask)) as Efw.
  { unfold forward_val. by rewrite Eeq. }
  destruct (forward_val_at m h hd bsz n (value s0 ndata) None
              (value s0 <$> attn_mask) keep Hm Hns I Hks')
    as (_ & _ & _ & out & _ & Eout & _).
  destruct (forward_run reshape_is_view to_bool_is_noop m keep ndata (Some bias)
              attn_mask s0 Hn Hb Hk) as (r & s1 & Erun & _ & Hr).
  destruct (forward_run reshape_is_view to_bool_is_noop m keep ndata None
              attn_mask s0 Hn I Hk) as (r' & s1' & Erun' & _ & Hr').
  simpl in Hr, Hr'. rewrite Efw, Eout in Hr. rewrite Eout in Hr'.
  destruct r as [oh|]; [|done]. destruct r' as [oh'|]; [|done].
  exists oh, s1, oh', s1'.
  by rewrite (repr_value _ _ _ Hr), (repr_value _ _ _ Hr').
Qed.

Lemma neutral_bias_is_no_bias_witness :
  ∃ out s1 out' s1',
    BiasedMultiheadAttention.forward (λ _ _, true) (λ _, true)
      example_module (λ _, true) example_ndata (Some example_bias) (Some example_mask)
      masked_store = (Ok out, s1) ∧
    BiasedMultiheadAttention.forward (λ _ _, true) (λ _, true)
      example_module (λ _, true) example_ndata None (Some example_mask)
      masked_store = (Ok out', s1') ∧
    value s1 out = value s1' out'.
Proof.
  apply (neutral_bias_is_no_bias (λ _ _, true) (λ _, true) example_module 2 4 2 4
           (λ _, true) example_ndata example_bias (Some example_mask) masked_store).
  - apply example_module_wf.
  - apply masked_ndata_valid.
  - apply masked_bias_valid.
  - apply masked_mask_valid.
  - reflexivity.
  - reflexivity.
  - reflexivity.
  - simpl. repeat constructor.
Defined.

(** The module with another bias type. *)
Definition with_bias_type (ty : string) (m : BiasedMultiheadAttention.t)
    : BiasedMultiheadAttention.t :=
  BiasedMultiheadAttention.Build
    (BiasedMultiheadAttention.feat_size m) (BiasedMultiheadAttention.num_heads m)
    (BiasedMultiheadAttention.head_dim m) (BiasedMultiheadAttention.scaling m) ty
    (BiasedMultiheadAttention.q_proj m) (BiasedMultiheadAttention.k_proj m)
    (BiasedMultiheadAttention.v_proj m) (BiasedMultiheadAttention.out_proj m)
    (BiasedMultiheadAttention.dropout m).

(** X15. The bias type is not checked, neither by the constructor nor
    by [forward]: a type other than "add" is accepted at construction
    (the module built is the one built for "mul", with the type
    recorded), and [forward] then multiplies the scores by the bias
    as it does for "mul". *)
Theorem unknown_bias_type_multiplies reshape_is_view to_bool_is_noop
    fs nh with_bias ty p u u' m keep ndata attn_bias attn_mask s0 :
  ty ≠ "add"%string →
  BiasedMultiheadAttention.init fs nh with_bias ty p u u'
  = with_bias_type ty <$> BiasedMultiheadAttention.init fs nh with_bias "mul" p u u' ∧
  BiasedMultiheadAttention.forward reshape_is_view to_bool_is_noop
    (with_bias_type ty m) keep ndata attn_bias attn_mask s0
  = BiasedMultiheadAttention.forward reshape_is_view to_bool_is_noop
      (with_bias_type "mul" m) keep ndata attn_bias attn_mask s0.
Proof.
  intros Hty. split.
  - unfold BiasedMultiheadAttention.init.
    destruct (nh =? 0)%Z; [done|]. cbv zeta.
    destruct (negb _); [reflexivity|].
    destruct (pow_neg_half _); [|reflexivity]. simpl.
    destruct (Linear.init _ _ _ (u 0) _); [|done]. simpl.
    destruct (Linear.init _ _ _ (u 2) _); [|done]. simpl.
    destruct (Linear.init _ _ _ (u 4) _); [|done]. simpl.
    destruct (Linear.init _ _ _ (u 6) _); [|done]. simpl.
    destruct (Dropout.init p); [|done]. simpl.
    unfold BiasedMultiheadAttention.reset_parameters. simpl.
    do 4 (match goal with
          | |- context [xavier_uniform_ ?w ?g ?s ≫= _] =>
              destruct (xavier_uniform_ w g s); [|reflexivity]
          end; rewrite ?result_bind_ok; cbv beta).
    reflexivity.
  - unfold BiasedMultiheadAttention.forward, BiasedMultiheadAttention.attention.
    cbn [with_bias_type BiasedMultiheadAttention.attn_bias_type
         BiasedMultiheadAttention.q_proj BiasedMultiheadAttention.k_proj
         BiasedMultiheadAttention.v_proj BiasedMultiheadAttention.out_proj
         BiasedMultiheadAttention.num_heads BiasedMultiheadAttention.head_dim
         BiasedMultiheadAttention.feat_size BiasedMultiheadAttention.scaling
         BiasedMultiheadAttention.dropout].
    destruct (String.eqb_spec ty "add"); [contradiction|].
    reflexivity.
Qed.

Lemma unknown_bias_type_multiplies_witness :
  BiasedMultiheadAttention.init 8 2 true "sub" 0 (λ _, INR) (λ _, INR)
  = with_bias_type "sub"
      <$> BiasedMultiheadAttention.init 8 2 true "mul" 0 (λ _, INR) (λ _, INR) ∧
  BiasedMultiheadAttention.forward (λ _ _, true) (λ _, true)
    (with_bias_type "sub" example_module) (λ _, true)
    example_ndata (Some example_bias) None example_store
  = BiasedMultiheadAttention.forward (λ _ _, true) (λ _, true)
      (with_bias_type "mul" example_module) (λ _, true)
      example_ndata (Some example_bias) None example_store.
Proof.
  apply (unknown_bias_type_multiplies (λ _ _, true) (λ _, true) 8 2 true "sub" 0
           (λ _, INR) (λ _, INR) example_module (λ _, true)
           example_ndata (Some example_bias) None example_store).
  discriminate.
Defined.

(** ** A masked node does not influence the other nodes *)

(** What the dropout layer does to the element at position [k] of a
    tensor of shape [sh]. *)
Definition dropout_at (d : Dropout.t) (keep : nat → bool) (sh : list nat)
    (k : nat) (x : fnum) : fnum :=
  if negb (Dropout.training d) || (if Req_dec_T (Dropout.p d) 0 then true else false)
     || (numel sh =? 0)
  then x
  else if Req_dec_T (Dropout.p d) 1 then fmul x (Fin 0)
  else fmul x (if keep k then Fin (1 / (1 - Dropout.p d)) else Fin 0).

Lemma dropout_forward_at d keep (p : tensor fnum) k :
  k < length (data p) →
  data (Dropout.forward d keep p) !!! k = dropout_at d keep (shape p) k (data p !!! k).
Proof.
  intros Hk. unfold Dropout.forward, Dropout.noise, Dropout.is_identity, dropout_at.
  destruct (_ || _); [done|].
  destruct (lookup_lt_is_Some_2 _ _ Hk) as [x Hx].
  rewrite (list_lookup_total_correct _ _ _ Hx).
  destruct (Req_dec_T _ _); cbn [data]; apply list_lookup_total_correct.
  - by rewrite list_lookup_fmap, Hx.
  - by rewrite list_lookup_imap, Hx.
Qed.







Section masked_node.
Context (m : BiasedMultiheadAttention.t) (h hd bsz n : nat).
Context (tn tn' : tensor fnum) (tb : option (tensor fnum)) (mask : tensor fnum).
Context (keep : nat → bool) (b0 l0 : nat).
Hypothesis Hm : wf_module m h hd.
Hypothesis Hfm : fin_module m.
Hypothesis Hn : shape tn = [bsz; n; h * hd].
Hypothesis Hn' : shape tn' = [bsz; n; h * hd].
Hypothesis Hb : has_shape tb [bsz; n; n; h].
Hypothesis Hmk : shape mask = [bsz; n; n].
Hypothesis Hfn : all_fin tn.
Hypothesis Hfn' : all_fin tn'.
Hypothesis Hfb : from_option all_fin True tb.
Hypothesis Hsame : ∀ b i c, b < bsz → i < n → c < h * hd → b ≠ b0 ∨ i ≠ l0 →
    at_index tn [b; i; c] = at_index tn' [b; i; c].
Hypothesis Hmasked : ∀ i, i < n → i ≠ l0 →
    is_zero (at_index mask [b0; i; l0]) = false.



End masked_node.


(** The store with the mask that hides the last key, and a second batch
    of node features that differs from the first in the last node of the
    first graph. *)
Definition padded_store : store :=
  masked_store ++ [(λ o, Fin (if (24 <=? o) && (o <? 32) then 2 else 1)) <$> seq 0 64].
Definition padded_ndata : handle := Handle 3 (Tensor [2; 4; 8] (seq 0 64)).

Lemma padded_valid h :
  h ∈ [example_ndata; example_bias; example_mask; padded_ndata] →
  valid padded_store h.
Proof.
  rewrite !elem_of_cons, elem_of_nil. intros [->|[->|[->|[->|[]]]]];
    (eexists; split_and!; [reflexivity|reflexivity|];
     apply Forall_forall; intros o Ho%elem_of_seq;
     rewrite ?length_fmap, ?length_seq, ?length_replicate; simpl; lia).
Qed.


(** ** The buffer of the output *)

(** What is known of the handle [forward] returns: its buffer did not
    exist before the call and every position of the tensor has a cell
    of its own. *)
Definition fresh_post (s0 : store) (r : result handle) (s1 : store) : Prop :=
  match r with
  | Ok h => length s0 ≤ stor h ∧ stor h < length s1 ∧ injective h
  | Raise _ => True
  end.

Section output_buffer.
Context (reshape_is_view : handle → list nat → bool).
Context (to_bool_is_noop : handle → bool).

Lemma forward_fresh self keep ndata attn_bias attn_mask s0 :
    valid s0 ndata → valid_opt s0 attn_bias → valid_opt s0 attn_mask →
    wp (BiasedMultiheadAttention.forward reshape_is_view to_bool_is_noop
          self keep ndata attn_bias attn_mask) s0 (fresh_post s0).
  Proof.
    intros Hn Hb Hm.
    unfold BiasedMultiheadAttention.forward. apply wp_bind.
    destruct (attention_run reshape_is_view to_bool_is_noop self ndata attn_bias
                attn_mask s0 Hn Hb Hm) as (r & s1 & Erun & Hext & Hr).
    unfold wp at 1. rewrite Erun. cbn [fst snd].
    destruct r as [[[[aw vh] bsz] N]|e]; [|done].
    destruct (attention_val _ _ _ _) as [[[[taw tvh] bsz'] N']|e']; [|done].
    destruct Hr as (Haw & Hvh & <- & <-).
    pose proof (extends_length _ _ Hext) as Hlen.
    apply wp_bind. eapply wp_dropout; [eassumption|].
    intros s2 hd Hext2 Hd. pose proof (extends_length _ _ Hext2) as Hlen2.
    apply (repr_extends _ _ _ _ Hvh) in Hext2 as Hvh2.
    apply wp_bind. eapply wp_bmm; [eassumption..|].
    destruct (bmm _ _) as [a|]; [|done].
    intros s3 ha Hext3 Hlen3 _ Ha _.
    apply wp_bind. eapply wp_transpose; [eassumption|].
    destruct (transpose a 0 1) as [a1|]; [|done].
    intros ha1 _ Ha1 _.
    apply wp_bind. eapply (wp_reshape reshape_is_view); [eassumption|].
    destruct (reshape a1 _) as [a2|]; [|done].
    intros s4 ha2 Hext4 _ Ha2 _. pose proof (extends_length _ _ Hext4) as Hlen4.
    apply wp_bind. eapply wp_transpose; [eassumption|].
    destruct (transpose a2 0 1) as [a3|]; [|done].
    intros ha3 _ Ha3 _.
    eapply wp_linear; [eassumption|].
    destruct (Linear.forward _ a3) as [out|]; [|done].
    intros s5 hout _ Hlen5 Hstor _ Hinj. unfold fresh_post.
    split_and!; [lia|lia|done].
  Qed.

End output_buffer.

(** X17. The tensor [forward] returns lives in a buffer of its own: the
    buffer is allocated by the call, after every buffer of the store the
    call started in, so the output shares no memory with [ndata],
    [attn_bias] or [attn_mask], and no two positions of the output share
    a cell. *)
Theorem forward_output_is_fresh reshape_is_view to_bool_is_noop
    m h hd bsz n keep ndata attn_bias attn_mask s0 :
  wf_module m h hd →
  valid s0 ndata → valid_opt s0 attn_bias → valid_opt s0 attn_mask →
  shape (view ndata) = [bsz; n; h * hd] →
  shaped_opt attn_bias [bsz; n; n; h] →
  shaped_opt attn_mask [bsz; n; n] →
  ∃ out s1,
    BiasedMultiheadAttention.forward reshape_is_view to_bool_is_noop
      m keep ndata attn_bias attn_mask s0 = (Ok out, s1) ∧
    length s0 ≤ stor out ∧ stor out < length s1 ∧
    stor out ≠ stor ndata ∧
    from_option (λ b, stor out ≠ stor b) True attn_bias ∧
    from_option (λ k, stor out ≠ stor k) True attn_mask ∧
    NoDup (data (view out)).
Proof.
  intros Hm Hn Hb Hk Hns Hbs Hks.
  destruct (forward_val_at m h hd bsz n (value s0 ndata) (value s0 <$> attn_bias)
              (value s0 <$> attn_mask) keep Hm Hns
              (shaped_opt_has_shape _ _ _ Hb Hbs) (shaped_opt_shape s0 _ _ Hks))
    as (_ & _ & _ & tout & _ & Efw & _).
  destruct (forward_run reshape_is_view to_bool_is_noop m keep ndata attn_bias attn_mask
              s0 Hn Hb Hk) as (r & s1 & Erun & _ & Hr).
  rewrite Efw in Hr. destruct r as [out|]; [|done].
  exists out, s1. split; [done|].
  pose proof (forward_fresh reshape_is_view to_bool_is_noop m keep ndata attn_bias
                attn_mask s0 Hn Hb Hk) as Hwp.
  unfold wp in Hwp. rewrite Erun in Hwp. destruct Hwp as (Hlow & Hhigh & Hinj).
  assert (∀ x, valid s0 x → stor x < length s0) as Hlt.
  { intros x (buf & Hbuf & _). by eapply lookup_lt_Some. }
  split_and!; [done|done| | | |done].
  - apply Hlt in Hn. lia.
  - destruct attn_bias as [b|]; [|done]. simpl in *. apply Hlt in Hb. lia.
  - destruct attn_mask as [k|]; [|done]. simpl in *. apply Hlt in Hk. lia.
Qed.

Lemma forward_output_is_fresh_witness :
  ∃ out s1,
    BiasedMultiheadAttention.forward (λ _ _, true) (λ _, true)
      example_module (λ _, true) example_ndata (Some example_bias) (Some example_mask)
      masked_store = (Ok out, s1) ∧
    length masked_store ≤ stor out ∧ stor out < length s1 ∧
    stor out ≠ stor example_ndata ∧
    from_option (λ b, stor out ≠ stor b) True (Some example_bias) ∧
    from_option (λ k, stor out ≠ stor k) True (Some example_mask) ∧
    NoDup (data (view out)).
Proof.
  apply (forward_output_is_fresh (λ _ _, true) (λ _, true) example_module 2 4 2 4
           (λ _, true) example_ndata (Some example_bias) (Some example_mask)
           masked_store).
  - apply example_module_wf.
  - apply masked_ndata_valid.
  - apply masked_bias_valid.
  - apply masked_mask_valid.
  - reflexivity.
  - reflexivity.
  - reflexivity.
Defined.

(** ** Finite inputs give a finite output *)



Section finite.
Context (m : BiasedMultiheadAttention.t) (h hd bsz n : nat).
Context (tn : tensor fnum) (tb tm : option (tensor fnum)) (keep : nat → bool).
Hypothesis Hm : wf_module m h hd.
Hypothesis Hfm : fin_module m.
Hypothesis Hn : shape tn = [bsz; n; h * hd].
Hypothesis Hb : has_shape tb [bsz; n; n; h].
Hypothesis Hmk : from_option (λ mask, shape mask = [bsz; n; n]) True tm.
Hypothesis Hfn : all_fin tn.
Hypothesis Hfb : from_option all_fin True tb.
Hypothesis Hfree : ∀ b i, b < bsz → i < n →
    from_option (λ mask, ∃ j', j' < n ∧ is_zero (at_index mask [b; i; j']) = true)
      True tm.


End finite.



(** ** The graphs of a batch do not influence one another *)

(** Two optional tensors are both absent, or both present and equal at
    every multi-index that starts with [b0]. *)
Definition agree_on_batch (b0 : nat) (sh : list nat) (t t' : option (tensor fnum))
    : Prop :=
  match t, t' with
  | Some x, Some x' =>
      ∀ idx, Forall2 lt idx sh → at_index x (b0 :: idx) = at_index x' (b0 :: idx)
  | None, None => True
  | _, _ => False
  end.

(** A projection of a row that two inputs share is shared. *)
Lemma linear_shared_row l (x x' y y' : tensor fnum) a n f r i c :
  wf_linear l f → shape x = [a; n; f] → shape x' = [a; n; f] →
  Linear.forward l x = Ok y → Linear.forward l x' = Ok y' →
  shape y = [a; n; f] → shape y' = [a; n; f] →
  r < a → i < n → c < f →
  (∀ j, j < f → at_index x [r; i; j] = at_index x' [r; i; j]) →
  at_index y [r; i; c] = at_index y' [r; i; c].
Proof.
  intros Hl Hx Hx' Ey Ey' Hys Hys' Hr Hi Hc Hsame. unfold at_index.
  rewrite Hys, Hys', !ravel3.
  rewrite (linear_at l x y a n f r i c Hl Hx Ey) by done.
  rewrite (linear_at l x' y' a n f r i c Hl Hx' Ey') by done.
  cbv zeta.
  assert ((λ j, fmul (data x !!! ((r * n + i) * f + j))
                     (data (Linear.weight l) !!! (c * f + j))) <$> seq 0 f
          = (λ j, fmul (data x' !!! ((r * n + i) * f + j))
                       (data (Linear.weight l) !!! (c * f + j))) <$> seq 0 f)
    as ->; [|done].
  apply list_fmap_ext. intros j ? [-> Hj]%lookup_seq. rewrite Nat.add_0_l.
  specialize (Hsame j Hj). unfold at_index in Hsame.
  rewrite Hx, Hx', !ravel3 in Hsame. by rewrite Hsame.
Qed.

Section batch.
Context (m : BiasedMultiheadAttention.t) (h hd bsz n : nat).
Context (tn tn' : tensor fnum) (tb tb' tm tm' : option (tensor fnum)).
Context (keep : nat → bool) (b0 : nat).
Hypothesis Hm : wf_module m h hd.
Hypothesis Hn : shape tn = [bsz; n; h * hd].
Hypothesis Hn' : shape tn' = [bsz; n; h * hd].
Hypothesis Hb : has_shape tb [bsz; n; n; h].
Hypothesis Hb' : has_shape tb' [bsz; n; n; h].
Hypothesis Hmk : from_option (λ mask, shape mask = [bsz; n; n]) True tm.
Hypothesis Hmk' : from_option (λ mask, shape mask = [bsz; n; n]) True tm'.
Hypothesis Hb0 : b0 < bsz.
Hypothesis Hsame : ∀ i c, i < n → c < h * hd →
    at_index tn [b0; i; c] = at_index tn' [b0; i; c].
Hypothesis Hbias : agree_on_batch b0 [n; n; h] tb tb'.
Hypothesis Hmask : agree_on_batch b0 [n; n] tm tm'.

Lemma batch_val :
    ∃ out out',
      forward_val m keep tn tb tm = Ok out ∧
      forward_val m keep tn' tb' tm' = Ok out' ∧
      shape out = [bsz; n; h * hd] ∧ shape out' = [bsz; n; h * hd] ∧
      ∀ i c, i < n → c < h * hd →
        at_index out [b0; i; c] = at_index out' [b0; i; c].
  Proof.
    destruct (attention_val_at m h hd bsz n tn tb tm Hm Hn Hb Hmk)
      as (q & k & v & p & vh & Eq & Ek & Ev & Hqs & Hks & Hvs & Eatt & Hps & Hpw
          & Hvhs & Hvhw & Hp & Hvh).
    destruct (attention_val_at m h hd bsz n tn' tb' tm' Hm Hn' Hb' Hmk')
      as (q' & k' & v' & p' & vh' & Eq' & Ek' & Ev' & Hqs' & Hks' & Hvs' & Eatt' & Hps'
          & Hpw' & Hvhs' & Hvhw' & Hp' & Hvh').
    destruct (forward_val_at m h hd bsz n tn tb tm keep Hm Hn Hb Hmk)
      as (p1 & vh1 & attn & out & Eatt1 & Efw & Eout & Hattn & Hos & How & Hat).
    rewrite Eatt in Eatt1. injection Eatt1 as <- <-.
    destruct (forward_val_at m h hd bsz n tn' tb' tm' keep Hm Hn' Hb' Hmk')
      as (p1 & vh1 & attn' & out' & Eatt1 & Efw' & Eout' & Hattn' & Hos' & How' & Hat').
    rewrite Eatt' in Eatt1. injection Eatt1 as <- <-.
    exists out, out'. split_and!; [done..|].
    assert (∀ hh i l, hh < h → i < n → l < n →
              attention_score m hd q k tb tm b0 hh i l
              = attention_score m hd q' k' tb' tm' b0 hh i l) as Hscore.
    { intros hh i l Hhh Hi Hl. unfold attention_score.
      assert (fsum ((λ c, fmul
                (match BiasedMultiheadAttention.scaling m with
                 | PyFloat s => fdiv (at_index q [b0; i; hh * hd + c]) s
                 | PyComplex _ _ => NaN
                 end) (at_index k [b0; l; hh * hd + c])) <$> seq 0 hd)
              = fsum ((λ c, fmul
                  (match BiasedMultiheadAttention.scaling m with
                   | PyFloat s => fdiv (at_index q' [b0; i; hh * hd + c]) s
                   | PyComplex _ _ => NaN
                   end) (at_index k' [b0; l; hh * hd + c])) <$> seq 0 hd)) as ->.
      { f_equal. apply list_fmap_ext. intros c ? [-> Hc]%lookup_seq.
        rewrite Nat.add_0_l. assert (hh * hd + c < h * hd) as Hlt by nia.
        rewrite (linear_shared_row _ tn tn' q q' bsz n (h * hd) b0 i _
                   (wf_q_proj _ _ _ Hm) Hn Hn' Eq Eq') by auto.
        by rewrite (linear_shared_row _ tn tn' k k' bsz n (h * hd) b0 l _
                      (wf_k_proj _ _ _ Hm) Hn Hn' Ek Ek') by auto. }
      assert (∀ x, bias_score (BiasedMultiheadAttention.attn_bias_type m) tb b0 i l hh x
                   = bias_score (BiasedMultiheadAttention.attn_bias_type m) tb' b0 i l hh x)
        as ->.
      { intros x. unfold bias_score. destruct tb as [b|], tb' as [b'|]; try done.
        simpl in Hbias. by rewrite (Hbias [i; l; hh]) by (repeat constructor; lia). }
      unfold mask_score. destruct tm as [k0|], tm' as [k0'|]; try done.
      simpl in Hmask. by rewrite (Hmask [i; l]) by (repeat constructor; lia). }
    assert (∀ i j, i < n → j < h * hd →
              at_index attn [b0; i; j] = at_index attn' [b0; i; j]) as Haa.
    { intros i j Hi Hj. assert (0 < hd) as Hhd by nia.
      assert (j `div` hd < h) as Hhh by (apply Nat.Div0.div_lt_upper_bound; lia).
      assert (j `mod` hd < hd) as Hc by (apply Nat.mod_upper_bound; lia).
      rewrite (Nat.div_mod_eq j hd), (Nat.mul_comm hd).
      rewrite Hat, Hat' by done. f_equal.
      apply list_fmap_ext. intros l ? [-> Hl]%lookup_seq. rewrite Nat.add_0_l.
      assert (ravel [bsz * h; n; n] [b0 * h + j `div` hd; i; l] < length (data p))
        as Hk.
      { unfold wf_tensor in Hpw. rewrite Hpw, Hps. apply (ravel_lt [bsz * h; n; n]).
        repeat constructor; nia. }
      assert (ravel [bsz * h; n; n] [b0 * h + j `div` hd; i; l] < length (data p'))
        as Hk'.
      { unfold wf_tensor in Hpw'. rewrite Hpw', Hps'. apply (ravel_lt [bsz * h; n; n]).
        repeat constructor; nia. }
      unfold at_index at 1 3. rewrite !dropout_forward_shape, Hps, Hps'.
      rewrite !dropout_forward_at by done. rewrite Hps, Hps'.
      assert (data p !!! ravel [bsz * h; n; n] [b0 * h + j `div` hd; i; l]
              = data p' !!! ravel [bsz * h; n; n] [b0 * h + j `div` hd; i; l]) as ->.
      { pose proof (Hp b0 (j `div` hd) i l Hb0 Hhh Hi Hl) as E.
        pose proof (Hp' b0 (j `div` hd) i l Hb0 Hhh Hi Hl) as E'.
        unfold at_index in E, E'. rewrite Hps in E. rewrite Hps' in E'.
        rewrite E, E'. f_equal. f_equal.
        apply list_fmap_ext. intros l' ? [-> Hl']%lookup_seq. rewrite Nat.add_0_l.
        by apply Hscore. }
      rewrite Hvh, Hvh' by done.
      assert (j `div` hd * hd + j `mod` hd < h * hd) as Hlt by nia.
      by rewrite (linear_shared_row _ tn tn' v v' bsz n (h * hd) b0 l _
                    (wf_v_proj _ _ _ Hm) Hn Hn' Ev Ev') by auto. }
    intros i c Hi Hc. unfold at_index. rewrite Hos, Hos', !ravel3.
    rewrite (linear_at _ attn out bsz n (h * hd) b0 i c (wf_out_proj _ _ _ Hm) Hattn Eout)
      by done.
    rewrite (linear_at _ attn' out' bsz n (h * hd) b0 i c (wf_out_proj _ _ _ Hm)
               Hattn' Eout') by done.
    cbv zeta.
    assert ((λ j, fmul (data attn !!! ((b0 * n + i) * (h * hd) + j))
                       (data (Linear.weight (BiasedMultiheadAttention.out_proj m))
                          !!! (c * (h * hd) + j))) <$> seq 0 (h * hd)
            = (λ j, fmul (data attn' !!! ((b0 * n + i) * (h * hd) + j))
                         (data (Linear.weight (BiasedMultiheadAttention.out_proj m))
                            !!! (c * (h * hd) + j))) <$> seq 0 (h * hd)) as ->; [|done].
    apply list_fmap_ext. intros j ? [-> Hj]%lookup_seq. rewrite Nat.add_0_l.
    specialize (Haa i j Hi Hj). unfold at_index in Haa.
    rewrite Hattn, Hattn', !ravel3 in Haa. by rewrite Haa.
  Qed.

End batch.

(** X20. The graphs of a batch are treated independently: when two calls
    get the same dropout draw and inputs that agree on batch element
    [b0] (node features, bias and mask; the other batch elements may
    differ), their outputs agree on batch element [b0]. *)
Theorem batch_elements_independent reshape_is_view to_bool_is_noop
    m h hd bsz n keep ndata ndata' attn_bias attn_bias' attn_mask attn_mask' s0 b0 :
  wf_module m h hd →
  valid s0 ndata → valid s0 ndata' →
  valid_opt s0 attn_bias → valid_opt s0 attn_bias' →
  valid_opt s0 attn_mask → valid_opt s0 attn_mask' →
  shape (view ndata) = [bsz; n; h * hd] →
  shape (view ndata') = [bsz; n; h * hd] →
  shaped_opt attn_bias [bsz; n; n; h] → shaped_opt attn_bias' [bsz; n; n; h] →
  shaped_opt attn_mask [bsz; n; n] → shaped_opt attn_mask' [bsz; n; n] →
  b0 < bsz →
  (∀ i c, i < n → c < h * hd →
     at_index (value s0 ndata) [b0; i; c] = at_index (value s0 ndata') [b0; i; c]) →
  agree_on_batch b0 [n; n; h] (value s0 <$> attn_bias) (value s0 <$> attn_bias') →
  agree_on_batch b0 [n; n] (value s0 <$> attn_mask) (value s0 <$> attn_mask') →
  ∃ out s1 out' s1',
    BiasedMultiheadAttention.forward reshape_is_view to_bool_is_noop
      m keep ndata attn_bias attn_mask s0 = (Ok out, s1) ∧
    BiasedMultiheadAttention.forward reshape_is_view to_bool_is_noop
      m keep ndata' attn_bias' attn_mask' s0 = (Ok out', s1') ∧
    ∀ i c, i < n → c < h * hd →
      at_index (value s1 out) [b0; i; c] = at_index (value s1' out') [b0; i; c].
Proof.
  intros Hm Hn Hn' Hb Hb' Hk Hk' Hns Hns' Hbs Hbs' Hks Hks' Hb0 Hsame Hbias Hmask.
  destruct (batch_val m h hd bsz n (value s0 ndata) (value s0 ndata')
              (value s0 <$> attn_bias) (value s0 <$> attn_bias')
              (value s0 <$> attn_mask) (value s0 <$> attn_mask') keep b0 Hm Hns Hns'
              (shaped_opt_has_shape _ _ _ Hb Hbs) (shaped_opt_has_shape _ _ _ Hb' Hbs')
              (shaped_opt_shape s0 _ _ Hks) (shaped_opt_shape s0 _ _ Hks')
              Hb0 Hsame Hbias Hmask)
    as (out & out' & Efw & Efw' & _ & _ & Heq).
  destruct (forward_run reshape_is_view to_bool_is_noop m keep ndata attn_bias
              attn_mask s0 Hn Hb Hk) as (r & s1 & Erun & _ & Hr).
  destruct (forward_run reshape_is_view to_bool_is_noop m keep ndata' attn_bias'
              attn_mask' s0 Hn' Hb' Hk') as (r' & s1' & Erun' & _ & Hr').
  rewrite Efw in Hr. rewrite Efw' in Hr'.
  destruct r as [oh|]; [|done]. destruct r' as [oh'|]; [|done].
  exists oh, s1, oh', s1'.
  by rewrite (repr_value _ _ _ Hr), (repr_value _ _ _ Hr').
Qed.

Lemma batch_elements_independent_witness :
  ∃ out s1 out' s1',
    BiasedMultiheadAttention.forward (λ _ _, true) (λ _, true)
      example_module (λ _, true) example_ndata (Some example_bias) (Some example_mask)
      padded_store = (Ok out, s1) ∧
    BiasedMultiheadAttention.forward (λ _ _, true) (λ _, true)
      example_module (λ _, true) padded_ndata (Some example_bias) (Some example_mask)
      padded_store = (Ok out', s1') ∧
    ∀ i c, i < 4 → c < 2 * 4 →
      at_index (value s1 out) [1; i; c] = at_index (value s1' out') [1; i; c].
Proof.
  apply (batch_elements_independent (λ _ _, true) (λ _, true) example_module 2 4 2 4
           (λ _, true) example_ndata padded_ndata (Some example_bias) (Some example_bias)
           (Some example_mask) (Some example_mask) padded_store 1).
  - apply example_module_wf.
  - apply padded_valid. rewrite !elem_of_cons. tauto.
  - apply padded_valid. rewrite !elem_of_cons. tauto.
  - apply padded_valid. rewrite !elem_of_cons. tauto.
  - apply padded_valid. rewrite !elem_of_cons. tauto.
  - apply padded_valid. rewrite !elem_of_cons. tauto.
  - apply padded_valid. rewrite !elem_of_cons. tauto.
  - reflexivity.
  - reflexivity.
  - reflexivity.
  - reflexivity.
  - reflexivity.
  - reflexivity.
  - lia.
  - intros i c Hi Hc.
    destruct i as [|[|[|[|i]]]]; [| | | |lia];
      (do 8 (destruct c as [|c]; [reflexivity|]); simpl in Hc; lia).
  - intros idx _. reflexivity.
  - intros idx _. reflexivity.
Defined.
